(** * GaiaLab: the AGIS block least-squares solver

    A shallow embedding of [GaiaLab/scan/analytic_scanner/agis.py]
    (classes [Calc_source] and [Agis]) and the properties of its residual
    engine, source-block solver, attitude-block solver and driver.

    Conventions of the embedding.
    - Python floats (angles, parameters, spline coefficients, observation
      times) are idealised as real numbers [R]; rounding, NaN and infinities
      are outside the model.
    - numpy arrays are lists: a vector is a [list R], a two-dimensional array
      a list of rows.  Shapes that the code passes to [np.zeros] are passed
      explicitly where an empty list would lose them.
    - a raised exception is the [Raise] outcome of [result]; functions that
      mutate the solver return the solver state together with the outcome,
      because mutations made before an exception are kept.
    - modules of the project that [agis.py] imports ([agis_functions],
      [frame_transformations], [helpers], [quaternion], [satellite],
      [source], [constants]) and numpy/scipy routines are the fields of the
      class [Externals]; two of them whose behaviour the properties depend on
      are modelled explicitly and marked as such. *)

From Stdlib Require Import Reals Lra Lia List String Bool Arith Permutation.
From stdpp Require Import base list.
Import ListNotations.

Open Scope R_scope.

(* ------------------------------------------------------------------ *)
(** ** Outcomes *)

Inductive exn : Type :=
| ValueError (msg : string)
| IndexError
| AttributeError (attr : string)
| LinAlgError.

Inductive result (A : Type) : Type :=
| Ok (a : A)
| Raise (e : exn).
Arguments Ok {A} a.
Arguments Raise {A} e.

Definition rbind {A B} (r : result A) (f : A -> result B) : result B :=
  match r with
  | Ok a => f a
  | Raise e => Raise e
  end.

Notation "'do' x <- r ; k" := (rbind r (fun x => k))
  (at level 10, x name, r at level 100, k at level 200).
Notation "'do' ' p <- r ; k" := (rbind r (fun v => match v with p => k end))
  (at level 10, p pattern, r at level 100, k at level 200).

Definition is_ok {A} (r : result A) : bool :=
  match r with Ok _ => true | Raise _ => false end.

(** [seq[i]] on a Python list or numpy array, for a non-negative index. *)
Definition index {A} (l : list A) (i : nat) : result A :=
  match l !! i with
  | Some a => Ok a
  | None => Raise IndexError
  end.

(** Sequencing a fallible function over a list, left to right. *)
Fixpoint mapM {A B} (f : A -> result B) (l : list A) : result (list B) :=
  match l with
  | [] => Ok []
  | a :: l' => do b <- f a; do bs <- mapM f l'; Ok (b :: bs)
  end.

(** A [for] loop with an accumulator and a body that may raise. *)
Fixpoint foldM {A S} (f : S -> A -> result S) (s : S) (l : list A) : result S :=
  match l with
  | [] => Ok s
  | a :: l' => do s' <- f s a; foldM f s' l'
  end.

(* ------------------------------------------------------------------ *)
(** ** Numeric containers *)

Definition Vec := list R.
Definition Matrix := list (list R).

(** [Quaternion(w, x, y, z)]. *)
Record Quaternion : Type := mkQuaternion {
  q_w : R; q_x : R; q_y : R; q_z : R }.

(** A 4x1 column array, as [np.zeros((4, 1))]. *)
Record Col4 : Type := mkCol4 {
  c_0 : R; c_1 : R; c_2 : R; c_3 : R }.

(** A 4x4 array, as [np.zeros((4, 4))], by rows. *)
Record Mat4 : Type := mkMat4 {
  m_0 : Col4; m_1 : Col4; m_2 : Col4; m_3 : Col4 }.

Definition col4_zero : Col4 := mkCol4 0 0 0 0.
Definition mat4_zero : Mat4 := mkMat4 col4_zero col4_zero col4_zero col4_zero.

Definition col4_map (f : R -> R) (a : Col4) : Col4 :=
  mkCol4 (f (c_0 a)) (f (c_1 a)) (f (c_2 a)) (f (c_3 a)).
Definition col4_map2 (f : R -> R -> R) (a b : Col4) : Col4 :=
  mkCol4 (f (c_0 a) (c_0 b)) (f (c_1 a) (c_1 b))
         (f (c_2 a) (c_2 b)) (f (c_3 a) (c_3 b)).
Definition col4_add : Col4 -> Col4 -> Col4 := col4_map2 Rplus.
Definition col4_neg : Col4 -> Col4 := col4_map Ropp.
(** [a * s] for a 4x1 array [a] and a scalar [s]. *)
Definition col4_scale_r (a : Col4) (s : R) : Col4 := col4_map (fun x => x * s) a.
(** [s * a] for a scalar [s] and a 4x1 array [a]. *)
Definition col4_scale_l (s : R) (a : Col4) : Col4 := col4_map (fun x => s * x) a.
Definition col4_dot (a b : Col4) : R :=
  c_0 a * c_0 b + c_1 a * c_1 b + c_2 a * c_2 b + c_3 a * c_3 b.
Definition col4_list (a : Col4) : list R := [c_0 a; c_1 a; c_2 a; c_3 a].

(** [a @ b.T] for two 4x1 arrays: the 4x4 outer product. *)
Definition outer (a b : Col4) : Mat4 :=
  mkMat4 (col4_scale_l (c_0 a) b) (col4_scale_l (c_1 a) b)
         (col4_scale_l (c_2 a) b) (col4_scale_l (c_3 a) b).
Definition mat4_add (a b : Mat4) : Mat4 :=
  mkMat4 (col4_add (m_0 a) (m_0 b)) (col4_add (m_1 a) (m_1 b))
         (col4_add (m_2 a) (m_2 b)) (col4_add (m_3 a) (m_3 b)).
Definition mat4_rows (a : Mat4) : list Col4 := [m_0 a; m_1 a; m_2 a; m_3 a].

(** Sum of a list of reals. *)
Definition Rsum (l : list R) : R := fold_right Rplus 0 l.

Definition dot (u v : Vec) : R := Rsum (zip_with Rmult u v).

(** Entry [(i, j)] of a two-dimensional array; [0] outside it. *)
Definition entry (m : Matrix) (i j : nat) : R := nth j (nth i m []) 0.

(** Column [j] of a list of rows. *)
Definition column (m : Matrix) (j : nat) : Vec := map (fun row => nth j row 0) m.

(** [m.transpose()] for an array of [p] columns. *)
Definition transpose (p : nat) (m : Matrix) : Matrix :=
  map (column m) (seq 0 p).

(** [a @ b] where [b] has [p] columns. *)
Definition matmul (p : nat) (a b : Matrix) : Matrix :=
  map (fun row => map (fun j => dot row (column b j)) (seq 0 p)) a.

(** [np.eye(n)]. *)
Definition eye (n : nat) : Matrix :=
  map (fun i => map (fun j => if Nat.eqb i j then 1 else 0) (seq 0 n)) (seq 0 n).

Definition mat_neg (m : Matrix) : Matrix := map (map Ropp) m.
Definition mat_add (a b : Matrix) : Matrix := zip_with (zip_with Rplus) a b.
Definition vec_scale (s : R) (v : Vec) : Vec := map (Rmult s) v.

(** [np.sort] on a one-dimensional array: insertion into ascending order. *)
Fixpoint sort_insert (x : R) (l : list R) : list R :=
  match l with
  | [] => [x]
  | y :: l' => if Rle_dec x y then x :: y :: l' else y :: sort_insert x l'
  end.
Definition np_sort (l : list R) : list R := fold_right sort_insert [] l.

(** Membership test on floats, [t in seq]. *)
Definition Rmem (t : R) (l : list R) : bool :=
  existsb (fun u => if Req_dec_T t u then true else false) l.

(** [list(seq).index(t)]: position of the first occurrence. *)
Fixpoint list_index (t : R) (l : list R) : result nat :=
  match l with
  | [] => Raise (ValueError "is not in list")
  | u :: l' => if Req_dec_T u t then Ok O
               else do i <- list_index t l'; Ok (S i)
  end.

(* ------------------------------------------------------------------ *)
(** ** Quaternions *)

(** Modelled from the spec: the class [Quaternion] of [quaternion.py], which
    is not part of the sources at hand.  "For any nonzero quaternion
    coefficient vector, renormalization produces a unit-norm quaternion whose
    rotation action is unchanged": the magnitude is the Euclidean norm of the
    four components, [unit()] divides each component by it, and a quaternion
    acts on a vector [v] by the Hamilton product [q * (0, v) * q^-1]. *)
Definition quaternion_norm2 (q : Quaternion) : R :=
  q_w q * q_w q + q_x q * q_x q + q_y q * q_y q + q_z q * q_z q.

Definition quaternion_magnitude (q : Quaternion) : R :=
  sqrt (quaternion_norm2 q).

Definition quaternion_unit (q : Quaternion) : Quaternion :=
  let mag := quaternion_magnitude q in
  mkQuaternion (q_w q / mag) (q_x q / mag) (q_y q / mag) (q_z q / mag).

Definition quaternion_mul (p q : Quaternion) : Quaternion :=
  mkQuaternion
    (q_w p * q_w q - q_x p * q_x q - q_y p * q_y q - q_z p * q_z q)
    (q_w p * q_x q + q_x p * q_w q + q_y p * q_z q - q_z p * q_y q)
    (q_w p * q_y q - q_x p * q_z q + q_y p * q_w q + q_z p * q_x q)
    (q_w p * q_z q + q_x p * q_y q - q_y p * q_x q + q_z p * q_w q).

Definition quaternion_conjugate (q : Quaternion) : Quaternion :=
  mkQuaternion (q_w q) (- q_x q) (- q_y q) (- q_z q).

Definition quaternion_inverse (q : Quaternion) : Quaternion :=
  let n2 := quaternion_norm2 q in
  mkQuaternion (q_w q / n2) (- q_x q / n2) (- q_y q / n2) (- q_z q / n2).

(** The rotation action of [q] on the vector [(vx, vy, vz)]. *)
Definition quaternion_rotate (q : Quaternion) (vx vy vz : R) : Quaternion :=
  quaternion_mul (quaternion_mul q (mkQuaternion 0 vx vy vz))
                 (quaternion_inverse q).

(* ------------------------------------------------------------------ *)
(** ** The calculated source *)

(** An element of [Calc_source.s_old]: the constructor stores the parameter
    array itself ([self.s_old = [self.s_params]]), the source-block pass
    appends copies. *)
Inductive s_old_entry : Type :=
| SharedParams
| ParamsCopy (p : Vec).

Record Calc_source : Type := mkCalc_source {
  name : string;
  obs_times : list R;
  s_params : Vec;
  mu_radial : R;
  s_old : list s_old_entry;
  errors : list R;
  mean_color : R }.

Definition set_s_params (cs : Calc_source) (p : Vec) : Calc_source :=
  mkCalc_source (name cs) (obs_times cs) p (mu_radial cs) (s_old cs)
                (errors cs) (mean_color cs).
Definition set_s_old (cs : Calc_source) (o : list s_old_entry) : Calc_source :=
  mkCalc_source (name cs) (obs_times cs) (s_params cs) (mu_radial cs) o
                (errors cs) (mean_color cs).
Definition set_errors (cs : Calc_source) (e : list R) : Calc_source :=
  mkCalc_source (name cs) (obs_times cs) (s_params cs) (mu_radial cs)
                (s_old cs) e (mean_color cs).

(** A [scipy.interpolate.BSpline(t, c, k)] object. *)
Record BSpline : Type := mkBSpline {
  spl_t : list R;
  spl_c : list R;
  spl_k : nat }.

(* ------------------------------------------------------------------ *)
(** ** What [agis.py] imports

    The collaborators of the solver.  [Source] and [Satellite] are the
    classes of [source.py] and [satellite.py]; the other fields are the
    functions of [agis_functions.py], [frame_transformations.py] and
    [helpers.py] that [agis.py] calls, the constants of [constants.py], and
    the numpy/scipy routines whose result is not determined by [agis.py]. *)

Class Externals : Type := {
  Source : Type;
  Satellite : Type;
  (* constants *)
  rad_per_deg : R;
  t_ep : R;
  (* source.Source *)
  source_name : Source -> string;
  get_parameters : Source -> Vec;
  source_mean_color : Source -> R;
  func_color : Source -> R -> R;
  (* satellite.Satellite *)
  func_attitude : Satellite -> R -> Quaternion;
  ephemeris_bcrs : Satellite -> R -> Vec;
  (* frame_transformations, helpers *)
  compute_pqr : R -> R -> Vec * Vec * Vec;
  lmn_to_xyz : Quaternion -> Vec -> Vec;
  sec : R -> R;
  (* agis_functions *)
  observed_field_angles : Source -> Quaternion -> Satellite -> R -> bool -> R * R;
  calculated_field_angles :
    Calc_source -> Quaternion -> Satellite -> R -> bool -> R * R;
  attitude_from_alpha_delta : Source -> Satellite -> R -> R -> Quaternion;
  compute_du_dparallax : Vec -> Vec -> Vec;
  compute_deviated_angles_color_aberration : R -> R -> R -> R -> R * R;
  compute_mnu : R -> R -> Vec * Vec * Vec;
  error_between_func_attitudes :
    list R -> (R -> Quaternion) -> (R -> result Quaternion) -> result R;
  extract_coeffs_knots_from_splines :
    list BSpline -> nat -> Matrix * list R * list BSpline;
  get_basis_Bsplines : list R -> Vec -> nat -> list R -> Matrix;
  get_times_in_knot_interval : list R -> list R -> nat -> nat -> list R;
  get_left_index : list R -> R -> nat -> nat;
  compute_coeff_basis_sum : Matrix -> Matrix -> nat -> nat -> nat -> Vec;
  compute_attitude_deviation : Vec -> R;
  compute_DL_da_i : Vec -> Matrix -> nat -> nat -> Col4;
  compute_dR_dq : Calc_source -> Satellite -> Quaternion -> R -> Col4;
  dR_da_i : Col4 -> R -> Col4;
  (* scipy.interpolate.BSpline.__call__ *)
  bspline_call : BSpline -> R -> R;
  (* numpy.linalg.solve; [None] stands for a raised LinAlgError *)
  np_linalg_solve : Matrix -> Matrix -> option Matrix
}.

(** Modelled from the spec: [helpers.get_lists_intersection], which is not
    part of the sources at hand.  The attitude block sums "over every
    observation time lying in the intersection of the two spans' supports":
    the times of the first list that also occur in the second, each once. *)
Fixpoint get_lists_intersection (l1 l2 : list R) : list R :=
  match l1 with
  | [] => []
  | t :: l1' =>
      let rest := get_lists_intersection l1' l2 in
      if Rmem t l2 && negb (Rmem t rest) then t :: rest else rest
  end.

(* ------------------------------------------------------------------ *)
(** ** The solver object *)

(** What [Agis.__init__] sets only when [attitude_splines] is given. *)
Record Attitude_state : Type := mkAttitude_state {
  c : Matrix;
  att_coeffs : Matrix;
  att_knots : list R;
  attitude_splines : list BSpline;
  att_bases : Matrix }.

(** A line written to standard output by the driver and the assembly. *)
Inductive output : Type :=
| PrintIteration (counter : nat)
| PrintErrorBefore (e : R)
| PrintAttitudeError (e : R)
| PrintErrorAfter (e : R)
| PrintNaaDim (n : nat)
| PrintNotResetting.

Section Solver.
Context `{Ext : Externals}.

Record Agis : Type := mkAgis {
  calc_sources : list Calc_source;
  real_sources : list Source;
  sat : Satellite;
  k : nat;
  M : nat;
  attitude_regularisation_factor : R;
  verbose : bool;
  updating : string;
  consider_stellar_aberation : bool;
  degree_error : R;
  double_telescope : bool;
  iter_counter : nat;
  N : nat;
  time_dict : list (R * nat);
  all_obs_times : list R;
  attitude : option Attitude_state;
  N_aa : option Matrix;
  h : option Matrix;
  d : option Vec;
  c_update : option Matrix;
  stdout : list output }.

Definition set_calc_sources (a : Agis) (cs : list Calc_source) : Agis :=
  mkAgis cs (real_sources a) (sat a) (k a) (M a)
         (attitude_regularisation_factor a) (verbose a) (updating a)
         (consider_stellar_aberation a) (degree_error a) (double_telescope a)
         (iter_counter a) (N a) (time_dict a) (all_obs_times a) (attitude a)
         (N_aa a) (h a) (d a) (c_update a) (stdout a).
Definition set_iter_counter (a : Agis) (n : nat) : Agis :=
  mkAgis (calc_sources a) (real_sources a) (sat a) (k a) (M a)
         (attitude_regularisation_factor a) (verbose a) (updating a)
         (consider_stellar_aberation a) (degree_error a) (double_telescope a)
         n (N a) (time_dict a) (all_obs_times a) (attitude a)
         (N_aa a) (h a) (d a) (c_update a) (stdout a).
Definition set_attitude (a : Agis) (s : option Attitude_state) : Agis :=
  mkAgis (calc_sources a) (real_sources a) (sat a) (k a) (M a)
         (attitude_regularisation_factor a) (verbose a) (updating a)
         (consider_stellar_aberation a) (degree_error a) (double_telescope a)
         (iter_counter a) (N a) (time_dict a) (all_obs_times a) s
         (N_aa a) (h a) (d a) (c_update a) (stdout a).
Definition set_N_aa (a : Agis) (m : option Matrix) : Agis :=
  mkAgis (calc_sources a) (real_sources a) (sat a) (k a) (M a)
         (attitude_regularisation_factor a) (verbose a) (updating a)
         (consider_stellar_aberation a) (degree_error a) (double_telescope a)
         (iter_counter a) (N a) (time_dict a) (all_obs_times a) (attitude a)
         m (h a) (d a) (c_update a) (stdout a).
Definition set_h (a : Agis) (m : option Matrix) : Agis :=
  mkAgis (calc_sources a) (real_sources a) (sat a) (k a) (M a)
         (attitude_regularisation_factor a) (verbose a) (updating a)
         (consider_stellar_aberation a) (degree_error a) (double_telescope a)
         (iter_counter a) (N a) (time_dict a) (all_obs_times a) (attitude a)
         (N_aa a) m (d a) (c_update a) (stdout a).
Definition set_d (a : Agis) (v : option Vec) : Agis :=
  mkAgis (calc_sources a) (real_sources a) (sat a) (k a) (M a)
         (attitude_regularisation_factor a) (verbose a) (updating a)
         (consider_stellar_aberation a) (degree_error a) (double_telescope a)
         (iter_counter a) (N a) (time_dict a) (all_obs_times a) (attitude a)
         (N_aa a) (h a) v (c_update a) (stdout a).
Definition set_c_update (a : Agis) (m : option Matrix) : Agis :=
  mkAgis (calc_sources a) (real_sources a) (sat a) (k a) (M a)
         (attitude_regularisation_factor a) (verbose a) (updating a)
         (consider_stellar_aberation a) (degree_error a) (double_telescope a)
         (iter_counter a) (N a) (time_dict a) (all_obs_times a) (attitude a)
         (N_aa a) (h a) (d a) m (stdout a).
(** [print(...)]: one more line on standard output. *)
Definition print (a : Agis) (o : output) : Agis :=
  mkAgis (calc_sources a) (real_sources a) (sat a) (k a) (M a)
         (attitude_regularisation_factor a) (verbose a) (updating a)
         (consider_stellar_aberation a) (degree_error a) (double_telescope a)
         (iter_counter a) (N a) (time_dict a) (all_obs_times a) (attitude a)
         (N_aa a) (h a) (d a) (c_update a) (stdout a ++ [o]).

(** [self.att_coeffs] and the like: an attribute that exists only when the
    solver was built with attitude splines. *)
Definition attitude_attr (a : Agis) (attr : string) : result Attitude_state :=
  match attitude a with
  | Some s => Ok s
  | None => Raise (AttributeError attr)
  end.

(** *** Construction *)

(** The loop of [__init__] over the observation times of one source:
    [self.time_dict[t] = source_index].  The dictionary is an association
    list read from the front, so a later assignment to a key hides the
    earlier one. *)
Definition time_dict_source (dict : list (R * nat)) (source_index : nat)
    (times : list R) : list (R * nat) :=
  fold_left (fun dct t => (t, source_index) :: dct) times dict.

Fixpoint time_dict_from (source_index : nat) (sources : list Calc_source)
    (dict : list (R * nat)) : list (R * nat) :=
  match sources with
  | [] => dict
  | cs :: rest =>
      time_dict_from (S source_index) rest
        (time_dict_source dict source_index (obs_times cs))
  end.

Definition dict_get (dict : list (R * nat)) (t : R) : option nat :=
  match find (fun kv => if Req_dec_T (fst kv) t then true else false) dict with
  | Some kv => Some (snd kv)
  | None => None
  end.

Definition Agis_init (sat0 : Satellite) (calc_sources0 : list Calc_source)
    (real_sources0 : list Source) (attitude_splines0 : option (list BSpline))
    (verbose0 : bool) (spline_degree : nat)
    (attitude_regularisation_factor0 : R) (updating0 : string)
    (degree_error0 : R) (double_telescope0 : bool) : Agis :=
  let all_times := np_sort (concat (map obs_times calc_sources0)) in
  let dict := time_dict_from 0 calc_sources0 [] in
  let att :=
    match attitude_splines0 with
    | None => None
    | Some spl =>
        let '(c0, t0, s0) := extract_coeffs_knots_from_splines spl spline_degree in
        Some (mkAttitude_state c0 c0 t0 s0
                (get_basis_Bsplines t0 (nth 0 c0 []) spline_degree all_times))
    end in
  mkAgis calc_sources0 real_sources0 sat0 spline_degree (spline_degree + 1)
         attitude_regularisation_factor0 verbose0 updating0 false
         degree_error0 double_telescope0 0
         match att with
         | Some s => length (nth 0 (att_coeffs s) [])
         | None => 0%nat
         end
         dict all_times att None None None None [].

(** *** Attitude in effect *)

Definition get_attitude_for_source (a : Agis) (source_index : nat) (t : R)
    : result Quaternion :=
  (* [source_index < 0] never holds for an index that counts sources *)
  let deviation := 0 in
  do src <- index (real_sources a) source_index;
  Ok (attitude_from_alpha_delta src (sat a) t deviation).

Definition get_attitude (a : Agis) (t : R) (unit : bool) : result Quaternion :=
  do s <- attitude_attr a "attitude_splines";
  do s_w <- index (attitude_splines s) 0;
  do s_x <- index (attitude_splines s) 1;
  do s_y <- index (attitude_splines s) 2;
  do s_z <- index (attitude_splines s) 3;
  let att := mkQuaternion (bspline_call s_w t) (bspline_call s_x t)
                          (bspline_call s_y t) (bspline_call s_z t) in
  Ok (if unit then quaternion_unit att else att).

(** *** Residual engine *)

Definition get_field_angles (a : Agis) (source_index : nat) (t : R)
    : result (R * R * R * R) :=
  do '(att, attitude_gaia) <-
    (if String.eqb (updating a) "source" then
       do att <- get_attitude_for_source a source_index t; Ok (att, att)
     else if String.eqb (updating a) "scanned source" then
       Ok (func_attitude (sat a) t, func_attitude (sat a) t)
     else if String.eqb (updating a) "attitude" then
       do att <- get_attitude a t true; Ok (att, func_attitude (sat a) t)
     else Raise (ValueError "incorrect value for self.updating"));
  do src <- index (real_sources a) source_index;
  let '(eta_obs, zeta_obs) :=
    observed_field_angles src attitude_gaia (sat a) t (double_telescope a) in
  do cs <- index (calc_sources a) source_index;
  let '(eta_calc, zeta_calc) :=
    calculated_field_angles cs att (sat a) t (double_telescope a) in
  Ok (eta_obs, zeta_obs, eta_calc, zeta_calc).

Definition deviate_field_angles_color_aberration (a : Agis)
    (source_index : nat) (t : R) (angles : R * R * R * R)
    : result (R * R * R * R) :=
  do src <- index (real_sources a) source_index;
  let f_color := func_color src t in
  let m_color := source_mean_color src in
  Ok angles.

Definition compute_R_L (a : Agis) (source_index : nat) (t : R) : result R :=
  do angles <- get_field_angles a source_index t;
  do '(eta_obs, zeta_obs, eta_calc, zeta_calc) <-
    deviate_field_angles_color_aberration a source_index t angles;
  let R_eta := eta_obs - eta_calc in
  let R_zeta := zeta_obs - zeta_calc in
  Ok (R_eta + R_zeta).

(** The inner loop of [error_function] over the times of one source. *)
Definition error_of_source (a : Agis) (source_index : nat) (times : list R)
    (error : R) : result R :=
  foldM (fun err t_L => do R_L <- compute_R_L a source_index t_L;
                        Ok (err + R_L ^ 2))
        error times.

Fixpoint error_from (a : Agis) (source_index : nat)
    (sources : list Calc_source) (error : R) : result R :=
  match sources with
  | [] => Ok error
  | s :: rest =>
      do error' <- error_of_source a source_index (obs_times s) error;
      error_from a (S source_index) rest error'
  end.

Definition error_function (a : Agis) : result R :=
  error_from a 0 (calc_sources a) 0.

(* ------------------------------------------------------------------ *)
(** ** Source-block solver *)

(** A [(5, 3, n)] array is kept as its five [(3, n)] planes, each a list
    over the last axis of vectors along the middle axis, so that
    [arr[i, :, j]] is element [j] of plane [i]. *)
Definition Array3 := list (list Vec).

(** [arr[:, :, j]]: the [5 x 3] array at position [j] of the last axis. *)
Definition slice_last (arr : Array3) (j : nat) : Matrix :=
  map (fun plane => nth j plane []) arr.

Definition du_tilde_ds (a : Agis) (source_index : nat) : result Array3 :=
  do calc_source <- index (calc_sources a) source_index;
  do alpha <- index (s_params calc_source) 0;
  do delta <- index (s_params calc_source) 1;
  let '(p, q, r) := compute_pqr alpha delta in
  let at_time (t_l : R) : Matrix :=
    let b_G := ephemeris_bcrs (sat a) t_l in
    let t_B := t_l in
    let tau := t_B - t_ep in
    let du_dalpha := p in
    let du_ddelta := q in
    let du_dparallax := compute_du_dparallax r b_G in
    let du_dmualpha := map (fun x => x * tau) p in
    let du_dmudelta := map (fun x => x * tau) q in
    [du_dalpha; du_ddelta; du_dparallax; du_dmualpha; du_dmudelta] in
  Ok (map (fun i => map (fun t_l => nth i (at_time t_l) [])
                        (obs_times calc_source))
          (seq 0 5)).

(** The attitude that the source block uses at time [t_L]; [msg] is the
    message of the error raised in any other updating mode. *)
Definition source_block_attitude (a : Agis) (source_index : nat) (t_L : R)
    (msg : string) : result Quaternion :=
  if String.eqb (updating a) "source" then
    get_attitude_for_source a source_index t_L
  else if String.eqb (updating a) "scanned source" then
    Ok (func_attitude (sat a) t_L)
  else Raise (ValueError msg).

Definition C_du_ds_to_S_du_ds (a : Agis) (source_index : nat)
    (C_du_ds : Array3) : result Array3 :=
  do calc_source <- index (calc_sources a) source_index;
  mapM (fun plane =>
          mapM (fun '(t_L, v) =>
                  do att <- source_block_attitude a source_index t_L
                              "Not yet implemented for this case";
                  Ok (lmn_to_xyz att v))
               (zip (obs_times calc_source) plane))
       C_du_ds.

Definition du_ds (a : Agis) (source_index : nat) : result Array3 :=
  if consider_stellar_aberation a then
    Raise (ValueError "Stellar aberation not yet implemented")
  else
    do calc_source <- index (calc_sources a) source_index;
    let coeff := 1 in
    do tilde <- du_tilde_ds a source_index;
    let C_du_ds := map (map (vec_scale coeff)) tilde in
    C_du_ds_to_S_du_ds a source_index C_du_ds.

(** One row of [dR_ds_AL + dR_ds_AC].  The fourth argument of
    [calculated_field_angles] is the loop counter [i], as in the source. *)
Definition dR_ds_row (a : Agis) (source_index : nat) (calc_source : Calc_source)
    (S_du_ds : Array3) (i : nat) (t_L : R) : result Vec :=
  do att <- source_block_attitude a source_index t_L
              "not yet implemented for this kind of updating";
  let '(phi0, zeta0) :=
    calculated_field_angles calc_source att (sat a) (INR i) false in
  let '(phi, zeta) :=
    compute_deviated_angles_color_aberration phi0 zeta0
      (mean_color calc_source) (degree_error a) in
  let '(m, n, u) := compute_mnu phi zeta in
  let du := slice_last S_du_ds i in
  let dR_ds_AL := map (fun row => dot (map Ropp m) row * sec zeta) du in
  let dR_ds_AC := map (fun row => dot (map Ropp n) row) du in
  Ok (zip_with Rplus dR_ds_AL dR_ds_AC).

Definition dR_ds (a : Agis) (source_index : nat) : result Matrix :=
  do calc_source <- index (calc_sources a) source_index;
  do S_du_ds <- du_ds a source_index;
  mapM (fun '(i, t_L) => dR_ds_row a source_index calc_source S_du_ds i t_L)
       (zip (seq 0 (length (obs_times calc_source))) (obs_times calc_source)).

Definition block_S_error_rate_matrix (a : Agis) (source_index : nat)
    : result Matrix :=
  do m <- dR_ds a source_index; Ok (mat_neg m).

Definition compute_h (a : Agis) (source_index : nat) : result Matrix :=
  do calc_source <- index (calc_sources a) source_index;
  mapM (fun t_L => do R_L <- compute_R_L a source_index t_L; Ok [R_L])
       (obs_times calc_source).

(** [params[:] += d] on one-dimensional arrays, with numpy's broadcasting
    of a one-element right-hand side. *)
Definition iadd (params dv : Vec) : result Vec :=
  if Nat.eqb (length dv) (length params) then Ok (zip_with Rplus params dv)
  else match dv with
       | [x] => Ok (map (fun p => p + x) params)
       | _ => Raise (ValueError "operands could not be broadcast together")
       end.

(** The normal equations of one source: [(LHS, RHS)]. *)
Definition block_S_normal_equations (a : Agis) (source_index : nat)
    : result (Matrix * Matrix) :=
  do calc_source <- index (calc_sources a) source_index;
  do A <- block_S_error_rate_matrix a source_index;
  let n := length (obs_times calc_source) in
  let W := eye n in
  do h_ <- compute_h a source_index;
  let LHS := matmul 5 (matmul n (transpose 5 A) W) A in
  let RHS := matmul 1 (matmul n (transpose 5 A) W) h_ in
  Ok (LHS, RHS).

Definition update_block_S_i (a : Agis) (source_index : nat)
    : result unit * Agis :=
  match block_S_normal_equations a source_index with
  | Raise e => (Raise e, a)
  | Ok (LHS, RHS) =>
      match np_linalg_solve LHS RHS with
      | None => (Raise LinAlgError, a)
      | Some d2 =>
          let dv := concat d2 in
          match index (calc_sources a) source_index with
          | Raise e => (Raise e, a)
          | Ok calc_source =>
              match iadd (s_params calc_source) dv with
              | Raise e => (Raise e, a)
              | Ok p =>
                  (Ok tt,
                   set_calc_sources a
                     (<[source_index := set_s_params calc_source p]>
                        (calc_sources a)))
              end
          end
      end
  end.

(** The body of the loop of [update_S_block] for source [i]. *)
Definition update_S_block_step (a : Agis) (i : nat) : result unit * Agis :=
  match index (calc_sources a) i with
  | Raise e => (Raise e, a)
  | Ok calc_source =>
      let cs1 := set_s_old calc_source
                   (s_old calc_source ++ [ParamsCopy (s_params calc_source)]) in
      let a1 := set_calc_sources a (<[i := cs1]> (calc_sources a)) in
      match error_function a1 with
      | Raise e => (Raise e, a1)
      | Ok err =>
          let cs2 := set_errors cs1 (errors cs1 ++ [err]) in
          let a2 := set_calc_sources a1 (<[i := cs2]> (calc_sources a1)) in
          update_block_S_i a2 i
      end
  end.

(** A [for] loop over indices whose body mutates the solver and may raise. *)
Fixpoint for_each (body : Agis -> nat -> result unit * Agis) (a : Agis)
    (indices : list nat) : result unit * Agis :=
  match indices with
  | [] => (Ok tt, a)
  | i :: rest =>
      match body a i with
      | (Ok _, a') => for_each body a' rest
      | (Raise e, a') => (Raise e, a')
      end
  end.

Definition update_S_block (a : Agis) : result unit * Agis :=
  for_each update_S_block_step a (seq 0 (length (calc_sources a))).

(* ------------------------------------------------------------------ *)
(** ** Attitude-block solver *)

(** [arr.shape[1]] of a two-dimensional array. *)
Definition ncols (m : Matrix) : nat := length (nth 0 m []).

(** [arr[i, j]] with both indices checked. *)
Definition index2 (m : Matrix) (i j : nat) : result R :=
  do row <- index m i; index row j.

(** The loop of [actualise_splines] from position [i] on, [todo] positions
    left: [self.attitude_splines[i] = BSpline(knots, coeffs[i], k=k)]. *)
Fixpoint actualise_from (knots : list R) (coeffs : Matrix) (degree : nat)
    (splines : list BSpline) (i todo : nat) : result unit * list BSpline :=
  match todo with
  | O => (Ok tt, splines)
  | S todo' =>
      match index coeffs i with
      | Raise e => (Raise e, splines)
      | Ok row =>
          actualise_from knots coeffs degree
            (<[i := mkBSpline knots row degree]> splines) (S i) todo'
      end
  end.

Definition actualise_splines (a : Agis) : result unit * Agis :=
  match attitude_attr a "attitude_splines" with
  | Raise e => (Raise e, a)
  | Ok s =>
      let '(r, spl) :=
        actualise_from (att_knots s) (att_coeffs s) (k a) (attitude_splines s)
                       0 (length (attitude_splines s)) in
      (r, set_attitude a
            (Some (mkAttitude_state (c s) (att_coeffs s) (att_knots s) spl
                                    (att_bases s))))
  end.

Definition get_source_index (a : Agis) (t : R) : result nat :=
  match dict_get (time_dict a) t with
  | Some source_index => Ok source_index
  | None => Raise (ValueError "time not in time_dict")
  end.

(** What the loop body of [compute_attitude_RHS_n] adds to [rhs] at [t_L]. *)
Definition attitude_RHS_n_term (a : Agis) (n_index : nat) (t_L : R)
    : result Col4 :=
  do source_index <- get_source_index a t_L;
  do calc_source <- index (calc_sources a) source_index;
  do att <- get_attitude a t_L false;
  do s <- attitude_attr a "att_knots";
  let left_index := get_left_index (att_knots s) t_L (M a) in
  do obs_time_index <- list_index t_L (all_obs_times a);
  let coeff_basis_sum :=
    compute_coeff_basis_sum (att_coeffs s) (att_bases s) left_index (M a)
                            obs_time_index in
  let D_L := compute_attitude_deviation coeff_basis_sum in
  let dDL_da_n :=
    compute_DL_da_i coeff_basis_sum (att_bases s) obs_time_index n_index in
  let regularisation_part :=
    col4_scale_r
      (col4_scale_l (attitude_regularisation_factor a ^ 2) dDL_da_n) D_L in
  let dR_dq := compute_dR_dq calc_source (sat a) att t_L in
  do basis_n <- index2 (att_bases s) n_index obs_time_index;
  let dR_da_n := dR_da_i dR_dq basis_n in
  do R_L <- compute_R_L a source_index t_L;
  Ok (col4_add (col4_scale_r dR_da_n R_L) regularisation_part).

Definition compute_attitude_RHS_n (a : Agis) (n_index : nat) : result Col4 :=
  do s <- attitude_attr a "att_knots";
  let time_support_spline_n :=
    get_times_in_knot_interval (all_obs_times a) (att_knots s) n_index (M a) in
  do rhs <- foldM (fun rhs t_L => do term <- attitude_RHS_n_term a n_index t_L;
                                  Ok (col4_add rhs term))
                  col4_zero time_support_spline_n;
  Ok (col4_neg rhs).

(** What the loop body of [compute_Naa_mn] adds to [Naa_mn] at [t_L]. *)
Definition Naa_mn_term (a : Agis) (m_index n_index : nat) (t_L : R)
    : result Mat4 :=
  do source_index <- get_source_index a t_L;
  do calc_source <- index (calc_sources a) source_index;
  do att <- get_attitude a t_L false;
  do s <- attitude_attr a "att_knots";
  let left_index := get_left_index (att_knots s) t_L (M a) in
  do obs_time_index <- list_index t_L (all_obs_times a);
  let coeff_basis_sum :=
    compute_coeff_basis_sum (att_coeffs s) (att_bases s) left_index (M a)
                            obs_time_index in
  let dDL_da_n :=
    compute_DL_da_i coeff_basis_sum (att_bases s) obs_time_index n_index in
  let dDL_da_m :=
    compute_DL_da_i coeff_basis_sum (att_bases s) obs_time_index m_index in
  let regularisation_part :=
    outer (col4_scale_l (attitude_regularisation_factor a ^ 2) dDL_da_n)
          dDL_da_m in
  let dR_dq := compute_dR_dq calc_source (sat a) att t_L in
  do basis_m <- index2 (att_bases s) m_index obs_time_index;
  let dR_da_m := dR_da_i dR_dq basis_m in
  do basis_n <- index2 (att_bases s) n_index obs_time_index;
  let dR_da_n := dR_da_i dR_dq basis_n in
  Ok (mat4_add regularisation_part (outer dR_da_n dR_da_m)).

(** The observation times over which [compute_Naa_mn] sums. *)
Definition time_support_spline_mn (a : Agis) (s : Attitude_state)
    (m_index n_index : nat) : list R :=
  let time_support_spline_m :=
    get_times_in_knot_interval (all_obs_times a) (att_knots s) m_index (M a) in
  let time_support_spline_n :=
    get_times_in_knot_interval (all_obs_times a) (att_knots s) n_index (M a) in
  np_sort (get_lists_intersection time_support_spline_m time_support_spline_n).

Definition compute_Naa_mn (a : Agis) (m_index n_index : nat) : result Mat4 :=
  do s <- attitude_attr a "att_knots";
  foldM (fun Naa_mn t_L => do term <- Naa_mn_term a m_index n_index t_L;
                           Ok (mat4_add Naa_mn term))
        mat4_zero (time_support_spline_mn a s m_index n_index).

(** The four rows [N_aa[n*4:n*4+4, :]], block [m] of which is
    [compute_Naa_mn(m, n)]. *)
Definition attitude_LHS_rows (a : Agis) (N_aa_dim n : nat)
    : result (list (list R)) :=
  do blocks <- mapM (fun m => compute_Naa_mn a m n) (seq 0 N_aa_dim);
  Ok (map (fun r => concat (map (fun b => col4_list (nth r (mat4_rows b) col4_zero))
                                blocks))
          (seq 0 4)).

(** The array that [compute_attitude_LHS] assembles. *)
Definition attitude_LHS (a : Agis) : result Matrix :=
  do s <- attitude_attr a "att_coeffs";
  let N_aa_dim := ncols (att_coeffs s) in
  do rows <- mapM (attitude_LHS_rows a N_aa_dim) (seq 0 N_aa_dim);
  Ok (concat rows).

Definition compute_attitude_LHS (a : Agis) : result Matrix * Agis :=
  match attitude_attr a "att_coeffs" with
  | Raise e => (Raise e, a)
  | Ok s =>
      let a1 := print a (PrintNaaDim (ncols (att_coeffs s))) in
      match attitude_LHS a1 with
      | Raise e => (Raise e, a1)
      | Ok m => (Ok m, set_N_aa a1 (Some m))
      end
  end.

(** The [(4N, 1)] array that [compute_attitude_RHS] assembles. *)
Definition attitude_RHS (a : Agis) : result Matrix :=
  do s <- attitude_attr a "att_coeffs";
  let N_aa_dim := ncols (att_coeffs s) in
  do cols <- mapM (compute_attitude_RHS_n a) (seq 0 N_aa_dim);
  Ok (concat (map (fun col => map (fun x => [x]) (col4_list col)) cols)).

Definition compute_attitude_RHS (a : Agis) : result Matrix * Agis :=
  match attitude_RHS a with
  | Raise e => (Raise e, a)
  | Ok m => (Ok m, set_h a (Some m))
  end.

(** [c_update[j, i] = d[i*4 + j]] where [c_update = d.reshape(shape)] is a
    view of [d]: both names address the one buffer [buf] of the solution, and
    entry [(j, i)] of a [(rows, cols)] view is the buffer's position
    [j * cols + i]. *)
Definition view_assign (rows cols : nat) (buf : Vec) (i j : nat) : result Vec :=
  do x <- index buf (i * 4 + j);
  if Nat.ltb j rows then Ok (<[(j * cols + i)%nat := x]> buf) else Raise IndexError.

(** The layout loop of [update_A_block] on the shared buffer. *)
Definition layout_loop (rows cols : nat) (buf : Vec) : result Vec :=
  foldM (fun b i =>
           do b0 <- view_assign rows cols b i 0;
           do b1 <- view_assign rows cols b0 i 1;
           do b2 <- view_assign rows cols b1 i 2;
           view_assign rows cols b2 i 3)
        buf (seq 0 cols).

(** Reading a buffer through a [(rows, cols)] view. *)
Definition reshape (rows cols : nat) (buf : Vec) : Matrix :=
  map (fun j => take cols (drop (j * cols) buf)) (seq 0 rows).

Definition update_A_block (a : Agis) : result unit * Agis :=
  match compute_attitude_LHS a with
  | (Raise e, a1) => (Raise e, a1)
  | (Ok LHS, a1) =>
  match compute_attitude_RHS a1 with
  | (Raise e, a2) => (Raise e, a2)
  | (Ok RHS, a2) =>
  match np_linalg_solve LHS RHS with
  | None => (Raise LinAlgError, a2)
  | Some d2 =>
  let buf := concat d2 in
  let a3 := set_d a2 (Some buf) in
  match attitude_attr a3 "att_coeffs" with
  | Raise e => (Raise e, a3)
  | Ok s =>
  let rows := length (att_coeffs s) in
  let cols := ncols (att_coeffs s) in
  if negb (Nat.eqb (length buf) (rows * cols)) then
    (Raise (ValueError "cannot reshape array"), a3)
  else
  match layout_loop rows cols buf with
  | Raise e => (Raise e, a3)
  | Ok buf' =>
  let cu := reshape rows cols buf' in
  let a4 := set_c_update (set_d a3 (Some buf')) (Some cu) in
  let s' := mkAttitude_state (c s) (mat_add (att_coeffs s) cu) (att_knots s)
                             (attitude_splines s) (att_bases s) in
  actualise_splines (set_attitude a4 (Some s'))
  end end end end end.

(* ------------------------------------------------------------------ *)
(** ** Driver *)

(** The body of the loop of [iterate]. *)
Definition iterate_pass (a : Agis) : result unit * Agis :=
  let a1 := set_iter_counter a (iter_counter a + 1) in
  let a2 := print a1 (PrintIteration (iter_counter a1)) in
  let before : result unit * Agis :=
    if verbose a2 then
      match error_function a2 with
      | Raise e => (Raise e, a2)
      | Ok err => (Ok tt, print a2 (PrintErrorBefore err))
      end
    else (Ok tt, a2) in
  match before with
  | (Raise e, a3) => (Raise e, a3)
  | (Ok _, a3) =>
  let block : result unit * Agis :=
    if String.eqb (updating a3) "source"
       || String.eqb (updating a3) "scanned source" then
      update_S_block a3
    else if String.eqb (updating a3) "attitude" then
      match update_A_block a3 with
      | (Raise e, a4) => (Raise e, a4)
      | (Ok _, a4) =>
          match error_between_func_attitudes (all_obs_times a4)
                  (func_attitude (sat a4)) (fun t => get_attitude a4 t true) with
          | Raise e => (Raise e, a4)
          | Ok err => (Ok tt, print a4 (PrintAttitudeError err))
          end
      end
    else (Ok tt, a3) in
  match block with
  | (Raise e, a5) => (Raise e, a5)
  | (Ok _, a5) =>
      match error_function a5 with
      | Raise e => (Raise e, a5)
      | Ok err => (Ok tt, print a5 (PrintErrorAfter err))
      end
  end end.

(** [iterate(num)]: [for i in range(num)]. *)
Fixpoint iterate (a : Agis) (num : nat) : result unit * Agis :=
  match num with
  | O => (Ok tt, a)
  | S num' =>
      match iterate_pass a with
      | (Raise e, a') => (Raise e, a')
      | (Ok _, a') => iterate a' num'
      end
  end.

End Solver.

Arguments Agis {Ext}.
Arguments mkAgis {Ext}.

(* ------------------------------------------------------------------ *)
(** ** Methods outside the iteration loop *)

(** [np.linalg.norm] of a one-dimensional array. *)
Definition np_linalg_norm (v : Vec) : R := sqrt (Rsum (map (fun x => x ^ 2) v)).

(** [seq[i::4]] for [i] in [0..3]: the elements at the positions that are
    [i] modulo 4. *)
Definition slice4 {A} (i : nat) (l : list A) : list A :=
  flat_map (fun px => if Nat.eqb (fst px mod 4) i then [snd px] else [])
           (zip (seq 0 (length l)) l).

(** What the list [calc_source.s_old] reads as: the entry that the
    constructor stored is the parameter array itself, and shows its current
    content. *)
Definition read_s_old (cs : Calc_source) : list Vec :=
  map (fun e => match e with
                | SharedParams => s_params cs
                | ParamsCopy p => p
                end)
      (s_old cs).

Section OtherMethods.
Context `{Ext : Externals}.

(** [Calc_source.__init__], the parameters and the radial proper motion
    being arrays and numbers when they are given. *)
Definition Calc_source_init (name0 : string) (obs_times0 : list R)
    (source_params : Vec) (mu_radial0 : R) (mean_color0 : R)
    (source : option Source) : result Calc_source :=
  do '(name1, source_params1, mu_radial1, mean_color1) <-
    match source with
    | Some src =>
        let name1 := ("Calc_" ++ source_name src)%string in
        let params := get_parameters src in
        let source_params1 := removelast params in
        do mu_radial1 <- match last params with
                         | Some x => Ok x
                         | None => Raise IndexError
                         end;
        Ok (name1, source_params1, mu_radial1, source_mean_color src)
    | None => Ok (name0, source_params, mu_radial0, mean_color0)
    end;
  Ok (mkCalc_source name1 obs_times0 source_params1 mu_radial1
                    [SharedParams] [] mean_color1).

(** [Calc_source.set_params]. *)
Definition set_params (cs : Calc_source) (params : Vec) : Calc_source :=
  set_s_old (set_s_params cs params) [SharedParams].

Definition reset_iterations (a : Agis) : Agis :=
  let a1 := print a PrintNotResetting in
  let a2 := set_iter_counter a1 0 in
  set_calc_sources a2
    (map (fun calc_source => set_errors (set_s_old calc_source []) [])
         (calc_sources a2)).

(** [arr[:, i] /= np.linalg.norm(arr[:, i])].  A zero norm raises nothing in
    numpy; the quotient is then whatever the division by zero gives. *)
Definition normalize_column (coeffs : Matrix) (i : nat) : result Matrix :=
  do col <- mapM (fun row => index row i) coeffs;
  let nrm := np_linalg_norm col in
  Ok (map (fun row => <[i := nth i row 0 / nrm]> row) coeffs).

(** The body of the loop of [normalize_coefficients]. *)
Definition normalize_coefficients_step (a : Agis) (i : nat)
    : result unit * Agis :=
  match attitude_attr a "att_coeffs" with
  | Raise e => (Raise e, a)
  | Ok s =>
      match normalize_column (att_coeffs s) i with
      | Raise e => (Raise e, a)
      | Ok coeffs =>
          (Ok tt,
           set_attitude a
             (Some (mkAttitude_state (c s) coeffs (att_knots s)
                                     (attitude_splines s) (att_bases s))))
      end
  end.

Definition normalize_coefficients (a : Agis) : result unit * Agis :=
  for_each normalize_coefficients_step a (seq 0 (N a)).

(** The body of the loop of [update_A_block_bis] for component [i]. *)
Definition update_A_block_bis_step (LHS RHS : Matrix) (a : Agis) (i : nat)
    : result unit * Agis :=
  match np_linalg_solve (map (slice4 i) (slice4 i LHS)) (slice4 i RHS) with
  | None => (Raise LinAlgError, a)
  | Some d2 =>
      let c_update0 := concat d2 in
      match attitude_attr a "att_coeffs" with
      | Raise e => (Raise e, a)
      | Ok s =>
          match index (att_coeffs s) i with
          | Raise e => (Raise e, a)
          | Ok row =>
              match iadd row c_update0 with
              | Raise e => (Raise e, a)
              | Ok row' =>
                  (Ok tt,
                   set_attitude a
                     (Some (mkAttitude_state (c s)
                              (<[i := row']> (att_coeffs s)) (att_knots s)
                              (attitude_splines s) (att_bases s))))
              end
          end
      end
  end.

Definition update_A_block_bis (a : Agis) : result unit * Agis :=
  match compute_attitude_LHS a with
  | (Raise e, a1) => (Raise e, a1)
  | (Ok LHS, a1) =>
  match compute_attitude_RHS a1 with
  | (Raise e, a2) => (Raise e, a2)
  | (Ok RHS, a2) =>
  match for_each (update_A_block_bis_step LHS RHS) a2 (seq 0 4) with
  | (Raise e, a3) => (Raise e, a3)
  | (Ok _, a3) => actualise_splines a3
  end end end.

(** [band[row0:row0+4, col0:col0+4] = b], for a block that lies inside the
    array. *)
Definition assign_block (band : Matrix) (row0 col0 : nat) (b : Mat4) : Matrix :=
  fold_left
    (fun bnd r =>
       match bnd !! (row0 + r)%nat with
       | None => bnd
       | Some row =>
           <[(row0 + r)%nat :=
               fold_left (fun rw c0 =>
                            <[(col0 + c0)%nat :=
                                nth c0 (col4_list (nth r (mat4_rows b) col4_zero)) 0]>
                              rw)
                         (seq 0 4) row]> bnd
       end)
    (seq 0 4) band.

Definition attitude_LHS_band (a : Agis) : result Matrix :=
  let N_aa_band := repeat (repeat 0 16) (N a * 4) in
  foldM (fun band n =>
           let stop := Nat.min (n + 4) (N a * 4) in
           foldM (fun band0 im =>
                    do b <- compute_Naa_mn a (snd im) n;
                    Ok (assign_block band0 (n * 4) (fst im) b))
                 band (zip (seq 0 (stop - n)) (seq n (stop - n))))
        N_aa_band (seq 0 (N a)).

End OtherMethods.

(* ------------------------------------------------------------------ *)
(** ** A small concrete setting

    Collaborators for running the solver on explicit inputs: a satellite
    whose attitude is the identity quaternion at all times, sources whose
    field angles are linear in time, splines that are constant (their first
    coefficient), every observation time in every knot interval, and basis
    functions that are 1 on four consecutive observations each.  [solve] is
    the linear solver in use. *)

Definition identity_quaternion : Quaternion := mkQuaternion 1 0 0 0.

Definition quaternion_col (q : Quaternion) : Col4 :=
  mkCol4 (q_w q) (q_x q) (q_y q) (q_z q).

(** A residual gradient that points along a different axis at each of the
    times 0, 1, 2, 3 (the Lagrange polynomials of these four nodes). *)
Definition toy_dR_dq (t : R) : Col4 :=
  mkCol4 (- ((t - 1) * (t - 2) * (t - 3)) / 6)
         (t * (t - 2) * (t - 3) / 2)
         (- (t * (t - 1) * (t - 3)) / 2)
         (t * (t - 1) * (t - 2) / 6).

(** Field angles that move linearly in time: position plus proper motion. *)
Definition toy_field_angles (params : Vec) (t : R) : R * R :=
  (nth 0 params 0 + nth 3 params 0 * t, nth 1 params 0 + nth 4 params 0 * t).

Definition toy_externals (solve : Matrix -> Matrix -> option Matrix)
    : Externals :=
  {| Source := Vec;
     Satellite := unit;
     rad_per_deg := PI / 180;
     t_ep := 0;
     source_name := fun _ => "star"%string;
     get_parameters := fun src => src;
     source_mean_color := fun _ => 0;
     func_color := fun _ _ => 0;
     func_attitude := fun _ _ => identity_quaternion;
     ephemeris_bcrs := fun _ _ => [0; 0; 0];
     compute_pqr := fun _ _ => ([1; 0; 0], [0; 1; 0], [0; 0; 1]);
     lmn_to_xyz := fun _ v => v;
     sec := fun _ => 1;
     observed_field_angles := fun src _ _ t _ => toy_field_angles src t;
     calculated_field_angles :=
       fun cs _ _ t _ => toy_field_angles (s_params cs ++ [mu_radial cs]) t;
     attitude_from_alpha_delta := fun _ _ _ _ => identity_quaternion;
     compute_du_dparallax := fun _ _ => [0; 0; 0];
     compute_deviated_angles_color_aberration := fun phi zeta _ _ => (phi, zeta);
     compute_mnu := fun _ _ => ([1; 0; 0], [0; 1; 0], [0; 0; 1]);
     error_between_func_attitudes := fun _ _ _ => Ok 0;
     extract_coeffs_knots_from_splines :=
       fun spl _ => (map spl_c spl, match spl with
                                    | s :: _ => spl_t s
                                    | [] => []
                                    end, spl);
     get_basis_Bsplines :=
       fun _ c0 _ times =>
         map (fun n => map (fun idx => if Nat.eqb (idx / 4) n then 1 else 0)
                           (seq 0 (length times)))
             (seq 0 (length c0));
     get_times_in_knot_interval := fun times _ _ _ => times;
     get_left_index := fun _ _ _ => 0%nat;
     compute_coeff_basis_sum := fun _ _ _ _ _ => [];
     compute_attitude_deviation := fun _ => 1;
     compute_DL_da_i := fun _ _ _ _ => mkCol4 1 0 0 0;
     compute_dR_dq := fun cs _ _ t => toy_dR_dq (t - mean_color cs);
     dR_da_i := fun g b => col4_scale_r g b;
     bspline_call := fun spl _ => nth 0 (spl_c spl) 0;
     np_linalg_solve := solve |}.

(** A solver that reports every system as singular. *)
Definition solve_singular : Matrix -> Matrix -> option Matrix :=
  fun _ _ => None.

(** A solver for systems whose matrix is the identity. *)
Definition solve_identity : Matrix -> Matrix -> option Matrix :=
  fun _ RHS => Some RHS.

Definition toy_source (nm : string) (times : list R) (params : Vec)
    : Calc_source :=
  mkCalc_source nm times params 0 [SharedParams] [] 0.

(** A solver that answers with the first of the candidate solutions [cands]
    that satisfies the system, and reports a singular matrix otherwise. *)
#[global] Instance R_eq_dec : EqDecision R := Req_dec_T.

Definition matrix_eqb (x y : Matrix) : bool := bool_decide (x = y).

Definition solve_checked (cands : list Matrix) : Matrix -> Matrix -> option Matrix :=
  fun LHS RHS => find (fun cand => matrix_eqb (matmul 1 LHS cand) RHS) cands.

(** Two stars observed once each, at time 1, in mode "scanned source"; the
    calculated parameters start at zero, the reference sources have field
    angles [(1, 0)] and [(0, 2)]. *)
Definition two_star_candidates : list Matrix :=
  [ [[1]; [0]; [0]; [0]; [0]]; [[2]; [0]; [0]; [0]; [0]] ].

Definition two_star : @Agis (toy_externals (solve_checked two_star_candidates)) :=
  @Agis_init (toy_externals (solve_checked two_star_candidates)) tt
     [toy_source "a" [1] [0; 0; 0; 0; 0];
      toy_source "b" [1] [0; 0; 0; 0; 0]]
     [[1; 0; 0; 0; 0; 0]; [0; 2; 0; 0; 0; 0]]
     None false 3 0 "scanned source" 0 false.

Lemma solve_checked_first (cand : Matrix) (cands : list Matrix)
    (LHS RHS : Matrix) :
  matmul 1 LHS cand = RHS -> solve_checked (cand :: cands) LHS RHS = Some cand.
Proof.
  intros H. unfold solve_checked. simpl. unfold matrix_eqb.
  rewrite bool_decide_eq_true_2 by exact H. reflexivity.
Qed.

Lemma solve_checked_skip (cand : Matrix) (cands : list Matrix)
    (LHS RHS : Matrix) :
  matmul 1 LHS cand <> RHS ->
  solve_checked (cand :: cands) LHS RHS = solve_checked cands LHS RHS.
Proof.
  intros H. unfold solve_checked. simpl. unfold matrix_eqb.
  rewrite bool_decide_eq_false_2 by exact H. reflexivity.
Qed.

(** What [solve_checked] returns solves the system. *)
Lemma solve_checked_sound (cands : list Matrix) (LHS RHS x : Matrix) :
  solve_checked cands LHS RHS = Some x -> matmul 1 LHS x = RHS.
Proof.
  unfold solve_checked. intros H. apply find_some in H. destruct H as [_ H].
  unfold matrix_eqb in H. apply bool_decide_eq_true_1 in H. exact H.
Qed.

Ltac run_solver :=
  cbn [np_linalg_solve toy_externals]; unfold two_star_candidates.

(** One star observed at times 0, 1, 2, 3 in mode "attitude", with one knot
    span: the attitude spline is the constant quaternion [(2, 0, 0, 0)], and
    the regularisation factor is [lambda]. *)
Definition att_star_candidates : list Matrix :=
  [ [[-1]; [-1]; [-1]; [-1]] ].

Definition att_star (lambda : R)
    : @Agis (toy_externals (solve_checked att_star_candidates)) :=
  @Agis_init (toy_externals (solve_checked att_star_candidates)) tt
     [toy_source "a" [0; 1; 2; 3] [0; 0; 0; 0; 0]]
     [[1; 0; 0; 0; 0; 0]]
     (Some [mkBSpline [0; 0; 0; 0; 3; 3; 3; 3] [2] 3;
            mkBSpline [0; 0; 0; 0; 3; 3; 3; 3] [0] 3;
            mkBSpline [0; 0; 0; 0; 3; 3; 3; 3] [0] 3;
            mkBSpline [0; 0; 0; 0; 3; 3; 3; 3] [0] 3])
     false 3 lambda "attitude" 0 false.

(** One star observed once, and a solver that finds its normal equations
    singular (one observation gives a matrix of rank one). *)
Definition one_star_singular : @Agis (toy_externals solve_singular) :=
  @Agis_init (toy_externals solve_singular) tt
     [toy_source "a" [1] [0; 0; 0; 0; 0]] [[1; 0; 0; 0; 0; 0]]
     None false 3 0 "scanned source" 0 false.

(* ================================================================== *)
(** * Properties *)

(** ** Generic facts about membership, outcomes and loops *)

Lemma Rmem_In (t : R) (l : list R) : Rmem t l = true <-> In t l.
Proof.
  unfold Rmem. rewrite existsb_exists. split.
  - intros [u [Hu Heq]]. destruct (Req_dec_T t u); [subst; exact Hu | discriminate].
  - intros Hin. exists t. split; [exact Hin|].
    destruct (Req_dec_T t t); [reflexivity | contradiction].
Qed.

Lemma Rmem_not_In (t : R) (l : list R) : Rmem t l = false <-> ~ In t l.
Proof.
  rewrite <- Rmem_In. destruct (Rmem t l); split; intros H; try reflexivity;
    try discriminate; try (intros H'; discriminate).
  exfalso. apply H. reflexivity.
Qed.

Section TimeIndex.
Context `{Ext : Externals}.

(** The largest position in [sources] of a source observed at [t]. *)
Fixpoint owner (t : R) (sources : list Calc_source) : option nat :=
  match sources with
  | [] => None
  | cs :: rest =>
      match owner t rest with
      | Some j => Some (S j)
      | None => if Rmem t (obs_times cs) then Some O else None
      end
  end.

Lemma dict_get_cons (dict : list (R * nat)) (u t : R) (i : nat) :
  dict_get ((u, i) :: dict) t
  = if Req_dec_T u t then Some i else dict_get dict t.
Proof.
  unfold dict_get. simpl. destruct (Req_dec_T u t); reflexivity.
Qed.

Lemma dict_get_time_dict_source (times : list R) :
  forall (dict : list (R * nat)) (i : nat) (t : R),
    dict_get (time_dict_source dict i times) t
    = if Rmem t times then Some i else dict_get dict t.
Proof.
  induction times as [|u times IH]; intros dict i t.
  - reflexivity.
  - unfold time_dict_source in *. simpl fold_left. rewrite IH.
    rewrite dict_get_cons. simpl Rmem.
    destruct (Req_dec_T t u) as [->|Hne].
    + destruct (Req_dec_T u u); [|contradiction].
      simpl. destruct (Rmem u times); reflexivity.
    + destruct (Req_dec_T u t); [subst; contradiction|].
      simpl. reflexivity.
Qed.

Lemma dict_get_time_dict_from (sources : list Calc_source) :
  forall (i0 : nat) (dict : list (R * nat)) (t : R),
    dict_get (time_dict_from i0 sources dict) t
    = match owner t sources with
      | Some j => Some (i0 + j)%nat
      | None => dict_get dict t
      end.
Proof.
  induction sources as [|cs rest IH]; intros i0 dict t.
  - reflexivity.
  - simpl. rewrite IH. destruct (owner t rest) as [j|].
    + f_equal. lia.
    + rewrite dict_get_time_dict_source.
      destruct (Rmem t (obs_times cs)); [f_equal; lia | reflexivity].
Qed.

Lemma owner_Some (t : R) (sources : list Calc_source) (j : nat) :
  owner t sources = Some j <->
  (exists cs, sources !! j = Some cs /\ In t (obs_times cs)) /\
  (forall j' cs', (j < j')%nat -> sources !! j' = Some cs' ->
                  ~ In t (obs_times cs')).
Proof.
  revert j. induction sources as [|cs rest IH]; intros j.
  - simpl. split; [discriminate|]. intros [[cs [H _]] _]. discriminate.
  - simpl. destruct (owner t rest) as [j0|] eqn:Ho.
    + split.
      * intros [= <-]. destruct (proj1 (IH j0) eq_refl) as [[cs0 [Hl Hin]] Hlast].
        split; [exists cs0; auto|].
        intros [|j'] cs' Hlt Hl'; [lia|]. simpl in Hl'.
        apply (Hlast j' cs'); [lia | exact Hl'].
      * intros [[cs0 [Hl Hin]] Hlast]. destruct j as [|j].
        -- exfalso. destruct (proj1 (IH j0) eq_refl) as [[cs1 [Hl1 Hin1]] _].
           apply (Hlast (S j0) cs1); [lia | exact Hl1 | exact Hin1].
        -- assert (Hj : Some j0 = Some j).
           { apply IH. split; [exists cs0; auto|].
             intros j' cs' Hlt Hl'. apply (Hlast (S j') cs'); [lia | exact Hl']. }
           injection Hj as ->. reflexivity.
    + assert (Hnone : forall j' cs', rest !! j' = Some cs' -> ~ In t (obs_times cs')).
      { intros j' cs' Hl' Hin.
        assert (Hex : exists j'', owner t (rest) = Some j'').
        { clear IH Ho. revert j' Hl'.
          induction rest as [|c0 rest IHr]; intros j' Hl'; [discriminate|].
          simpl. destruct (owner t rest) as [j1|] eqn:E; [eauto|].
          destruct j' as [|j'].
          - simpl in Hl'. injection Hl' as ->.
            apply Rmem_In in Hin. rewrite Hin. eauto.
          - simpl in Hl'. destruct (IHr j' Hl') as [? ?]. discriminate. }
        destruct Hex as [j'' Hj'']. congruence. }
      destruct (Rmem t (obs_times cs)) eqn:Hm.
      * split.
        -- intros [= <-]. split.
           ++ exists cs. split; [reflexivity | apply Rmem_In; exact Hm].
           ++ intros [|j'] cs' Hlt Hl'; [lia|]. simpl in Hl'. eapply Hnone; eauto.
        -- intros [[cs0 [Hl Hin]] _]. destruct j as [|j]; [reflexivity|].
           simpl in Hl. exfalso. eapply Hnone; eauto.
      * split; [discriminate|].
        intros [[cs0 [Hl Hin]] _]. destruct j as [|j].
        -- simpl in Hl. injection Hl as ->. apply Rmem_not_In in Hm. contradiction.
        -- simpl in Hl. exfalso. eapply Hnone; eauto.
Qed.

Lemma owner_None (t : R) (sources : list Calc_source) :
  owner t sources = None <->
  (forall cs, In cs sources -> ~ In t (obs_times cs)).
Proof.
  induction sources as [|cs rest IH]; simpl.
  - split; [intros _ cs [] | reflexivity].
  - destruct (owner t rest) as [j|] eqn:Ho.
    + split; [discriminate|]. intros H. exfalso.
      assert (Hr : forall cs0, In cs0 rest -> ~ In t (obs_times cs0)) by auto.
      apply IH in Hr. discriminate.
    + destruct (Rmem t (obs_times cs)) eqn:Hm.
      * split; [discriminate|]. intros H. exfalso.
        apply (H cs); [left; reflexivity | apply Rmem_In; exact Hm].
      * split; [|reflexivity]. intros _ cs0 [<-|Hin].
        -- apply Rmem_not_In; exact Hm.
        -- apply (proj1 IH eq_refl); exact Hin.
Qed.

End TimeIndex.

(** ** The observation-time index *)

Section TimeIndexClaims.
Context `{Ext : Externals}.

Lemma get_source_index_owner (a : Agis) (sources : list Calc_source) (t : R) :
  time_dict a = time_dict_from 0 sources [] ->
  get_source_index a t
  = match owner t sources with
    | Some j => Ok j
    | None => Raise (ValueError "time not in time_dict")
    end.
Proof.
  intros Hd. unfold get_source_index. rewrite Hd, dict_get_time_dict_from.
  destruct (owner t sources); reflexivity.
Qed.

Lemma compute_R_L_other_sources (a : Agis) (cs' : list Calc_source)
    (j : nat) (t : R) :
  cs' !! j = calc_sources a !! j ->
  compute_R_L (set_calc_sources a cs') j t = compute_R_L a j t.
Proof.
  intros Hj. unfold compute_R_L, get_field_angles, index. simpl calc_sources at 1.
  rewrite Hj. reflexivity.
Qed.

(** C9. The time index built at construction maps an observation time shared
    by several calculated sources to the one of largest index (the last
    assignment to the key wins); [get_source_index] raises exactly for the
    times that no source lists; and the attitude-block assembly at that time
    reads only the source the index names. *)
Theorem C9_time_index_last_source_wins
    (sat0 : Satellite) (sources : list Calc_source) (reals : list Source)
    (spl : option (list BSpline)) (verbose0 : bool) (degree : nat)
    (lambda : R) (upd : string) (deg_err : R) (dbl : bool) (t : R) :
  let a := Agis_init sat0 sources reals spl verbose0 degree lambda upd deg_err dbl in
  (forall j, get_source_index a t = Ok j <->
     (exists cs, sources !! j = Some cs /\ In t (obs_times cs)) /\
     (forall j' cs', (j < j')%nat -> sources !! j' = Some cs' ->
                     ~ In t (obs_times cs')))
  /\ (forall e, get_source_index a t = Raise e <->
        e = ValueError "time not in time_dict" /\
        (forall cs, In cs sources -> ~ In t (obs_times cs)))
  /\ (forall j m n others,
        get_source_index a t = Ok j ->
        others !! j = sources !! j ->
        Naa_mn_term (set_calc_sources a others) m n t = Naa_mn_term a m n t /\
        attitude_RHS_n_term (set_calc_sources a others) n t
        = attitude_RHS_n_term a n t).
Proof.
  intros a.
  assert (Hd : time_dict a = time_dict_from 0 sources []) by reflexivity.
  split; [|split].
  - intros j. rewrite (get_source_index_owner a sources t Hd).
    rewrite <- owner_Some. destruct (owner t sources) as [j0|].
    + split; [intros [= ->]; reflexivity | intros [= ->]; reflexivity].
    + split; discriminate.
  - intros e. rewrite (get_source_index_owner a sources t Hd).
    rewrite <- owner_None. destruct (owner t sources) as [j0|].
    + split; [discriminate | intros [_ H]; discriminate].
    + split; [intros [= <-]; auto | intros [-> _]; reflexivity].
  - intros j m n others Hj Ho.
    assert (Hsame : get_source_index (set_calc_sources a others) t = Ok j)
      by exact Hj.
    assert (Hidx : index others j = index sources j)
      by (unfold index; rewrite Ho; reflexivity).
    split.
    + unfold Naa_mn_term. rewrite Hsame, Hj. cbn [rbind].
      change (calc_sources (set_calc_sources a others)) with others.
      change (calc_sources a) with sources.
      rewrite Hidx. reflexivity.
    + unfold attitude_RHS_n_term. rewrite Hsame, Hj. cbn [rbind].
      rewrite (compute_R_L_other_sources a others j t Ho).
      change (calc_sources (set_calc_sources a others)) with others.
      change (calc_sources a) with sources.
      rewrite Hidx. reflexivity.
Qed.

End TimeIndexClaims.

(** ** The residual engine *)

Section ResidualClaims.
Context `{Ext : Externals}.

Lemma compute_R_L_of_angles (a : Agis) (i : nat) (t : R) (src : Source)
    (eo zo ec zc : R) :
  real_sources a !! i = Some src ->
  get_field_angles a i t = Ok (eo, zo, ec, zc) ->
  compute_R_L a i t = Ok ((eo - ec) + (zo - zc)).
Proof.
  intros Hsrc Hang. unfold compute_R_L. rewrite Hang. cbn [rbind].
  unfold deviate_field_angles_color_aberration, index. rewrite Hsrc.
  reflexivity.
Qed.

Lemma get_field_angles_of_attitudes (a : Agis) (i : nat) (t : R)
    (src : Source) (cs : Calc_source) (att att_gaia : Quaternion) :
  real_sources a !! i = Some src ->
  calc_sources a !! i = Some cs ->
  (updating a = "source"%string /\
     att = attitude_from_alpha_delta src (sat a) t 0 /\ att_gaia = att) \/
  (updating a = "scanned source"%string /\
     att = func_attitude (sat a) t /\ att_gaia = att) \/
  (updating a = "attitude"%string /\
     get_attitude a t true = Ok att /\ att_gaia = func_attitude (sat a) t) ->
  get_field_angles a i t
  = Ok (fst (observed_field_angles src att_gaia (sat a) t (double_telescope a)),
        snd (observed_field_angles src att_gaia (sat a) t (double_telescope a)),
        fst (calculated_field_angles cs att (sat a) t (double_telescope a)),
        snd (calculated_field_angles cs att (sat a) t (double_telescope a))).
Proof.
  intros Hsrc Hcs Hmode. unfold get_field_angles.
  destruct Hmode as [[Hu [Ha Hg]] | [[Hu [Ha Hg]] | [Hu [Ha Hg]]]];
    rewrite Hu; simpl String.eqb; cbv iota;
    [ unfold get_attitude_for_source, index; rewrite Hsrc; cbn [rbind]
    | cbn [rbind]
    | rewrite Ha; cbn [rbind] ];
    unfold index; rewrite ?Hsrc, ?Hcs; cbn [rbind]; subst;
    destruct (observed_field_angles _ _ _ _ _);
    destruct (calculated_field_angles _ _ _ _ _); reflexivity.
Qed.

(** C1. For a star index [i] naming a reference source [src] and a
    calculated source [cs], [compute_R_L(i, t)] returns
    [(eta_obs - eta_calc) + (zeta_obs - zeta_calc)], where the observed pair
    comes from [src] and its attitude and the calculated pair from [cs] and
    the model attitude in effect for the updating mode.  When both sides use
    the same attitude, [cs] carries the parameters of [src], and the two
    field-angle routines agree on equal parameters, the residual is [0]. *)
Theorem C1_residual_sums_field_angle_differences
    (a : Agis) (i : nat) (t : R) (src : Source) (cs : Calc_source) :
  real_sources a !! i = Some src ->
  calc_sources a !! i = Some cs ->
  updating a = "source"%string \/ updating a = "scanned source"%string \/
    (updating a = "attitude"%string /\ exists q, get_attitude a t true = Ok q) ->
  exists att att_gaia : Quaternion,
    ((updating a = "source"%string /\
        att = attitude_from_alpha_delta src (sat a) t 0 /\ att_gaia = att) \/
     (updating a = "scanned source"%string /\
        att = func_attitude (sat a) t /\ att_gaia = att) \/
     (updating a = "attitude"%string /\
        get_attitude a t true = Ok att /\ att_gaia = func_attitude (sat a) t))
    /\
    (let obs := observed_field_angles src att_gaia (sat a) t (double_telescope a) in
     let calc := calculated_field_angles cs att (sat a) t (double_telescope a) in
     compute_R_L a i t = Ok ((fst obs - fst calc) + (snd obs - snd calc)))
    /\
    (att_gaia = att ->
     get_parameters src = s_params cs ++ [mu_radial cs] ->
     (forall (src' : Source) (cs' : Calc_source) (q : Quaternion),
        get_parameters src' = s_params cs' ++ [mu_radial cs'] ->
        observed_field_angles src' q (sat a) t (double_telescope a)
        = calculated_field_angles cs' q (sat a) t (double_telescope a)) ->
     compute_R_L a i t = Ok 0).
Proof.
  intros Hsrc Hcs Hmode.
  assert (Hex : exists att att_gaia : Quaternion,
    (updating a = "source"%string /\
        att = attitude_from_alpha_delta src (sat a) t 0 /\ att_gaia = att) \/
     (updating a = "scanned source"%string /\
        att = func_attitude (sat a) t /\ att_gaia = att) \/
     (updating a = "attitude"%string /\
        get_attitude a t true = Ok att /\ att_gaia = func_attitude (sat a) t)).
  { destruct Hmode as [Hu | [Hu | [Hu [q Hq]]]].
    - exists (attitude_from_alpha_delta src (sat a) t 0),
             (attitude_from_alpha_delta src (sat a) t 0). auto.
    - exists (func_attitude (sat a) t), (func_attitude (sat a) t). auto.
    - exists q, (func_attitude (sat a) t). auto 6. }
  destruct Hex as [att [att_gaia Hatt]].
  exists att, att_gaia.
  pose proof (get_field_angles_of_attitudes a i t src cs att att_gaia
                Hsrc Hcs Hatt) as Hang.
  pose proof (compute_R_L_of_angles a i t src _ _ _ _ Hsrc Hang) as HR.
  split; [exact Hatt | split; [exact HR|]].
  intros Heq Hpar Hcons. rewrite HR. subst att_gaia.
  rewrite (Hcons src cs att Hpar). f_equal. lra.
Qed.

End ResidualClaims.

(** C1 at a concrete solver: one star observed at time 1 whose calculated
    parameters are those of its reference source. *)
Lemma C1_residual_witness :
  let a : @Agis (toy_externals solve_identity) :=
    @Agis_init (toy_externals solve_identity) tt
      [toy_source "a" [1] [1; 2; 0; 0; 0]] [[1; 2; 0; 0; 0; 0]]
      None false 3 0 "scanned source" 0 false in
  @compute_R_L (toy_externals solve_identity) a 0 1 = Ok 0.
Proof.
  intros a.
  destruct (@C1_residual_sums_field_angle_differences
              (toy_externals solve_identity) a 0%nat 1
              [1; 2; 0; 0; 0; 0] (toy_source "a" [1] [1; 2; 0; 0; 0])
              eq_refl eq_refl (or_intror (or_introl eq_refl)))
    as [att [att_gaia [Hmode [_ Hzero]]]].
  apply Hzero.
  - destruct Hmode as [[Hu _] | [[_ [-> ->]] | [Hu _]]];
      [discriminate Hu | reflexivity | discriminate Hu].
  - reflexivity.
  - intros src' cs' q Hp. cbn in Hp. cbn. rewrite Hp. reflexivity.
Defined.

(** ** The source-block pass *)

Section SourceBlockFacts.
Context `{Ext : Externals}.

Lemma index_Ok {A} (l : list A) (i : nat) (x : A) :
  index l i = Ok x <-> l !! i = Some x.
Proof.
  unfold index. destruct (l !! i); split; intros H; try discriminate;
    injection H as ->; reflexivity.
Qed.

Lemma update_block_S_i_Raise (a a' : Agis) (i : nat) (e : exn) :
  update_block_S_i a i = (Raise e, a') -> a' = a.
Proof.
  unfold update_block_S_i.
  destruct (block_S_normal_equations a i) as [[LHS RHS]|e0];
    [|intros [= _ <-]; reflexivity].
  destruct (np_linalg_solve LHS RHS) as [d2|]; [|intros [= _ <-]; reflexivity].
  destruct (index (calc_sources a) i) as [cs|e1]; [|intros [= _ <-]; reflexivity].
  destruct (iadd (s_params cs) (concat d2)) as [p|e2];
    [discriminate | intros [= _ <-]; reflexivity].
Qed.

Lemma update_block_S_i_Ok (a a' : Agis) (i : nat) :
  update_block_S_i a i = (Ok tt, a') ->
  exists LHS RHS d2 cs p,
    block_S_normal_equations a i = Ok (LHS, RHS) /\
    np_linalg_solve LHS RHS = Some d2 /\
    calc_sources a !! i = Some cs /\
    iadd (s_params cs) (concat d2) = Ok p /\
    a' = set_calc_sources a (<[i := set_s_params cs p]> (calc_sources a)).
Proof.
  unfold update_block_S_i.
  destruct (block_S_normal_equations a i) as [[LHS RHS]|e0]; [|discriminate].
  destruct (np_linalg_solve LHS RHS) as [d2|] eqn:Hs; [|discriminate].
  destruct (index (calc_sources a) i) as [cs|e1] eqn:Hi; [|discriminate].
  destruct (iadd (s_params cs) (concat d2)) as [p|e2] eqn:Ha; [|discriminate].
  intros [= <-]. exists LHS, RHS, d2, cs, p.
  apply index_Ok in Hi. auto.
Qed.

(** An update of source [i] leaves every other source as it was. *)
Lemma update_block_S_i_frame (a a' : Agis) (i : nat) (r : result unit) :
  update_block_S_i a i = (r, a') ->
  length (calc_sources a') = length (calc_sources a) /\
  forall j, j <> i -> calc_sources a' !! j = calc_sources a !! j.
Proof.
  intros H. destruct r as [[]|e].
  - destruct (update_block_S_i_Ok a a' i H)
      as (LHS & RHS & d2 & cs & p & _ & _ & _ & _ & ->).
    simpl. split; [apply length_insert|].
    intros j Hj. apply list_lookup_insert_ne. auto.
  - apply update_block_S_i_Raise in H. subst. auto.
Qed.

Lemma update_S_block_step_frame (a a' : Agis) (i : nat) (r : result unit) :
  update_S_block_step a i = (r, a') ->
  length (calc_sources a') = length (calc_sources a) /\
  forall j, j <> i -> calc_sources a' !! j = calc_sources a !! j.
Proof.
  unfold update_S_block_step.
  destruct (index (calc_sources a) i) as [cs|e0]; [|intros [= _ <-]; auto].
  match goal with |- context [error_function ?x] => set (a1 := x) end.
  assert (H1 : length (calc_sources a1) = length (calc_sources a) /\
               forall j, j <> i -> calc_sources a1 !! j = calc_sources a !! j).
  { simpl. split; [apply length_insert|].
    intros j Hj. apply list_lookup_insert_ne. auto. }
  destruct (error_function a1) as [err|e1]; [|intros [= _ <-]; exact H1].
  match goal with |- update_block_S_i ?x _ = _ -> _ => set (a2 := x) end.
  assert (H2 : length (calc_sources a2) = length (calc_sources a) /\
               forall j, j <> i -> calc_sources a2 !! j = calc_sources a !! j).
  { destruct H1 as [Hl Hf]. simpl. split.
    - rewrite length_insert. exact Hl.
    - intros j Hj. rewrite list_lookup_insert_ne by auto. apply Hf; exact Hj. }
  intros H. apply update_block_S_i_frame in H. destruct H as [Hl Hf].
  destruct H2 as [Hl2 Hf2]. split; [congruence|].
  intros j Hj. rewrite Hf by exact Hj. apply Hf2; exact Hj.
Qed.

Lemma for_each_app (body : Agis -> nat -> result unit * Agis) (l1 l2 : list nat) :
  forall a,
    for_each body a (l1 ++ l2)
    = match for_each body a l1 with
      | (Ok _, a1) => for_each body a1 l2
      | (Raise e, a1) => (Raise e, a1)
      end.
Proof.
  induction l1 as [|i l1 IH]; intros a; simpl.
  - reflexivity.
  - destruct (body a i) as [[[]|e] a1]; [apply IH | reflexivity].
Qed.

Lemma for_each_step_frame (l : list nat) :
  forall (a a' : Agis) (r : result unit),
    for_each update_S_block_step a l = (r, a') ->
    length (calc_sources a') = length (calc_sources a) /\
    forall j, ~ In j l -> calc_sources a' !! j = calc_sources a !! j.
Proof.
  induction l as [|i l IH]; intros a a' r; simpl.
  - intros [= _ <-]. auto.
  - destruct (update_S_block_step a i) as [[[]|e] a1] eqn:Hs.
    + intros H. apply IH in H. destruct H as [Hl Hf].
      apply update_S_block_step_frame in Hs. destruct Hs as [Hl1 Hf1].
      split; [congruence|]. intros j Hj.
      rewrite Hf by tauto. apply Hf1. intros ->. tauto.
    + intros [= _ <-]. apply update_S_block_step_frame in Hs.
      destruct Hs as [Hl1 Hf1]. split; [exact Hl1|].
      intros j Hj. apply Hf1. intros ->. tauto.
Qed.

(** What one step of the pass does to its own source when it succeeds. *)
Lemma update_S_block_step_Ok (a a' : Agis) (i : nat) :
  update_S_block_step a i = (Ok tt, a') ->
  exists cs err cs',
    calc_sources a !! i = Some cs /\
    error_function
      (set_calc_sources a
         (<[i := set_s_old cs (s_old cs ++ [ParamsCopy (s_params cs)])]>
            (calc_sources a))) = Ok err /\
    calc_sources a' !! i = Some cs' /\
    errors cs' = errors cs ++ [err] /\
    s_old cs' = s_old cs ++ [ParamsCopy (s_params cs)].
Proof.
  unfold update_S_block_step.
  destruct (index (calc_sources a) i) as [cs|e0] eqn:Hi; [|discriminate].
  apply index_Ok in Hi.
  match goal with |- context [error_function ?x] => set (a1 := x) end.
  destruct (error_function a1) as [err|e1] eqn:He; [|discriminate].
  intros H. apply update_block_S_i_Ok in H.
  destruct H as (LHS & RHS & d2 & cs2 & p & _ & _ & Hcs2 & _ & ->).
  assert (Hlt : (i < length (calc_sources a))%nat)
    by (apply lookup_lt_is_Some; eauto).
  simpl in Hcs2. rewrite list_lookup_insert_eq in Hcs2
    by (rewrite length_insert; exact Hlt).
  injection Hcs2 as <-.
  exists cs, err. eexists. split; [exact Hi|]. split; [exact He|].
  split.
  - simpl. rewrite list_lookup_insert_eq; [reflexivity|].
    rewrite !length_insert. exact Hlt.
  - split; reflexivity.
Qed.

Lemma update_S_block_split (a a' : Agis) (i : nat) :
  update_S_block a = (Ok tt, a') ->
  (i < length (calc_sources a))%nat ->
  exists a_i a_i',
    for_each update_S_block_step a (seq 0 i) = (Ok tt, a_i) /\
    update_S_block_step a_i i = (Ok tt, a_i') /\
    for_each update_S_block_step a_i'
      (seq (S i) (length (calc_sources a) - S i)) = (Ok tt, a').
Proof.
  unfold update_S_block. intros H Hlt.
  replace (length (calc_sources a))
    with (i + S (length (calc_sources a) - S i))%nat in H by lia.
  rewrite seq_app, for_each_app in H. simpl in H.
  destruct (for_each update_S_block_step a (seq 0 i)) as [[[]|e] a_i];
    [|discriminate].
  destruct (update_S_block_step a_i i) as [[[]|e] a_i'] eqn:Hs; [|discriminate].
  exists a_i, a_i'. auto.
Qed.

(** C10. In a source-block pass the value appended to the error history of
    star [i] is the error functional of the solver as it stands when star
    [i]'s turn comes: stars [0 .. i-1] have had their update, star [i] has
    not (for [i = 0] the state is the one the pass started from). *)
Theorem C10_error_history_sees_earlier_updates (a a' : Agis) (i : nat) :
  update_S_block a = (Ok tt, a') ->
  (i < length (calc_sources a))%nat ->
  exists (a_i : Agis) (cs_i cs_end : Calc_source) (err : R),
    for_each update_S_block_step a (seq 0 i) = (Ok tt, a_i) /\
    calc_sources a !! i = Some cs_i /\
    calc_sources a_i !! i = Some cs_i /\
    error_function
      (set_calc_sources a_i
         (<[i := set_s_old cs_i (s_old cs_i ++ [ParamsCopy (s_params cs_i)])]>
            (calc_sources a_i))) = Ok err /\
    calc_sources a' !! i = Some cs_end /\
    errors cs_end = errors cs_i ++ [err].
Proof.
  intros H Hlt.
  destruct (update_S_block_split a a' i H Hlt) as (a_i & a_i' & Hpre & Hstep & Hpost).
  destruct (update_S_block_step_Ok a_i a_i' i Hstep)
    as (cs & err & cs' & Hcs & Herr & Hcs' & Herrs & _).
  pose proof (for_each_step_frame _ _ _ _ Hpre) as [_ Hfpre].
  pose proof (for_each_step_frame _ _ _ _ Hpost) as [_ Hfpost].
  assert (Hi_pre : ~ In i (seq 0 i)) by (rewrite in_seq; lia).
  assert (Hi_post : ~ In i (seq (S i) (length (calc_sources a) - S i)))
    by (rewrite in_seq; lia).
  exists a_i, cs, cs', err.
  split; [exact Hpre|].
  split; [rewrite <- (Hfpre i Hi_pre); exact Hcs|].
  split; [exact Hcs|]. split; [exact Herr|].
  split; [rewrite (Hfpost i Hi_post); exact Hcs' | exact Herrs].
Qed.

End SourceBlockFacts.


(** A source-block pass over the two stars of [two_star]: it runs to the
    end, star 0 records the error of the initial state, star 1 the error
    after star 0 has been updated. *)
Lemma two_star_pass :
  exists a', update_S_block two_star = (Ok tt, a') /\
             map errors (calc_sources a') = [[5]; [4]].
Proof.
  eexists. unfold update_S_block.
  cbn -[np_linalg_solve]. run_solver.
  rewrite solve_checked_first by (cbn; repeat f_equal; lra).
  cbn -[np_linalg_solve]. run_solver.
  rewrite solve_checked_skip
    by (cbn; intros H; injection H as H _; lra).
  rewrite solve_checked_first by (cbn; repeat f_equal; lra).
  cbn. split; [reflexivity|]. cbn. repeat f_equal; lra.
Qed.

(** C10 at the two stars of [two_star], for star 1. *)
Lemma C10_error_history_witness :
  exists a', update_S_block two_star = (Ok tt, a') /\
  exists (a_i : Agis) (cs_i cs_end : Calc_source) (err : R),
    for_each update_S_block_step two_star (seq 0 1) = (Ok tt, a_i) /\
    calc_sources two_star !! 1%nat = Some cs_i /\
    calc_sources a_i !! 1%nat = Some cs_i /\
    error_function
      (set_calc_sources a_i
         (<[1%nat := set_s_old cs_i (s_old cs_i ++ [ParamsCopy (s_params cs_i)])]>
            (calc_sources a_i))) = Ok err /\
    calc_sources a' !! 1%nat = Some cs_end /\
    errors cs_end = errors cs_i ++ [err].
Proof.
  destruct two_star_pass as [a' [Hpass _]].
  exists a'. split; [exact Hpass|].
  apply (C10_error_history_sees_earlier_updates two_star a' 1 Hpass).
  cbn. lia.
Defined.

(** ** Failure of the source-block solve *)

Section SolveFailure.
Context `{Ext : Externals}.




End SolveFailure.


(** ** The driver *)

Definition is_error_before (o : output) : bool :=
  match o with PrintErrorBefore _ => true | _ => false end.
Definition is_error_after (o : output) : bool :=
  match o with PrintErrorAfter _ => true | _ => false end.
Definition is_iteration (o : output) : bool :=
  match o with PrintIteration _ => true | _ => false end.

(** Number of lines of a kind among the lines [out]. *)
Definition count_lines (kind : output -> bool) (out : list output) : nat :=
  length (filter kind out).

Lemma count_lines_app (kind : output -> bool) (o1 o2 : list output) :
  count_lines kind (o1 ++ o2) = (count_lines kind o1 + count_lines kind o2)%nat.
Proof.
  unfold count_lines. rewrite filter_app, length_app. reflexivity.
Qed.

Section DriverFacts.
Context `{Ext : Externals}.

Ltac break_match :=
  match goal with
  | |- context [match ?x with _ => _ end] => destruct x eqn:?
  end.

(** What the driver reads of the solver besides the attitude state. *)
Definition same_driver_fields (a a' : Agis) : Prop :=
  calc_sources a' = calc_sources a /\ verbose a' = verbose a /\
  updating a' = updating a /\ iter_counter a' = iter_counter a.

Lemma same_driver_fields_refl (a : Agis) : same_driver_fields a a.
Proof. repeat split. Qed.

Lemma same_driver_fields_trans (a b c0 : Agis) :
  same_driver_fields a b -> same_driver_fields b c0 -> same_driver_fields a c0.
Proof.
  unfold same_driver_fields. intros (H1 & H2 & H3 & H4) (H5 & H6 & H7 & H8).
  repeat split; congruence.
Qed.

Lemma compute_attitude_LHS_view (a a' : Agis) (r : result Matrix) :
  compute_attitude_LHS a = (r, a') ->
  same_driver_fields a a' /\
  (is_ok r = true -> exists n, stdout a' = stdout a ++ [PrintNaaDim n]).
Proof.
  unfold compute_attitude_LHS.
  destruct (attitude_attr a "att_coeffs") as [s|e].
  - destruct (attitude_LHS _) as [m|e]; intros [= <- <-];
      (split; [repeat split|]); simpl; intros Hr;
      first [discriminate Hr | eexists; reflexivity].
  - intros [= <- <-]. split; [repeat split | discriminate].
Qed.

Lemma compute_attitude_RHS_view (a a' : Agis) (r : result Matrix) :
  compute_attitude_RHS a = (r, a') ->
  same_driver_fields a a' /\ stdout a' = stdout a.
Proof.
  unfold compute_attitude_RHS.
  destruct (attitude_RHS a) as [m|e]; intros [= <- <-]; repeat split.
Qed.

Lemma actualise_splines_view (a a' : Agis) (r : result unit) :
  actualise_splines a = (r, a') ->
  same_driver_fields a a' /\ stdout a' = stdout a.
Proof.
  unfold actualise_splines.
  destruct (attitude_attr a "attitude_splines") as [s|e].
  - destruct (actualise_from _ _ _ _ _ _) as [r0 spl]. intros [= <- <-].
    repeat split.
  - intros [= <- <-]. repeat split.
Qed.

(** The attitude block touches neither the sources nor the configuration,
    and prints one line. *)
Lemma update_A_block_view (a a' : Agis) (r : result unit) :
  update_A_block a = (r, a') ->
  same_driver_fields a a' /\
  (r = Ok tt -> exists n, stdout a' = stdout a ++ [PrintNaaDim n]).
Proof.
  unfold update_A_block.
  destruct (compute_attitude_LHS a) as [[LHS|e] a1] eqn:HL;
    apply compute_attitude_LHS_view in HL; destruct HL as [F1 O1];
    [|intros [= <- <-]; split; [exact F1 | discriminate]].
  destruct (compute_attitude_RHS a1) as [[RHS|e] a2] eqn:HR;
    apply compute_attitude_RHS_view in HR; destruct HR as [F2 O2];
    pose proof (same_driver_fields_trans _ _ _ F1 F2) as F12;
    [|intros [= <- <-]; split; [exact F12 | discriminate]].
  destruct (np_linalg_solve LHS RHS) as [d2|];
    [|intros [= <- <-]; split; [exact F12 | discriminate]].
  destruct (attitude_attr _ "att_coeffs") as [s|e];
    [|intros [= <- <-]; split; [exact F12 | discriminate]].
  destruct (negb _);
    [intros [= <- <-]; split; [exact F12 | discriminate]|].
  destruct (layout_loop _ _ _) as [buf'|e];
    [|intros [= <- <-]; split; [exact F12 | discriminate]].
  intros H. apply actualise_splines_view in H. destruct H as [F3 O3].
  split.
  - eapply same_driver_fields_trans; [exact F12 | exact F3].
  - intros _. destruct (O1 eq_refl) as [n Hn]. exists n.
    rewrite O3. simpl. rewrite O2. exact Hn.
Qed.

(** *** The error functional as a sum of squares *)

(** The (star, time) pairs of the sources [sources], the first of which has
    index [i0], in the order of the two loops of [error_function]. *)
Fixpoint star_time_pairs (i0 : nat) (sources : list Calc_source)
    : list (nat * R) :=
  match sources with
  | [] => []
  | s :: rest => map (pair i0) (obs_times s) ++ star_time_pairs (S i0) rest
  end.

Lemma Rsum_app (l1 l2 : list R) : Rsum (l1 ++ l2) = Rsum l1 + Rsum l2.
Proof.
  unfold Rsum. induction l1 as [|x l1 IH]; simpl; [lra | rewrite IH; lra].
Qed.

Lemma error_of_source_sum (a : Agis) (i : nat) (times : list R) :
  forall err : R,
    error_of_source a i times err
    = do rs <- mapM (fun p => compute_R_L a (fst p) (snd p)) (map (pair i) times);
      Ok (err + Rsum (map (fun r => r ^ 2) rs)).
Proof.
  unfold error_of_source.
  induction times as [|t times IH]; intros err; simpl.
  - f_equal. unfold Rsum. simpl. lra.
  - destruct (compute_R_L a i t) as [r|e]; simpl; [|reflexivity].
    rewrite IH.
    destruct (mapM _ (map (pair i) times)) as [rs|e]; simpl; [|reflexivity].
    f_equal. unfold Rsum. simpl. lra.
Qed.

Lemma mapM_app {A B} (f : A -> result B) (l1 l2 : list A) :
  mapM f (l1 ++ l2)
  = do b1 <- mapM f l1; do b2 <- mapM f l2; Ok (b1 ++ b2).
Proof.
  induction l1 as [|x l1 IH]; simpl.
  - destruct (mapM f l2); reflexivity.
  - destruct (f x) as [b|e]; simpl; [|reflexivity].
    rewrite IH. destruct (mapM f l1) as [b1|e]; simpl; [|reflexivity].
    destruct (mapM f l2); reflexivity.
Qed.

Lemma error_from_sum (a : Agis) (sources : list Calc_source) :
  forall (i0 : nat) (err : R),
    error_from a i0 sources err
    = do rs <- mapM (fun p => compute_R_L a (fst p) (snd p))
                    (star_time_pairs i0 sources);
      Ok (err + Rsum (map (fun r => r ^ 2) rs)).
Proof.
  induction sources as [|s rest IH]; intros i0 err; simpl.
  - f_equal. unfold Rsum. simpl. lra.
  - rewrite error_of_source_sum, mapM_app.
    destruct (mapM _ (map (pair i0) (obs_times s))) as [r1|e]; simpl;
      [|reflexivity].
    rewrite IH.
    destruct (mapM _ (star_time_pairs (S i0) rest)) as [r2|e]; simpl;
      [|reflexivity].
    f_equal. rewrite map_app, Rsum_app. lra.
Qed.

(** [error_function] is the sum over all (star, time) pairs of the squared
    residual, and raises what the first failing residual raises. *)
Lemma error_function_sum_of_squares (a : Agis) :
  error_function a
  = do rs <- mapM (fun p => compute_R_L a (fst p) (snd p))
                  (star_time_pairs 0 (calc_sources a));
    Ok (Rsum (map (fun r => r ^ 2) rs)).
Proof.
  unfold error_function. rewrite error_from_sum.
  destruct (mapM _ _) as [rs|e]; simpl; [f_equal; lra | reflexivity].
Qed.

(** *** What a source-block pass leaves untouched *)

Lemma set_calc_sources_same (a : Agis) : set_calc_sources a (calc_sources a) = a.
Proof. destruct a; reflexivity. Qed.

Lemma update_block_S_i_set (a a' : Agis) (i : nat) (r : result unit) :
  update_block_S_i a i = (r, a') -> exists l, a' = set_calc_sources a l.
Proof.
  intros H. destruct r as [[]|e].
  - apply update_block_S_i_Ok in H.
    destruct H as (LHS & RHS & d2 & cs & p & _ & _ & _ & _ & ->). eauto.
  - apply update_block_S_i_Raise in H. subst.
    exists (calc_sources a). symmetry. apply set_calc_sources_same.
Qed.

Lemma update_S_block_step_set (a a' : Agis) (i : nat) (r : result unit) :
  update_S_block_step a i = (r, a') -> exists l, a' = set_calc_sources a l.
Proof.
  unfold update_S_block_step.
  destruct (index (calc_sources a) i) as [cs|e0].
  - destruct (error_function _) as [err|e1].
    + intros H. apply update_block_S_i_set in H. destruct H as [l ->]. eauto.
    + intros [= _ <-]. eauto.
  - intros [= _ <-]. exists (calc_sources a). symmetry.
    apply set_calc_sources_same.
Qed.

Lemma for_each_step_set (l : list nat) :
  forall (a a' : Agis) (r : result unit),
    for_each update_S_block_step a l = (r, a') ->
    exists cs, a' = set_calc_sources a cs.
Proof.
  induction l as [|i l IH]; intros a a' r; simpl.
  - intros [= _ <-]. exists (calc_sources a). symmetry.
    apply set_calc_sources_same.
  - destruct (update_S_block_step a i) as [[[]|e] a1] eqn:Hs;
      apply update_S_block_step_set in Hs; destruct Hs as [l1 ->].
    + intros H. apply IH in H. destruct H as [l2 ->]. eauto.
    + intros [= _ <-]. eauto.
Qed.

(** A pass that runs to its end appends one value to every error history. *)
Lemma update_S_block_histories (a a' : Agis) :
  update_S_block a = (Ok tt, a') ->
  length (calc_sources a') = length (calc_sources a) /\
  forall i cs, calc_sources a !! i = Some cs ->
    exists cs', calc_sources a' !! i = Some cs' /\
                length (errors cs') = S (length (errors cs)).
Proof.
  intros H. split.
  - apply for_each_step_frame in H. tauto.
  - intros i cs Hcs.
    assert (Hlt : (i < length (calc_sources a))%nat)
      by (apply lookup_lt_is_Some; eauto).
    destruct (update_S_block_split a a' i H Hlt)
      as (a_i & a_i' & Hpre & Hstep & Hpost).
    destruct (update_S_block_step_Ok a_i a_i' i Hstep)
      as (cs0 & err & cs' & Hcs0 & _ & Hcs' & Herrs & _).
    pose proof (for_each_step_frame _ _ _ _ Hpre) as [_ Hfpre].
    pose proof (for_each_step_frame _ _ _ _ Hpost) as [_ Hfpost].
    rewrite Hfpre in Hcs0 by (rewrite in_seq; lia).
    rewrite Hcs in Hcs0. injection Hcs0 as <-.
    exists cs'. split.
    + rewrite Hfpost by (rewrite in_seq; lia). exact Hcs'.
    + rewrite Herrs, length_app. simpl. lia.
Qed.

(** *** One pass of the driver *)

Lemma compute_R_L_print (a : Agis) (o : output) (i : nat) (t : R) :
  compute_R_L (print a o) i t = compute_R_L a i t.
Proof. reflexivity. Qed.

Lemma mapM_ext {A B} (f g : A -> result B) (l : list A) :
  (forall x, f x = g x) -> mapM f l = mapM g l.
Proof.
  intros Hfg. induction l as [|x l IH]; simpl; [reflexivity|].
  rewrite Hfg, IH. reflexivity.
Qed.

Lemma error_function_print (a : Agis) (o : output) :
  error_function (print a o) = error_function a.
Proof.
  rewrite !error_function_sum_of_squares.
  change (calc_sources (print a o)) with (calc_sources a).
  rewrite (mapM_ext _ (fun p => compute_R_L a (fst p) (snd p)));
    [reflexivity|].
  intros p. apply compute_R_L_print.
Qed.

Lemma iterate_pass_Ok (a a' : Agis) :
  iterate_pass a = (Ok tt, a') ->
  iter_counter a' = (iter_counter a + 1)%nat /\
  verbose a' = verbose a /\ updating a' = updating a /\
  length (calc_sources a') = length (calc_sources a) /\
  (exists out err,
     stdout a' = stdout a ++ PrintIteration (iter_counter a + 1) :: out
                          ++ [PrintErrorAfter err] /\
     error_function a' = Ok err /\
     count_lines is_iteration out = 0%nat /\
     count_lines is_error_after out = 0%nat /\
     count_lines is_error_before out = (if verbose a then 1 else 0)%nat) /\
  (updating a = "source"%string \/ updating a = "scanned source"%string ->
   forall i cs, calc_sources a !! i = Some cs ->
     exists cs', calc_sources a' !! i = Some cs' /\
                 length (errors cs') = S (length (errors cs))) /\
  (updating a = "attitude"%string -> calc_sources a' = calc_sources a).
Proof.
  unfold iterate_pass.
  set (a2 := print (set_iter_counter a (iter_counter a + 1))
                   (PrintIteration
                      (iter_counter (set_iter_counter a (iter_counter a + 1))))).
  assert (H2 : same_driver_fields (set_iter_counter a (iter_counter a + 1)) a2
               /\ stdout a2 = stdout a ++ [PrintIteration (iter_counter a + 1)]
               /\ iter_counter a2 = (iter_counter a + 1)%nat
               /\ calc_sources a2 = calc_sources a
               /\ verbose a2 = verbose a /\ updating a2 = updating a)
    by (repeat split).
  destruct H2 as (_ & Hout2 & Hic2 & Hcs2 & Hv2 & Hu2).
  (* the error before the pass *)
  assert (Hbefore : forall r a3,
            (if verbose a2
             then match error_function a2 with
                  | Ok err => (Ok tt, print a2 (PrintErrorBefore err))
                  | Raise e => (Raise e, a2)
                  end
             else (Ok tt, a2)) = (r, a3) ->
            same_driver_fields a2 a3 /\
            (r = Ok tt ->
             exists o3, stdout a3 = stdout a2 ++ o3 /\
                        count_lines is_iteration o3 = 0%nat /\
                        count_lines is_error_after o3 = 0%nat /\
                        count_lines is_error_before o3
                        = (if verbose a then 1 else 0)%nat)).
  { intros r a3. rewrite Hv2. destruct (verbose a).
    - destruct (error_function a2) as [err|e]; intros [= <- <-].
      + split; [repeat split|]. intros _. exists [PrintErrorBefore err].
        repeat split.
      + split; [repeat split | discriminate].
    - intros [= <- <-]. split; [repeat split|]. intros _. exists [].
      split; [simpl; rewrite app_nil_r; reflexivity | repeat split]. }
  match goal with
  | |- (match ?b with _ => _ end) = _ -> _ =>
      pose proof (Hbefore (fst b) (snd b) (surjective_pairing b)) as Hb;
      clear Hbefore; destruct b as [[[]|e] a3]
  end; [|discriminate].
  simpl in Hb. destruct Hb as [(Hcs3 & Hv3 & Hu3 & Hic3) Ho3].
  destruct (Ho3 eq_refl) as (o3 & Hout3 & Hn3i & Hn3a & Hn3b).
  clear Ho3.
  rewrite Hu3, Hu2.
  (* the block update *)
  intros Hrest.
  assert (Hblock : exists a5 o5,
            same_driver_fields a3 (set_calc_sources a5 (calc_sources a3)) /\
            length (calc_sources a5) = length (calc_sources a3) /\
            stdout a5 = stdout a3 ++ o5 /\
            count_lines is_iteration o5 = 0%nat /\
            count_lines is_error_after o5 = 0%nat /\
            count_lines is_error_before o5 = 0%nat /\
            (updating a = "source"%string \/ updating a = "scanned source"%string ->
             forall i cs, calc_sources a3 !! i = Some cs ->
               exists cs', calc_sources a5 !! i = Some cs' /\
                           length (errors cs') = S (length (errors cs))) /\
            (updating a = "attitude"%string -> calc_sources a5 = calc_sources a3) /\
            match error_function a5 with
            | Ok err => (Ok tt, print a5 (PrintErrorAfter err))
            | Raise e => (Raise e, a5)
            end = (Ok tt, a')).
  { assert (Hno_src : String.eqb (updating a) "source"
                      || String.eqb (updating a) "scanned source" = false ->
                      updating a = "source"%string \/
                      updating a = "scanned source"%string -> False).
    { intros Hf [Hs|Hs]; rewrite Hs in Hf; discriminate. }
    destruct (String.eqb (updating a) "source"
              || String.eqb (updating a) "scanned source") eqn:Hsrc.
    - destruct (update_S_block a3) as [[[]|e] a5] eqn:Hup; [|discriminate].
      exists a5, [].
      pose proof (for_each_step_set _ _ _ _ Hup) as [l ->].
      destruct (update_S_block_histories _ _ Hup) as [Hlen Hhist].
      split; [repeat split|]. split; [exact Hlen|].
      split; [simpl; rewrite app_nil_r; reflexivity|].
      split; [reflexivity|]. split; [reflexivity|]. split; [reflexivity|].
      split; [intros _; exact Hhist|].
      split; [|exact Hrest].
      intros Hatt. rewrite Hatt in Hsrc. discriminate.
    - specialize (Hno_src eq_refl).
      destruct (String.eqb (updating a) "attitude") eqn:Hatt.
      + destruct (update_A_block a3) as [[[]|e] a4] eqn:Hup; [|discriminate].
        destruct (update_A_block_view _ _ _ Hup)
          as [(Hcs4 & Hv4 & Hu4 & Hic4) Ho4].
        destruct (Ho4 eq_refl) as [n Hn].
        destruct (error_between_func_attitudes _ _ _) as [aerr|e];
          [|discriminate].
        exists (print a4 (PrintAttitudeError aerr)),
               [PrintNaaDim n; PrintAttitudeError aerr].
        split; [repeat split; simpl; congruence|].
        split; [simpl; congruence|].
        split; [simpl; rewrite Hn, <- app_assoc; reflexivity|].
        split; [reflexivity|]. split; [reflexivity|]. split; [reflexivity|].
        split; [intros Hs; destruct (Hno_src Hs)|].
        split; [intros _; exact Hcs4 | exact Hrest].
      + exists a3, [].
        split; [rewrite set_calc_sources_same; repeat split|].
        split; [reflexivity|].
        split; [rewrite app_nil_r; reflexivity|].
        split; [reflexivity|]. split; [reflexivity|]. split; [reflexivity|].
        split; [intros Hs; destruct (Hno_src Hs)|].
        split; [|exact Hrest].
        intros Ha. rewrite Ha in Hatt. discriminate. }
  clear Hrest.
  destruct Hblock as (a5 & o5 & (_ & Hv5 & Hu5 & Hic5) & Hlen5 & Hout5 & Hn5i
                      & Hn5a & Hn5b & Hsrc5 & Hatt5 & Hafter).
  simpl in Hv5, Hu5, Hic5.
  destruct (error_function a5) as [err|e] eqn:Herr; [|discriminate].
  injection Hafter as <-.
  split; [simpl; congruence|]. split; [simpl; congruence|].
  split; [simpl; congruence|]. split; [simpl; congruence|].
  split; [|split].
  - exists (o3 ++ o5), err. split.
    + change (stdout (print a5 (PrintErrorAfter err)))
        with (stdout a5 ++ [PrintErrorAfter err]).
      rewrite Hout5, Hout3. rewrite <- !app_assoc. reflexivity.
    + split; [rewrite error_function_print; exact Herr|].
      rewrite !count_lines_app. repeat split; lia.
  - intros Hs i cs Hi. simpl. apply Hsrc5; [exact Hs | congruence].
  - intros Ha. simpl. rewrite (Hatt5 Ha). congruence.
Qed.

(** *** Symbolic execution of the attitude block *)

Lemma attitude_LHS_print (a : Agis) (o : output) :
  attitude_LHS (print a o) = attitude_LHS a.
Proof. reflexivity. Qed.

Lemma attitude_RHS_set_N_aa (a : Agis) (o : output) (m : option Matrix) :
  attitude_RHS (set_N_aa (print a o) m) = attitude_RHS a.
Proof. reflexivity. Qed.

(** [update_A_block] when the assembly and the solve succeed: the state
    that reaches [actualise_splines]. *)
Lemma update_A_block_run (a : Agis) (s : Attitude_state)
    (LHS RHS d2 : Matrix) (buf' : Vec) :
  attitude a = Some s ->
  attitude_LHS a = Ok LHS ->
  attitude_RHS a = Ok RHS ->
  np_linalg_solve LHS RHS = Some d2 ->
  length (concat d2) = (length (att_coeffs s) * ncols (att_coeffs s))%nat ->
  layout_loop (length (att_coeffs s)) (ncols (att_coeffs s)) (concat d2)
  = Ok buf' ->
  update_A_block a
  = actualise_splines
      (set_attitude
         (set_c_update
            (set_d
               (set_d
                  (set_h
                     (set_N_aa (print a (PrintNaaDim (ncols (att_coeffs s))))
                               (Some LHS))
                     (Some RHS))
                  (Some (concat d2)))
               (Some buf'))
            (Some (reshape (length (att_coeffs s)) (ncols (att_coeffs s)) buf')))
         (Some (mkAttitude_state (c s)
                  (mat_add (att_coeffs s)
                     (reshape (length (att_coeffs s)) (ncols (att_coeffs s))
                              buf'))
                  (att_knots s) (attitude_splines s) (att_bases s)))).
Proof.
  intros Hatt HL HR Hsolve Hlen Hloop.
  unfold update_A_block, compute_attitude_LHS, attitude_attr.
  rewrite Hatt. rewrite attitude_LHS_print, HL.
  unfold compute_attitude_RHS. rewrite attitude_RHS_set_N_aa, HR.
  rewrite Hsolve. cbn [attitude set_d set_h set_N_aa print].
  rewrite Hatt. rewrite Hlen, Nat.eqb_refl. cbn [negb]. rewrite Hloop.
  reflexivity.
Qed.

(** C7 (amended). A call [iterate(n)] that no exception interrupts makes
    exactly [n] passes of the one configured block update: the iteration
    counter grows by [n], [n] iteration banners are printed, in the source
    modes every star's error history grows by [n] entries, and in attitude
    mode the sources are left as they were.  After each pass the error
    functional is computed and printed ([n] lines, the last of them the
    error functional of the final state); before a pass it is printed only
    when [verbose] is set.  Nothing but the count [n] ends the loop. *)
Theorem C7_iterate_makes_n_passes (a a' : Agis) (n : nat) :
  iterate a n = (Ok tt, a') ->
  iter_counter a' = (iter_counter a + n)%nat /\
  verbose a' = verbose a /\ updating a' = updating a /\
  (exists out,
     stdout a' = stdout a ++ out /\
     count_lines is_iteration out = n /\
     count_lines is_error_after out = n /\
     count_lines is_error_before out = (if verbose a then n else 0)%nat /\
     ((0 < n)%nat ->
      exists err, last out = Some (PrintErrorAfter err) /\
                  error_function a' = Ok err)) /\
  (updating a = "source"%string \/ updating a = "scanned source"%string ->
   forall i cs, calc_sources a !! i = Some cs ->
     exists cs', calc_sources a' !! i = Some cs' /\
                 length (errors cs') = (length (errors cs) + n)%nat) /\
  (updating a = "attitude"%string -> calc_sources a' = calc_sources a).
Proof.
  revert a a'. induction n as [|n IH]; intros a a'; simpl.
  - intros [= <-]. split; [lia|]. split; [reflexivity|]. split; [reflexivity|].
    split; [|split].
    + exists []. rewrite app_nil_r. repeat split; try (destruct (verbose a); reflexivity).
      intros H; lia.
    + intros _ i cs Hi. exists cs. split; [exact Hi | lia].
    + reflexivity.
  - destruct (iterate_pass a) as [[[]|e] a1] eqn:Hp; [|discriminate].
    intros Hit.
    destruct (iterate_pass_Ok a a1 Hp)
      as (Hic1 & Hv1 & Hu1 & _ & (o1 & err1 & Hout1 & Herr1 & Hi1 & Ha1 & Hb1)
          & Hsrc1 & Hatt1).
    destruct (IH a1 a' Hit)
      as (Hic & Hv & Hu & (o2 & Hout2 & Hi2 & Ha2 & Hb2 & Hlast2) & Hsrc & Hatt).
    split; [lia|]. split; [congruence|]. split; [congruence|].
    split; [|split].
    + exists ((PrintIteration (iter_counter a + 1) :: o1 ++ [PrintErrorAfter err1])
              ++ o2).
      split; [rewrite Hout2, Hout1, <- app_assoc; reflexivity|].
      rewrite !count_lines_app.
      change (PrintIteration (iter_counter a + 1) :: o1 ++ [PrintErrorAfter err1])
        with ([PrintIteration (iter_counter a + 1)] ++ o1 ++ [PrintErrorAfter err1]).
      rewrite !count_lines_app, Hi1, Ha1, Hb1, Hi2, Ha2, Hb2, Hv1.
      split; [reflexivity|]. split; [simpl; lia|].
      split; [destruct (verbose a); simpl; lia|].
      intros _. destruct n as [|n].
      * simpl in Hit. injection Hit as <-.
        assert (Ho2 : o2 = []).
        { apply (app_inv_head (stdout a1)). rewrite app_nil_r. symmetry.
          exact Hout2. }
        subst o2. rewrite app_nil_r. exists err1. split; [|exact Herr1].
        change ([PrintIteration (iter_counter a + 1)] ++ o1 ++ [PrintErrorAfter err1])
          with ((PrintIteration (iter_counter a + 1) :: o1) ++ [PrintErrorAfter err1]).
        apply last_snoc.
      * destruct (Hlast2 ltac:(lia)) as (err & Hl & He). exists err.
        split; [|exact He].
        destruct o2 as [|x o2]; [discriminate|].
        rewrite last_app. rewrite Hl. reflexivity.
    + intros Hs i cs Hi.
      destruct (Hsrc1 Hs i cs Hi) as (cs1 & Hcs1 & Hl1).
      rewrite <- Hu1 in Hs.
      destruct (Hsrc Hs i cs1 Hcs1) as (cs' & Hcs' & Hl').
      exists cs'. split; [exact Hcs' | lia].
    + intros Ha. rewrite (Hatt ltac:(congruence)). apply Hatt1. exact Ha.
Qed.

Lemma attitude_LHS_pass_start (a : Agis) (n : nat) (o : output) :
  attitude_LHS (print (set_iter_counter a n) o) = attitude_LHS a.
Proof. reflexivity. Qed.

Lemma attitude_RHS_pass_start (a : Agis) (n : nat) (o : output) :
  attitude_RHS (print (set_iter_counter a n) o) = attitude_RHS a.
Proof. reflexivity. Qed.

(** A pass in attitude mode with [verbose] off, once its parts succeed. *)
Lemma iterate_pass_attitude (a a4 : Agis) (aerr err : R) :
  verbose a = false ->
  updating a = "attitude"%string ->
  update_A_block (print (set_iter_counter a (iter_counter a + 1))
                        (PrintIteration (iter_counter a + 1))) = (Ok tt, a4) ->
  error_between_func_attitudes (all_obs_times a4) (func_attitude (sat a4))
    (fun t => get_attitude a4 t true) = Ok aerr ->
  error_function a4 = Ok err ->
  iterate_pass a
  = (Ok tt, print (print a4 (PrintAttitudeError aerr)) (PrintErrorAfter err)).
Proof.
  intros Hv Hu Hup Hatt Herr. unfold iterate_pass.
  set (a2 := print (set_iter_counter a (iter_counter a + 1))
                   (PrintIteration
                      (iter_counter (set_iter_counter a (iter_counter a + 1))))).
  change (verbose a2) with (verbose a). rewrite Hv.
  change (updating a2) with (updating a). rewrite Hu.
  simpl String.eqb. cbn [orb]. cbv iota.
  change (update_A_block a2) with
    (update_A_block (print (set_iter_counter a (iter_counter a + 1))
                           (PrintIteration (iter_counter a + 1)))).
  rewrite Hup, Hatt. rewrite error_function_print, Herr. reflexivity.
Qed.

End DriverFacts.

(** ** Runs in the concrete setting *)

Ltac decide_real :=
  match goal with
  | |- context [Req_dec_T ?x ?y] =>
      let H := fresh in
      destruct (Req_dec_T x y) as [H|H];
      [ first [ exfalso; clear -H; lra | clear H ]
      | first [ exfalso; clear -H; lra | clear H ] ]
  | |- context [Rle_dec ?x ?y] =>
      let H := fresh in
      destruct (Rle_dec x y) as [H|H];
      [ first [ exfalso; clear -H; lra | clear H ]
      | first [ exfalso; clear -H; lra | clear H ] ]
  end.

Ltac run :=
  lazy -[Rplus Rmult Ropp Rminus Rdiv Rinv IZR pow INR sqrt Req_dec_T Rle_dec
         np_linalg_solve solve_checked].

Ltac run_all := run; repeat (decide_real; run).

Lemma att_star_LHS (lambda : R) :
  lambda = 0 ->
  attitude_LHS (att_star lambda)
  = Ok [[1; 0; 0; 0]; [0; 1; 0; 0]; [0; 0; 1; 0]; [0; 0; 0; 1]].
Proof.
  intros ->. run_all. repeat f_equal; lra.
Qed.

Lemma att_star_RHS (lambda : R) :
  lambda = 0 ->
  attitude_RHS (att_star lambda) = Ok [[-1]; [-1]; [-1]; [-1]].
Proof.
  intros ->. run_all. repeat f_equal; lra.
Qed.

(** The attitude block on [att_star 0], entered from the first pass of
    [iterate]: the system is the identity, its solution [(-1, -1, -1, -1)]. *)
Lemma att_star_update_A_block :
  exists a4,
    update_A_block (print (set_iter_counter (att_star 0) (0 + 1))
                          (PrintIteration (0 + 1))) = (Ok tt, a4) /\
    calc_sources a4 = calc_sources (att_star 0) /\
    stdout a4 = [PrintIteration 1; PrintNaaDim 1] /\
    error_function a4 = Ok 4 /\
    get_attitude a4 0 false = Ok (mkQuaternion (2 + -1) (0 + -1) (0 + -1) (0 + -1)).
Proof.
  eexists.
  erewrite update_A_block_run; cycle 1.
  - reflexivity.
  - rewrite attitude_LHS_pass_start. apply att_star_LHS. reflexivity.
  - rewrite attitude_RHS_pass_start. apply att_star_RHS. reflexivity.
  - cbn [np_linalg_solve toy_externals]. unfold att_star_candidates.
    apply solve_checked_first. run. repeat f_equal; lra.
  - reflexivity.
  - run. reflexivity.
  - split; [run; reflexivity|]. split; [reflexivity|].
    split; [reflexivity|]. split; [run; f_equal; lra|]. run. reflexivity.
Qed.

(** One pass of [iterate] on [att_star 0], with [verbose] off. *)
Lemma att_star_iterate :
  exists a',
    iterate (att_star 0) 1 = (Ok tt, a') /\
    stdout a' = [PrintIteration 1; PrintNaaDim 1; PrintAttitudeError 0;
                 PrintErrorAfter 4] /\
    map errors (calc_sources a') = [[]].
Proof.
  destruct att_star_update_A_block as (a4 & Hup & Hcs & Hout & Herr & _).
  eexists. unfold iterate.
  erewrite (iterate_pass_attitude (att_star 0) a4 0 4);
    [ | reflexivity | reflexivity | exact Hup | reflexivity | exact Herr].
  split; [reflexivity|]. split.
  - cbn [stdout print]. rewrite Hout. reflexivity.
  - cbn [calc_sources print]. rewrite Hcs. reflexivity.
Qed.

(** C7 as the claim states it: a completed call [iterate(n)] has computed
    and recorded the error functional before and after each of its [n]
    passes. *)
Definition error_recorded_before_and_after_each_pass `{Ext : Externals}
    (a : Agis) (n : nat) : Prop :=
  forall a', iterate a n = (Ok tt, a') ->
    exists out, stdout a' = stdout a ++ out /\
                count_lines is_error_before out = n /\
                count_lines is_error_after out = n.

(** C7 fails as stated: with [verbose] off (the default), one pass in
    attitude mode on [att_star 0] prints the error after the pass only, and
    no error history receives an entry. *)
Lemma C7_error_before_pass_needs_verbose :
  ~ error_recorded_before_and_after_each_pass (att_star 0) 1 /\
  exists a', iterate (att_star 0) 1 = (Ok tt, a') /\
             count_lines is_error_before (stdout a') = 0%nat /\
             map errors (calc_sources a') = [[]].
Proof.
  destruct att_star_iterate as (a' & Hit & Hout & Herrs).
  split.
  - intros Hclaim. destruct (Hclaim a' Hit) as (out & Ho & Hb & _).
    rewrite Hout in Ho. simpl in Ho. subst out. discriminate Hb.
  - exists a'. split; [exact Hit|]. split; [rewrite Hout; reflexivity | exact Herrs].
Qed.

(** C7 (amended) at one pass over [att_star 0]. *)
Lemma C7_iterate_witness :
  exists a', iterate (att_star 0) 1 = (Ok tt, a') /\
             iter_counter a' = 1%nat /\
             calc_sources a' = calc_sources (att_star 0).
Proof.
  destruct att_star_iterate as (a' & Hit & _).
  exists a'. split; [exact Hit|].
  destruct (C7_iterate_makes_n_passes (att_star 0) a' 1 Hit)
    as (Hic & _ & _ & _ & _ & Hatt).
  split; [exact Hic | apply Hatt; reflexivity].
Defined.

(** ** The layout of the attitude increment *)

(** The layout that the loop of [update_A_block] spells out: entry [(j, i)]
    of the [4 x N] increment is entry [4 i + j] of the solution. *)
Definition intended_layout (cols : nat) (sol : Vec) : Matrix :=
  map (fun j => map (fun i => nth (4 * i + j) sol 0) (seq 0 cols)) (seq 0 4).

(** C3, the code at two knot spans.  [c_update] is a view of the solution
    vector [d], so the loop [c_update[j, i] = d[4 i + j]] reads entries that
    it has already overwritten: component [(2, 0)] receives [d1] instead of
    [d2], and [(0, 1)], [(2, 1)] receive [d1], [d3] instead of [d4], [d6]. *)
Theorem C3_layout_loop_reads_overwritten_entries
    (d0 d1 d2 d3 d4 d5 d6 d7 : R) :
  layout_loop 4 2 [d0; d1; d2; d3; d4; d5; d6; d7]
  = Ok [d0; d1; d1; d5; d1; d3; d3; d7] /\
  reshape 4 2 [d0; d1; d1; d5; d1; d3; d3; d7]
  = [[d0; d1]; [d1; d5]; [d1; d3]; [d3; d7]] /\
  intended_layout 2 [d0; d1; d2; d3; d4; d5; d6; d7]
  = [[d0; d4]; [d1; d5]; [d2; d6]; [d3; d7]].
Proof.
  repeat split.
Qed.

(** With a single knot span the view and the intended layout coincide. *)
Lemma layout_loop_one_span (d0 d1 d2 d3 : R) :
  layout_loop 4 1 [d0; d1; d2; d3] = Ok [d0; d1; d2; d3] /\
  reshape 4 1 [d0; d1; d2; d3] = intended_layout 1 [d0; d1; d2; d3].
Proof.
  repeat split.
Qed.

Section AttitudeUpdateFacts.
Context `{Ext : Externals}.

Lemma actualise_from_Ok (knots : list R) (coeffs : Matrix) (degree : nat) :
  forall (todo i : nat) (splines splines' : list BSpline),
    actualise_from knots coeffs degree splines i todo = (Ok tt, splines') ->
    (i + todo <= length splines)%nat ->
    length splines' = length splines /\
    (forall j, (j < i)%nat -> splines' !! j = splines !! j) /\
    (forall j, (i <= j < i + todo)%nat ->
       exists row, coeffs !! j = Some row /\
                   splines' !! j = Some (mkBSpline knots row degree)).
Proof.
  induction todo as [|todo IH]; intros i splines splines'; simpl.
  - intros [= <-] _. split; [reflexivity|]. split; [reflexivity|]. intros j Hj. lia.
  - destruct (index coeffs i) as [row|e] eqn:Hrow; [|discriminate].
    apply index_Ok in Hrow. intros H Hlen.
    apply IH in H; [|rewrite length_insert; lia].
    destruct H as (Hl & Hbefore & Hnew). rewrite length_insert in Hl.
    split; [exact Hl|]. split.
    + intros j Hj. rewrite Hbefore by lia.
      apply list_lookup_insert_ne. lia.
    + intros j Hj. destruct (Nat.eq_dec j i) as [->|Hne].
      * exists row. split; [exact Hrow|]. rewrite Hbefore by lia.
        apply list_lookup_insert_eq. lia.
      * apply Hnew. lia.
Qed.

(** After a successful attitude update the stored coefficients are the old
    ones plus the increment read through the view of the solution buffer,
    and every spline is rebuilt from its row of the new coefficients. *)
Lemma update_A_block_coefficients (a a' : Agis) (s : Attitude_state)
    (LHS RHS d2 : Matrix) (buf' : Vec) :
  attitude a = Some s ->
  attitude_LHS a = Ok LHS ->
  attitude_RHS a = Ok RHS ->
  np_linalg_solve LHS RHS = Some d2 ->
  length (concat d2) = (length (att_coeffs s) * ncols (att_coeffs s))%nat ->
  layout_loop (length (att_coeffs s)) (ncols (att_coeffs s)) (concat d2)
  = Ok buf' ->
  update_A_block a = (Ok tt, a') ->
  exists s',
    attitude a' = Some s' /\
    att_coeffs s'
    = mat_add (att_coeffs s)
        (reshape (length (att_coeffs s)) (ncols (att_coeffs s)) buf') /\
    att_knots s' = att_knots s /\
    length (attitude_splines s') = length (attitude_splines s) /\
    forall j, (j < length (attitude_splines s))%nat ->
      exists row, att_coeffs s' !! j = Some row /\
                  attitude_splines s' !! j
                  = Some (mkBSpline (att_knots s) row (k a)).
Proof.
  intros Hatt HL HR Hsolve Hlen Hloop Hup.
  rewrite (update_A_block_run a s LHS RHS d2 buf' Hatt HL HR Hsolve Hlen Hloop)
    in Hup.
  unfold actualise_splines, attitude_attr in Hup.
  cbn [attitude set_attitude att_knots att_coeffs attitude_splines c att_bases
       k set_c_update set_d set_h set_N_aa print] in Hup.
  match type of Hup with
  | (let '(_, _) := ?x in _) = _ => destruct x as [r spl] eqn:Hact
  end.
  injection Hup as -> <-.
  apply actualise_from_Ok in Hact; [|simpl; lia].
  destruct Hact as (Hl & _ & Hnew).
  eexists. split; [reflexivity|]. cbn [att_coeffs att_knots attitude_splines].
  split; [reflexivity|]. split; [reflexivity|]. split; [exact Hl|].
  intros j Hj. apply Hnew. simpl. lia.
Qed.

End AttitudeUpdateFacts.

(** ** Renormalisation of the attitude quaternion *)

Lemma quaternion_norm2_nonneg (q : Quaternion) : 0 <= quaternion_norm2 q.
Proof. unfold quaternion_norm2. nra. Qed.

Lemma quaternion_norm2_pos (q : Quaternion) :
  ~ (q_w q = 0 /\ q_x q = 0 /\ q_y q = 0 /\ q_z q = 0) ->
  0 < quaternion_norm2 q.
Proof.
  intros Hnz. pose proof (quaternion_norm2_nonneg q) as H0.
  destruct (Req_dec_T (quaternion_norm2 q) 0) as [Hz|Hz]; [|lra].
  exfalso. apply Hnz. unfold quaternion_norm2 in Hz. repeat split; nra.
Qed.

Lemma quaternion_magnitude_sqr (q : Quaternion) :
  quaternion_magnitude q * quaternion_magnitude q = quaternion_norm2 q.
Proof. apply sqrt_sqrt. apply quaternion_norm2_nonneg. Qed.

Lemma quaternion_unit_norm2 (q : Quaternion) :
  0 < quaternion_norm2 q -> quaternion_norm2 (quaternion_unit q) = 1.
Proof.
  intros Hpos. pose proof (quaternion_magnitude_sqr q) as Hm.
  assert (Hm0 : quaternion_magnitude q <> 0) by (intros H0; rewrite H0 in Hm; lra).
  unfold quaternion_unit. set (m := quaternion_magnitude q) in *.
  unfold quaternion_norm2 at 1. cbn [q_w q_x q_y q_z].
  replace (q_w q / m * (q_w q / m) + q_x q / m * (q_x q / m)
           + q_y q / m * (q_y q / m) + q_z q / m * (q_z q / m))
    with (quaternion_norm2 q / (m * m))
    by (unfold quaternion_norm2; field; exact Hm0).
  rewrite Hm. field. lra.
Qed.

Lemma quaternion_unit_magnitude (q : Quaternion) :
  0 < quaternion_norm2 q -> quaternion_magnitude (quaternion_unit q) = 1.
Proof.
  intros Hpos. unfold quaternion_magnitude.
  rewrite (quaternion_unit_norm2 q Hpos). apply sqrt_1.
Qed.

Lemma quaternion_unit_rotate (q : Quaternion) (vx vy vz : R) :
  0 < quaternion_norm2 q ->
  quaternion_rotate (quaternion_unit q) vx vy vz = quaternion_rotate q vx vy vz.
Proof.
  intros Hpos. pose proof (quaternion_magnitude_sqr q) as Hm.
  assert (Hm0 : quaternion_magnitude q <> 0) by (intros H0; rewrite H0 in Hm; lra).
  unfold quaternion_rotate, quaternion_inverse.
  rewrite (quaternion_unit_norm2 q Hpos). rewrite <- Hm.
  unfold quaternion_unit. set (m := quaternion_magnitude q) in *.
  unfold quaternion_mul. cbn [q_w q_x q_y q_z].
  f_equal; field; exact Hm0.
Qed.

Section AttitudeNormalisation.
Context `{Ext : Externals}.

(** What [get_attitude] returns, in terms of the four spline values. *)
Lemma get_attitude_unit_flag (a : Agis) (t : R) (unit : bool) (q : Quaternion) :
  get_attitude a t unit = Ok q ->
  exists s s_w s_x s_y s_z,
    attitude a = Some s /\
    attitude_splines s !! 0%nat = Some s_w /\
    attitude_splines s !! 1%nat = Some s_x /\
    attitude_splines s !! 2%nat = Some s_y /\
    attitude_splines s !! 3%nat = Some s_z /\
    q = (if unit
         then quaternion_unit
                (mkQuaternion (bspline_call s_w t) (bspline_call s_x t)
                              (bspline_call s_y t) (bspline_call s_z t))
         else mkQuaternion (bspline_call s_w t) (bspline_call s_x t)
                           (bspline_call s_y t) (bspline_call s_z t)).
Proof.
  unfold get_attitude, attitude_attr.
  destruct (attitude a) as [s|]; [|discriminate]. cbn [rbind].
  destruct (index (attitude_splines s) 0) as [s_w|] eqn:H0; [|discriminate].
  destruct (index (attitude_splines s) 1) as [s_x|] eqn:H1; [|discriminate].
  destruct (index (attitude_splines s) 2) as [s_y|] eqn:H2; [|discriminate].
  destruct (index (attitude_splines s) 3) as [s_z|] eqn:H3; [|discriminate].
  cbn [rbind]. intros [= <-].
  apply index_Ok in H0, H1, H2, H3.
  exists s, s_w, s_x, s_y, s_z. auto 10.
Qed.

(** C6 (amended).  [get_attitude(t)] with its default [unit=True] returns
    the quaternion of the four spline values renormalised by [unit()]: when
    the four values are not all zero it has unit norm and rotates every
    vector as the unnormalised quaternion does.  [get_attitude(t, unit=False)]
    returns the four spline values as they are, and that unnormalised
    quaternion is the one the attitude-block assembly hands to
    [compute_dR_dq]. *)
Theorem C6_default_attitude_is_renormalised (a : Agis) (t : R) (q : Quaternion) :
  get_attitude a t true = Ok q ->
  exists raw,
    get_attitude a t false = Ok raw /\
    q = quaternion_unit raw /\
    (~ (q_w raw = 0 /\ q_x raw = 0 /\ q_y raw = 0 /\ q_z raw = 0) ->
     quaternion_magnitude q = 1 /\
     forall vx vy vz,
       quaternion_rotate q vx vy vz = quaternion_rotate raw vx vy vz) /\
    (forall m n block,
       Naa_mn_term a m n t = Ok block ->
       exists cs s obs_time_index basis_m basis_n,
         attitude a = Some s /\
         block
         = mat4_add
             (outer (col4_scale_l (attitude_regularisation_factor a ^ 2)
                       (compute_DL_da_i
                          (compute_coeff_basis_sum (att_coeffs s) (att_bases s)
                             (get_left_index (att_knots s) t (M a)) (M a)
                             obs_time_index)
                          (att_bases s) obs_time_index n))
                    (compute_DL_da_i
                       (compute_coeff_basis_sum (att_coeffs s) (att_bases s)
                          (get_left_index (att_knots s) t (M a)) (M a)
                          obs_time_index)
                       (att_bases s) obs_time_index m))
             (outer (dR_da_i (compute_dR_dq cs (sat a) raw t) basis_n)
                    (dR_da_i (compute_dR_dq cs (sat a) raw t) basis_m))).
Proof.
  intros Hq.
  destruct (get_attitude_unit_flag a t true q Hq)
    as (s & s_w & s_x & s_y & s_z & Hs & H0 & H1 & H2 & H3 & ->).
  set (raw := mkQuaternion (bspline_call s_w t) (bspline_call s_x t)
                           (bspline_call s_y t) (bspline_call s_z t)).
  assert (Hraw : get_attitude a t false = Ok raw).
  { unfold get_attitude, attitude_attr. rewrite Hs. cbn [rbind].
    rewrite !(proj2 (index_Ok _ _ _) H0), !(proj2 (index_Ok _ _ _) H1),
      !(proj2 (index_Ok _ _ _) H2), !(proj2 (index_Ok _ _ _) H3).
    reflexivity. }
  exists raw. split; [exact Hraw|]. split; [reflexivity|]. split.
  - intros Hnz. pose proof (quaternion_norm2_pos raw Hnz) as Hpos.
    split; [apply quaternion_unit_magnitude; exact Hpos|].
    intros vx vy vz. apply quaternion_unit_rotate. exact Hpos.
  - intros m n block. unfold Naa_mn_term.
    destruct (get_source_index a t) as [si|]; [|discriminate]. cbn [rbind].
    destruct (index (calc_sources a) si) as [cs|]; [|discriminate]. cbn [rbind].
    rewrite Hraw. cbn [rbind]. unfold attitude_attr. rewrite Hs. cbn [rbind].
    destruct (list_index t (all_obs_times a)) as [oti|]; [|discriminate].
    cbn [rbind].
    destruct (index2 (att_bases s) m oti) as [bm|]; [|discriminate]. cbn [rbind].
    destruct (index2 (att_bases s) n oti) as [bn|]; [|discriminate]. cbn [rbind].
    intros [= <-]. exists cs, s, oti, bm, bn. split; reflexivity.
Qed.

End AttitudeNormalisation.

(** C6 fails as stated: on [att_star 0] the quaternion that the assembly
    reconstructs from the splines at time 0 is [(2, 0, 0, 0)], of norm 2. *)
Lemma C6_assembly_attitude_not_renormalised :
  get_attitude (att_star 0) 0 false = Ok (mkQuaternion 2 0 0 0) /\
  quaternion_magnitude (mkQuaternion 2 0 0 0) <> 1.
Proof.
  split; [reflexivity|].
  intros H. pose proof (quaternion_magnitude_sqr (mkQuaternion 2 0 0 0)) as Hm.
  rewrite H in Hm. unfold quaternion_norm2 in Hm. simpl in Hm. lra.
Qed.

(** C6 (amended) on [att_star 0] at time 0. *)
Lemma C6_default_attitude_witness :
  quaternion_magnitude (quaternion_unit (mkQuaternion 2 0 0 0)) = 1.
Proof.
  destruct (C6_default_attitude_is_renormalised (att_star 0) 0
              (quaternion_unit (mkQuaternion 2 0 0 0)) eq_refl)
    as (raw & Hraw & _ & Hunit & _).
  assert (Hr : raw = mkQuaternion 2 0 0 0)
    by (injection Hraw as <-; reflexivity).
  subst raw. apply Hunit. simpl. intros [H _]. lra.
Defined.

(** ** The right-hand side of the attitude block *)

Definition col4_sum (l : list Col4) : Col4 := fold_right col4_add col4_zero l.

Lemma col4_ext (u v : Col4) :
  c_0 u = c_0 v -> c_1 u = c_1 v -> c_2 u = c_2 v -> c_3 u = c_3 v -> u = v.
Proof. destruct u, v; simpl; intros; subst; reflexivity. Qed.

Lemma col4_add_comm (u v : Col4) : col4_add u v = col4_add v u.
Proof. apply col4_ext; simpl; lra. Qed.

Lemma col4_add_assoc (u v w : Col4) :
  col4_add (col4_add u v) w = col4_add u (col4_add v w).
Proof. apply col4_ext; simpl; lra. Qed.

Lemma col4_add_zero_l (u : Col4) : col4_add col4_zero u = u.
Proof. apply col4_ext; simpl; lra. Qed.

Lemma fold_left_col4_add (l : list Col4) :
  forall acc, fold_left col4_add l acc = col4_add acc (col4_sum l).
Proof.
  induction l as [|x l IH]; intros acc; simpl.
  - apply col4_ext; simpl; lra.
  - rewrite IH. apply col4_add_assoc.
Qed.

(** A loop that adds one fallible term per element to an accumulator. *)
Lemma foldM_accumulate {A S} (add : S -> S -> S) (f : A -> result S)
    (l : list A) :
  forall acc,
    foldM (fun s x => do term <- f x; Ok (add s term)) acc l
    = do terms <- mapM f l; Ok (fold_left add terms acc).
Proof.
  induction l as [|x l IH]; intros acc; simpl.
  - reflexivity.
  - destruct (f x) as [term|e]; simpl; [|reflexivity].
    rewrite IH. destruct (mapM f l); reflexivity.
Qed.

Section AttitudeRHS.
Context `{Ext : Externals}.

(** The four quantities that the loop body of [compute_attitude_RHS_n]
    computes at [t_L], in the order of the source: the residual gradient with
    respect to coefficient block [n], the residual, the gradient of the
    smoothness deviation with respect to block [n], and the deviation. *)
Definition attitude_RHS_n_parts (a : Agis) (n_index : nat) (t_L : R)
    : result (Col4 * R * Col4 * R) :=
  do source_index <- get_source_index a t_L;
  do calc_source <- index (calc_sources a) source_index;
  do att <- get_attitude a t_L false;
  do s <- attitude_attr a "att_knots";
  let left_index := get_left_index (att_knots s) t_L (M a) in
  do obs_time_index <- list_index t_L (all_obs_times a);
  let coeff_basis_sum :=
    compute_coeff_basis_sum (att_coeffs s) (att_bases s) left_index (M a)
                            obs_time_index in
  let D_L := compute_attitude_deviation coeff_basis_sum in
  let dDL_da_n :=
    compute_DL_da_i coeff_basis_sum (att_bases s) obs_time_index n_index in
  let dR_dq := compute_dR_dq calc_source (sat a) att t_L in
  do basis_n <- index2 (att_bases s) n_index obs_time_index;
  let dR_da_n := dR_da_i dR_dq basis_n in
  do R_L <- compute_R_L a source_index t_L;
  Ok (dR_da_n, R_L, dDL_da_n, D_L).

(** The residual part and the regularisation part of one term. *)
Definition residual_part (p : Col4 * R * Col4 * R) : Col4 :=
  let '(dR_da_n, R_L, _, _) := p in col4_scale_r dR_da_n R_L.
Definition deviation_part (p : Col4 * R * Col4 * R) : Col4 :=
  let '(_, _, dDL_da_n, D_L) := p in col4_scale_r dDL_da_n D_L.

Lemma attitude_RHS_n_term_parts (a : Agis) (n : nat) (t : R) :
  attitude_RHS_n_term a n t
  = do p <- attitude_RHS_n_parts a n t;
    Ok (col4_add (residual_part p)
          (col4_scale_l (attitude_regularisation_factor a ^ 2)
                        (deviation_part p))).
Proof.
  unfold attitude_RHS_n_term, attitude_RHS_n_parts.
  destruct (get_source_index a t) as [si|]; [|reflexivity]. cbn [rbind].
  destruct (index (calc_sources a) si) as [cs|]; [|reflexivity]. cbn [rbind].
  destruct (get_attitude a t false) as [att|]; [|reflexivity]. cbn [rbind].
  destruct (attitude_attr a "att_knots") as [s|]; [|reflexivity]. cbn [rbind].
  destruct (list_index t (all_obs_times a)) as [oti|]; [|reflexivity].
  cbn [rbind].
  destruct (index2 (att_bases s) n oti) as [bn|]; [|reflexivity]. cbn [rbind].
  destruct (compute_R_L a si t) as [r|]; [|reflexivity]. cbn [rbind].
  f_equal. apply col4_ext; simpl; lra.
Qed.

Lemma col4_sum_split (lam2 : R) (ps : list (Col4 * R * Col4 * R)) :
  col4_sum (map (fun p => col4_add (residual_part p)
                            (col4_scale_l lam2 (deviation_part p))) ps)
  = col4_add (col4_sum (map residual_part ps))
             (col4_scale_l lam2 (col4_sum (map deviation_part ps))).
Proof.
  induction ps as [|p ps IH]; simpl.
  - apply col4_ext; simpl; lra.
  - rewrite IH. apply col4_ext; simpl; lra.
Qed.

Lemma mapM_bind_Ok {A B C} (f : A -> result B) (g : B -> C) (l : list A) :
  mapM (fun x => do b <- f x; Ok (g b)) l
  = do bs <- mapM f l; Ok (map g bs).
Proof.
  induction l as [|x l IH]; simpl; [reflexivity|].
  destruct (f x) as [b|e]; simpl; [|reflexivity].
  rewrite IH. destruct (mapM f l); reflexivity.
Qed.

(** C4 (amended).  [compute_attitude_RHS_n(n)] returns the negation of the
    sum, over the observation times of span [n]'s support, of the residual
    gradient with respect to block [n] times the residual, PLUS lambda^2
    times the gradient of the deviation [D] times [D]: that is, minus the
    residual sum minus lambda^2 times the deviation sum.  With lambda = 0
    the regularisation term is absent. *)
Theorem C4_attitude_RHS_adds_regularisation (a : Agis) (n : nat) (rhs : Col4) :
  compute_attitude_RHS_n a n = Ok rhs ->
  exists s parts,
    attitude a = Some s /\
    mapM (attitude_RHS_n_parts a n)
         (get_times_in_knot_interval (all_obs_times a) (att_knots s) n (M a))
    = Ok parts /\
    rhs = col4_neg
            (col4_add (col4_sum (map residual_part parts))
               (col4_scale_l (attitude_regularisation_factor a ^ 2)
                  (col4_sum (map deviation_part parts)))) /\
    (attitude_regularisation_factor a = 0 ->
     rhs = col4_neg (col4_sum (map residual_part parts))).
Proof.
  unfold compute_attitude_RHS_n, attitude_attr.
  destruct (attitude a) as [s|]; [|discriminate]. cbn [rbind].
  rewrite foldM_accumulate.
  rewrite (mapM_ext _ _ _ (attitude_RHS_n_term_parts a n)).
  rewrite mapM_bind_Ok.
  destruct (mapM (attitude_RHS_n_parts a n) _) as [parts|e] eqn:Hparts;
    [|discriminate].
  cbn [rbind]. intros [= <-].
  exists s, parts. split; [reflexivity|]. split; [exact Hparts|].
  rewrite fold_left_col4_add, col4_add_zero_l, col4_sum_split.
  split; [reflexivity|].
  intros ->. f_equal. apply col4_ext; simpl; lra.
Qed.

End AttitudeRHS.

(** C4 as the claim states it: the regularisation term is subtracted inside
    the negated sum. *)
Definition RHS_n_as_claimed (lambda : R) (parts : list (Col4 * R * Col4 * R))
    : Col4 :=
  col4_neg
    (col4_sum
       (map (fun p => col4_add (residual_part p)
                        (col4_neg (col4_scale_l (lambda ^ 2) (deviation_part p))))
            parts)).

(** C4 fails as stated: on [att_star 1] (lambda = 1, four observations with
    residual 1 and deviation 1) the first component of the right-hand side
    of span 0 is -5, where the claim's formula gives 3. *)
Lemma C4_regularisation_sign :
  exists parts,
    mapM (attitude_RHS_n_parts (att_star 1) 0)
         (@get_times_in_knot_interval
            (toy_externals (solve_checked att_star_candidates))
            (all_obs_times (att_star 1)) [0; 0; 0; 0; 3; 3; 3; 3] 0
            (M (att_star 1))) = Ok parts /\
    compute_attitude_RHS_n (att_star 1) 0 = Ok (mkCol4 (-5) (-1) (-1) (-1)) /\
    c_0 (RHS_n_as_claimed 1 parts) = 3.
Proof.
  eexists. split; [run_all; reflexivity|]. split.
  - run_all. f_equal. apply col4_ext; simpl; lra.
  - simpl. lra.
Qed.

(** C4 (amended) on [att_star 1], span 0. *)
Lemma C4_attitude_RHS_witness :
  exists parts,
    mkCol4 (-5) (-1) (-1) (-1)
    = col4_neg
        (col4_add (col4_sum (map residual_part parts))
           (col4_scale_l (1 ^ 2) (col4_sum (map deviation_part parts)))).
Proof.
  assert (H : compute_attitude_RHS_n (att_star 1) 0
              = Ok (mkCol4 (-5) (-1) (-1) (-1)))
    by (run_all; f_equal; apply col4_ext; simpl; lra).
  destruct (C4_attitude_RHS_adds_regularisation (att_star 1) 0 _ H)
    as (s & parts & _ & _ & Hrhs & _).
  exists parts. exact Hrhs.
Defined.

(** ** The normal equations of one source *)

Lemma mapM_length {A B} (f : A -> result B) (l : list A) (bs : list B) :
  mapM f l = Ok bs -> length bs = length l.
Proof.
  revert bs. induction l as [|x l IH]; intros bs; simpl.
  - intros [= <-]. reflexivity.
  - destruct (f x) as [b|]; [|discriminate]. simpl.
    destruct (mapM f l) as [bs'|]; [|discriminate]. simpl.
    intros [= <-]. simpl. f_equal. apply IH. reflexivity.
Qed.

Lemma mapM_Forall2 {A B} (f : A -> result B) (l : list A) (bs : list B) :
  mapM f l = Ok bs -> Forall2 (fun x b => f x = Ok b) l bs.
Proof.
  revert bs. induction l as [|x l IH]; intros bs; simpl.
  - intros [= <-]. constructor.
  - destruct (f x) as [b|] eqn:Hx; [|discriminate]. simpl.
    destruct (mapM f l) as [bs'|]; [|discriminate]. simpl.
    intros [= <-]. constructor; [exact Hx | apply IH; reflexivity].
Qed.

Lemma Rsum_zip_with_unit_vector (row : Vec) :
  forall (j start : nat),
    Rsum (zip_with Rmult row
            (map (fun i => if Nat.eqb i (start + j) then 1 else 0)
                 (seq start (length row))))
    = nth j row 0.
Proof.
  induction row as [|x row IH]; intros j start; simpl.
  - destruct j; reflexivity.
  - destruct j as [|j].
    + rewrite Nat.add_0_r, Nat.eqb_refl.
      assert (Hz : forall (l : Vec) s, (start < s)%nat ->
                Rsum (zip_with Rmult l
                        (map (fun i => if Nat.eqb i start then 1 else 0)
                             (seq s (length l)))) = 0).
      { clear. induction l as [|y l IHl]; intros s Hs; simpl; [reflexivity|].
        destruct (Nat.eqb_spec s start); [lia|].
        rewrite IHl by lia. lra. }
      rewrite Hz by lia. lra.
    + destruct (Nat.eqb_spec start (start + S j)); [lia|].
      replace (start + S j)%nat with (S start + j)%nat by lia.
      rewrite IH. lra.
Qed.

(** Multiplying on the right by [np.eye(n)] changes nothing. *)
Lemma matmul_eye (n : nat) (m : Matrix) :
  Forall (fun row => length row = n) m -> matmul n m (eye n) = m.
Proof.
  intros Hrows. unfold matmul.
  induction Hrows as [|row m Hrow _ IH]; simpl; [reflexivity|].
  f_equal; [|exact IH].
  apply nth_ext with (d := 0) (d' := 0).
  - rewrite length_map, length_seq. symmetry. exact Hrow.
  - intros j Hj. rewrite length_map, length_seq in Hj.
    rewrite (nth_indep _ 0 (dot row (column (eye n) 0)))
      by (rewrite length_map, length_seq; exact Hj).
    rewrite (map_nth (fun j => dot row (column (eye n) j))).
    rewrite seq_nth by exact Hj. simpl.
    unfold dot, column, eye. rewrite map_map.
    rewrite (map_ext_in _ (fun i => if Nat.eqb i (0 + j) then 1 else 0)).
    + rewrite <- Hrow. apply Rsum_zip_with_unit_vector.
    + intros i Hi. apply in_seq in Hi.
      rewrite (nth_indep _ 0 (if Nat.eqb i 0 then 1 else 0))
        by (rewrite length_map, length_seq; exact Hj).
      rewrite (map_nth (fun j0 => if Nat.eqb i j0 then 1 else 0)).
      rewrite seq_nth by exact Hj. simpl.
      rewrite Nat.eqb_sym. reflexivity.
Qed.

Lemma transpose_rows (p : nat) (m : Matrix) :
  Forall (fun row => length row = length m) (transpose p m).
Proof.
  unfold transpose. induction (seq 0 p) as [|j l IH]; simpl; constructor.
  - unfold column. apply length_map.
  - exact IH.
Qed.

Section SourceNormalEquations.
Context `{Ext : Externals}.

Lemma du_tilde_ds_planes (a : Agis) (i : nat) (tilde : Array3) :
  du_tilde_ds a i = Ok tilde -> length tilde = 5%nat.
Proof.
  unfold du_tilde_ds.
  destruct (index (calc_sources a) i) as [cs|]; [|discriminate]. simpl.
  destruct (index (s_params cs) 0) as [alpha|]; [|discriminate]. simpl.
  destruct (index (s_params cs) 1) as [delta|]; [|discriminate]. simpl.
  destruct (compute_pqr alpha delta) as [[p q] r].
  intros [= <-]. reflexivity.
Qed.

Lemma du_ds_planes (a : Agis) (i : nat) (S_du_ds : Array3) :
  du_ds a i = Ok S_du_ds -> length S_du_ds = 5%nat.
Proof.
  unfold du_ds. destruct (consider_stellar_aberation a); [discriminate|].
  destruct (index (calc_sources a) i) as [cs|] eqn:Hcs; [|discriminate]. simpl.
  destruct (du_tilde_ds a i) as [tilde|] eqn:Ht; [|discriminate]. simpl.
  unfold C_du_ds_to_S_du_ds. rewrite Hcs. simpl.
  intros H. apply mapM_length in H. rewrite H, length_map.
  exact (du_tilde_ds_planes a i tilde Ht).
Qed.

Lemma dR_ds_row_length (a : Agis) (i : nat) (cs : Calc_source)
    (S_du_ds : Array3) (j : nat) (t_L : R) (row : Vec) :
  dR_ds_row a i cs S_du_ds j t_L = Ok row -> length row = length S_du_ds.
Proof.
  unfold dR_ds_row.
  destruct (source_block_attitude a i t_L _) as [att|]; [|discriminate]. simpl.
  destruct (calculated_field_angles cs att (sat a) (INR j) false) as [phi0 zeta0].
  destruct (compute_deviated_angles_color_aberration _ _ _ _) as [phi zeta].
  destruct (compute_mnu phi zeta) as [[m n] u].
  intros [= <-]. rewrite length_zip_with, !length_map.
  unfold slice_last. rewrite length_map. apply Nat.min_id.
Qed.

(** The Jacobian has one row per observation time and five columns. *)
Lemma dR_ds_shape (a : Agis) (i : nat) (cs : Calc_source) (J : Matrix) :
  calc_sources a !! i = Some cs -> dR_ds a i = Ok J ->
  length J = length (obs_times cs) /\ Forall (fun row => length row = 5%nat) J.
Proof.
  intros Hcs. unfold dR_ds. apply index_Ok in Hcs. rewrite Hcs. simpl.
  destruct (du_ds a i) as [S_du_ds|] eqn:Hdu; [|discriminate]. simpl.
  intros H. split.
  - apply mapM_length in H. rewrite H, length_zip, length_seq. lia.
  - apply mapM_Forall2 in H. apply du_ds_planes in Hdu.
    induction H as [|[j t_L] row l rows Hrow _ IH]; constructor; [|exact IH].
    apply dR_ds_row_length in Hrow. lia.
Qed.



End SourceNormalEquations.


(** ** The normal matrix of the attitude block *)

(** *** Sums *)

Lemma Rsum_Permutation (l l' : list R) : Permutation l l' -> Rsum l = Rsum l'.
Proof.
  induction 1 as [|x l l' _ IH|x y l|l l' l'' _ IH1 _ IH2]; simpl;
    [reflexivity | rewrite IH; reflexivity | lra | congruence].
Qed.

Lemma Rsum_map_plus {A} (f g : A -> R) (l : list A) :
  Rsum (map (fun x => f x + g x) l) = Rsum (map f l) + Rsum (map g l).
Proof. induction l as [|x l IH]; simpl; [lra | rewrite IH; lra]. Qed.

Lemma Rsum_map_scale {A} (s : R) (f : A -> R) (l : list A) :
  Rsum (map (fun x => s * f x) l) = s * Rsum (map f l).
Proof. induction l as [|x l IH]; simpl; [lra | rewrite IH; lra]. Qed.

Lemma Rsum_map_zero {A} (l : list A) : Rsum (map (fun _ => 0) l) = 0.
Proof. induction l as [|x l IH]; simpl; [lra | rewrite IH; lra]. Qed.

Lemma Rsum_map_nonneg {A} (f : A -> R) (l : list A) :
  (forall x, 0 <= f x) -> 0 <= Rsum (map f l).
Proof.
  intros Hf. induction l as [|x l IH]; simpl; [lra | specialize (Hf x); lra].
Qed.

Lemma Rsum_map_ext_in {A} (f g : A -> R) (l : list A) :
  (forall x, In x l -> f x = g x) -> Rsum (map f l) = Rsum (map g l).
Proof. intros H. f_equal. apply map_ext_in. exact H. Qed.

Lemma Rsum_cons (x : R) (l : list R) : Rsum (x :: l) = x + Rsum l.
Proof. reflexivity. Qed.

(** The double sum of products is the square of the sum. *)
Lemma Rsum_square {A} (p : A -> R) (l : list A) :
  Rsum (map (fun n => Rsum (map (fun m => p n * p m) l)) l)
  = Rsum (map p l) * Rsum (map p l).
Proof.
  rewrite (Rsum_map_ext_in _ (fun n => Rsum (map p l) * p n)).
  - apply Rsum_map_scale.
  - intros n _. rewrite Rsum_map_scale. lra.
Qed.

(** A Gram matrix summed against itself: a sum of squares. *)
Lemma Rsum_gram {A T} (p q : A -> T -> R) (L : list A) (U : list T) :
  Rsum (map (fun n => Rsum (map (fun m =>
          Rsum (map (fun t => p n t * p m t + q n t * q m t) U)) L)) L)
  = Rsum (map (fun t => Rsum (map (fun n => p n t) L) ^ 2
                        + Rsum (map (fun n => q n t) L) ^ 2) U).
Proof.
  induction U as [|t U IH]; cbn [map].
  - rewrite (Rsum_map_ext_in _ (fun _ => 0)); [exact (Rsum_map_zero L)|].
    intros n _. exact (Rsum_map_zero L).
  - rewrite Rsum_cons, <- IH.
    rewrite (Rsum_map_ext_in _
      (fun n => Rsum (map (fun m => p n t * p m t) L)
                + Rsum (map (fun m => q n t * q m t) L)
                + Rsum (map (fun m => Rsum (map (fun t0 =>
                     p n t0 * p m t0 + q n t0 * q m t0) U)) L))).
    + rewrite !Rsum_map_plus.
      rewrite (Rsum_square (fun n => p n t)), (Rsum_square (fun n => q n t)).
      lra.
    + intros n _. rewrite <- !Rsum_map_plus. apply Rsum_map_ext_in.
      intros m _. reflexivity.
Qed.

(** A sum over the members of [U] that satisfy [P], listed once each. *)
Lemma Rsum_support (f : R -> R) (P : R -> bool) (T U : list R) :
  List.NoDup T -> List.NoDup U -> (forall t, In t T <-> In t U /\ P t = true) ->
  Rsum (map f T) = Rsum (map (fun t => if P t then f t else 0) U).
Proof.
  intros HT HU Hmem.
  assert (Hperm : Permutation T (List.filter P U)).
  { apply Permutation.NoDup_Permutation; [exact HT | apply List.NoDup_filter; exact HU|].
    intros t. rewrite Hmem. symmetry. apply filter_In. }
  rewrite (Rsum_Permutation _ _ (Permutation_map f Hperm)).
  clear. induction U as [|t U IH]; simpl; [reflexivity|].
  destruct (P t); simpl; rewrite IH; lra.
Qed.

(** *** Sorting and intersecting supports *)

Lemma sort_insert_Permutation (x : R) (l : list R) :
  Permutation (sort_insert x l) (x :: l).
Proof.
  induction l as [|y l IH]; simpl; [reflexivity|].
  destruct (Rle_dec x y); [reflexivity|].
  rewrite IH. apply perm_swap.
Qed.

Lemma np_sort_Permutation (l : list R) : Permutation (np_sort l) l.
Proof.
  induction l as [|x l IH]; simpl; [reflexivity|].
  rewrite sort_insert_Permutation. constructor. exact IH.
Qed.

Lemma get_lists_intersection_In (l1 l2 : list R) (t : R) :
  In t (get_lists_intersection l1 l2) <-> In t l1 /\ In t l2.
Proof.
  induction l1 as [|u l1 IH]; simpl; [tauto|].
  destruct (Rmem u l2) eqn:Hu; simpl.
  - apply Rmem_In in Hu.
    destruct (Rmem u (get_lists_intersection l1 l2)) eqn:Hr; simpl.
    + apply Rmem_In in Hr. rewrite IH. split; [tauto|].
      intros [[<-|H1] H2]; [|tauto]. apply IH. exact Hr.
    + rewrite IH. split.
      * intros [<-|H]; tauto.
      * intros [[<-|H1] H2]; tauto.
  - apply Rmem_not_In in Hu. rewrite IH. split; [tauto|].
    intros [[<-|H1] H2]; tauto.
Qed.

Lemma get_lists_intersection_NoDup (l1 l2 : list R) :
  List.NoDup (get_lists_intersection l1 l2).
Proof.
  induction l1 as [|u l1 IH]; simpl; [constructor|].
  destruct (Rmem u l2); simpl; [|exact IH].
  destruct (Rmem u (get_lists_intersection l1 l2)) eqn:Hr; simpl; [exact IH|].
  constructor; [|exact IH]. apply Rmem_not_In. exact Hr.
Qed.

(** *** 4x4 blocks as bilinear forms *)

Definition mat4_apply (b : Mat4) (w : Col4) : Col4 :=
  mkCol4 (col4_dot (m_0 b) w) (col4_dot (m_1 b) w)
         (col4_dot (m_2 b) w) (col4_dot (m_3 b) w).

(** [u.T @ b @ w]. *)
Definition quad (u : Col4) (b : Mat4) (w : Col4) : R :=
  col4_dot u (mat4_apply b w).

Lemma quad_zero (u w : Col4) : quad u mat4_zero w = 0.
Proof. unfold quad, mat4_apply, col4_dot. simpl. lra. Qed.

Lemma quad_add (u w : Col4) (b1 b2 : Mat4) :
  quad u (mat4_add b1 b2) w = quad u b1 w + quad u b2 w.
Proof. unfold quad, mat4_apply, col4_dot. simpl. lra. Qed.

Lemma quad_outer (u w p q : Col4) :
  quad u (outer p q) w = col4_dot u p * col4_dot q w.
Proof. unfold quad, mat4_apply, col4_dot. simpl. lra. Qed.

Lemma quad_fold_left (u w : Col4) (terms : list Mat4) :
  forall acc,
    quad u (fold_left mat4_add terms acc) w
    = quad u acc w + Rsum (map (fun b => quad u b w) terms).
Proof.
  induction terms as [|b terms IH]; intros acc; simpl; [lra|].
  rewrite IH, quad_add. lra.
Qed.

(** The unit column [e_r], and entry [(r, c)] of a block. *)
Definition col4_unit (r : nat) : Col4 :=
  mkCol4 (if Nat.eqb r 0 then 1 else 0) (if Nat.eqb r 1 then 1 else 0)
         (if Nat.eqb r 2 then 1 else 0) (if Nat.eqb r 3 then 1 else 0).

Definition mat4_entry (b : Mat4) (r c0 : nat) : R :=
  nth c0 (col4_list (nth r (mat4_rows b) col4_zero)) 0.

Lemma mat4_entry_quad (b : Mat4) (r c0 : nat) :
  (r < 4)%nat -> (c0 < 4)%nat ->
  mat4_entry b r c0 = quad (col4_unit r) b (col4_unit c0).
Proof.
  intros Hr Hc.
  destruct r as [|[|[|[|r]]]]; [| | | |lia];
    (destruct c0 as [|[|[|[|c0]]]]; [| | | |lia]);
    unfold mat4_entry, quad, mat4_apply, col4_dot; simpl; lra.
Qed.

(** *** Rows of blocks *)

(** The four rows that a list of 4x4 blocks, put side by side, makes. *)
Definition block_rows (blocks : list Mat4) : Matrix :=
  map (fun r => concat (map (fun b => col4_list (nth r (mat4_rows b) col4_zero))
                            blocks))
      (seq 0 4).

(** The array assembled from the rows of blocks [blockss]. *)
Definition assemble (blockss : list (list Mat4)) : Matrix :=
  concat (map block_rows blockss).

Lemma dot_blocks (cs vs : list Col4) :
  dot (concat (map col4_list cs)) (concat (map col4_list vs))
  = Rsum (zip_with col4_dot cs vs).
Proof.
  revert vs. induction cs as [|c0 cs IH]; intros vs; [reflexivity|].
  destruct vs as [|v vs]; [reflexivity|].
  specialize (IH vs). unfold dot in *. simpl. rewrite IH.
  unfold col4_dot. lra.
Qed.

Lemma dot_block_row (g : Mat4 -> Col4) (blocks : list Mat4) (vs : list Col4) :
  dot (concat (map (fun b => col4_list (g b)) blocks))
      (concat (map col4_list vs))
  = Rsum (zip_with (fun b w => col4_dot (g b) w) blocks vs).
Proof.
  rewrite <- (map_map g col4_list), dot_blocks.
  f_equal. revert vs. induction blocks as [|b blocks IH]; intros vs;
    [reflexivity|].
  destruct vs as [|v vs]; [reflexivity|]. simpl. f_equal. apply IH.
Qed.

(** The product of the four rows of blocks with a vector of blocks. *)
Lemma block_rows_apply (u : Col4) (blocks : list Mat4) (vs : list Col4) :
  dot (col4_list u)
      (map (fun row => dot row (concat (map col4_list vs))) (block_rows blocks))
  = Rsum (zip_with (fun b w => quad u b w) blocks vs).
Proof.
  unfold block_rows. cbn [seq map].
  rewrite !(dot_block_row _ blocks vs).
  unfold dot, col4_list. cbn [zip_with Rsum fold_right].
  revert vs. induction blocks as [|b blocks IH]; intros vs; [simpl; lra|].
  destruct vs as [|v vs]; [simpl; ring|].
  cbn [zip_with]. rewrite !Rsum_cons, <- (IH vs).
  unfold quad, mat4_apply, col4_dot. simpl. ring.
Qed.

Lemma assemble_quadratic_form (blockss : list (list Mat4)) (vs us : list Col4) :
  dot (concat (map col4_list us))
      (map (fun row => dot row (concat (map col4_list vs))) (assemble blockss))
  = Rsum (zip_with (fun u blocks =>
                      Rsum (zip_with (fun b w => quad u b w) blocks vs))
                   us blockss).
Proof.
  unfold assemble. revert us.
  induction blockss as [|blocks blockss IH]; intros us.
  - destruct us; simpl.
    + reflexivity.
    + unfold dot. rewrite zip_with_nil_r. reflexivity.
  - destruct us as [|u us]; [reflexivity|].
    cbn [map concat zip_with]. rewrite Rsum_cons.
    rewrite map_app. rewrite <- (IH us), <- block_rows_apply.
    unfold dot.
    assert (Hsplit : forall (a1 b1 a2 b2 : Vec), length a1 = length b1 ->
               Rsum (zip_with Rmult (a1 ++ a2) (b1 ++ b2))
               = Rsum (zip_with Rmult a1 b1) + Rsum (zip_with Rmult a2 b2)).
    { clear. induction a1 as [|x a1 IHa]; intros [|y b1] a2 b2 Hl;
        try discriminate; simpl; [lra|].
      rewrite IHa by (simpl in Hl; lia). lra. }
    apply Hsplit. unfold block_rows. rewrite !length_map. reflexivity.
Qed.

(** Position [4n + r] of a list made of chunks of four. *)
Lemma nth_concat4 {A} (chunks : list (list A)) (d : A) :
  Forall (fun ch => length ch = 4%nat) chunks ->
  forall n r, (r < 4)%nat ->
    nth (4 * n + r) (concat chunks) d = nth r (nth n chunks []) d.
Proof.
  induction 1 as [|ch chunks Hch _ IH]; intros n r Hr.
  - simpl. destruct (4 * n + r)%nat, n, r; reflexivity.
  - destruct n as [|n].
    + simpl. apply app_nth1. lia.
    + cbn [concat nth]. rewrite app_nth2 by lia.
      replace (4 * S n + r - length ch)%nat with (4 * n + r)%nat by lia.
      apply IH. exact Hr.
Qed.

Lemma entry_assemble (blockss : list (list Mat4)) (n m r c0 : nat) :
  (r < 4)%nat -> (c0 < 4)%nat ->
  entry (assemble blockss) (4 * n + r) (4 * m + c0)
  = mat4_entry (nth m (nth n blockss []) mat4_zero) r c0.
Proof.
  intros Hr Hc. unfold entry, assemble.
  rewrite nth_concat4; [|apply List.Forall_forall; intros ch Hin|exact Hr].
  2: { apply in_map_iff in Hin. destruct Hin as (blocks & <- & _).
       unfold block_rows. rewrite length_map. reflexivity. }
  destruct (Nat.lt_ge_cases n (length blockss)) as [Hn|Hn].
  - rewrite (nth_indep _ [] (block_rows [])) by (rewrite length_map; exact Hn).
    rewrite (map_nth block_rows).
    unfold block_rows at 1.
    rewrite (nth_indep _ [] ((fun r0 => concat (map (fun b =>
               col4_list (nth r0 (mat4_rows b) col4_zero))
               (nth n blockss []))) 0%nat))
      by (rewrite length_map; exact Hr).
    rewrite (map_nth (fun r0 => concat (map (fun b =>
               col4_list (nth r0 (mat4_rows b) col4_zero))
               (nth n blockss [])))).
    rewrite seq_nth by exact Hr. cbn [Nat.add].
    rewrite nth_concat4; [|apply List.Forall_forall; intros ch Hin|exact Hc].
    2: { apply in_map_iff in Hin. destruct Hin as (b & <- & _). reflexivity. }
    destruct (Nat.lt_ge_cases m (length (nth n blockss []))) as [Hm|Hm].
    + rewrite (nth_indep _ [] ((fun b => col4_list
                 (nth r (mat4_rows b) col4_zero)) mat4_zero))
        by (rewrite length_map; exact Hm).
      rewrite (map_nth (fun b => col4_list (nth r (mat4_rows b) col4_zero))).
      reflexivity.
    + rewrite (nth_overflow (map _ _)) by (rewrite length_map; exact Hm).
      rewrite (nth_overflow (nth n blockss [])) by exact Hm.
      unfold mat4_entry.
      destruct r as [|[|[|[|r]]]]; [| | | |lia];
        (destruct c0 as [|[|[|[|c0]]]]; [| | | |lia]); reflexivity.
  - rewrite (nth_overflow (map _ _)) by (rewrite length_map; exact Hn).
    rewrite (nth_overflow blockss) by exact Hn.
    unfold mat4_entry.
    rewrite !(nth_overflow []) by (simpl; lia).
    destruct r as [|[|[|[|r]]]]; [| | | |lia];
      (destruct c0 as [|[|[|[|c0]]]]; [| | | |lia]); reflexivity.
Qed.

(** *** Lists read position by position *)

Definition from_ok {A} (d : A) (r : result A) : A :=
  match r with Ok x => x | Raise _ => d end.

Lemma mapM_Ok_map {A B} (d : B) (f : A -> result B) (l : list A) (bs : list B) :
  mapM f l = Ok bs ->
  bs = map (fun x => from_ok d (f x)) l /\
  (forall x, In x l -> f x = Ok (from_ok d (f x))).
Proof.
  revert bs. induction l as [|x l IH]; intros bs; simpl.
  - intros [= <-]. split; [reflexivity | tauto].
  - destruct (f x) as [b|] eqn:Hx; [|discriminate]. cbn [rbind].
    destruct (mapM f l) as [bs'|]; [|discriminate]. cbn [rbind].
    intros [= <-]. destruct (IH bs' eq_refl) as [-> Hall]. split.
    + reflexivity.
    + intros y [<-|Hy]; [rewrite Hx; reflexivity | apply Hall; exact Hy].
Qed.

Lemma zip_with_map_map {A B C D} (f : B -> C -> D) (g : A -> B) (h : A -> C)
    (l : list A) :
  zip_with f (map g l) (map h l) = map (fun x => f (g x) (h x)) l.
Proof. induction l as [|x l IH]; simpl; [reflexivity | rewrite IH; reflexivity]. Qed.

Lemma list_as_map_seq {A} (d : A) (l : list A) :
  l = map (fun i => nth i l d) (seq 0 (length l)).
Proof.
  induction l as [|x l IH]; simpl; [reflexivity|].
  f_equal. rewrite <- seq_shift, map_map. exact IH.
Qed.

Lemma nth_map_seq {A} (f : nat -> A) (d : A) (D n : nat) :
  nth n (map f (seq 0 D)) d = if Nat.ltb n D then f n else d.
Proof.
  destruct (Nat.ltb_spec n D) as [Hn|Hn].
  - rewrite (nth_indep _ d (f 0%nat)) by (rewrite length_map, length_seq; exact Hn).
    rewrite (map_nth f), seq_nth by exact Hn. reflexivity.
  - apply nth_overflow. rewrite length_map, length_seq. exact Hn.
Qed.

(** A vector of [4 D] entries is a list of [D] columns of four. *)
Lemma chunk4 (D : nat) :
  forall v : Vec, length v = (4 * D)%nat ->
    exists vs : list Col4, length vs = D /\ v = concat (map col4_list vs).
Proof.
  induction D as [|D IH]; intros v Hv.
  - exists []. destruct v; [split; reflexivity | discriminate].
  - destruct v as [|x0 [|x1 [|x2 [|x3 v]]]]; simpl in Hv; try lia.
    destruct (IH v) as (vs & Hlen & ->); [lia|].
    exists (mkCol4 x0 x1 x2 x3 :: vs). split; [simpl; lia | reflexivity].
Qed.

Lemma length_assemble (blockss : list (list Mat4)) :
  length (assemble blockss) = (4 * length blockss)%nat.
Proof.
  unfold assemble. induction blockss as [|blocks blockss IH]; [reflexivity|].
  cbn [map concat]. rewrite length_app, IH. unfold block_rows.
  rewrite length_map, length_seq. simpl. lia.
Qed.

(** The quadratic form of an array of [D x D] blocks, block by block. *)
Lemma quadratic_form_blocks (Bf : nat -> nat -> Mat4) (vf : nat -> Col4)
    (D : nat) :
  dot (concat (map col4_list (map vf (seq 0 D))))
      (map (fun row => dot row (concat (map col4_list (map vf (seq 0 D)))))
           (assemble (map (fun n => map (fun m => Bf m n) (seq 0 D))
                          (seq 0 D))))
  = Rsum (map (fun n => Rsum (map (fun m => quad (vf n) (Bf m n) (vf m))
                                  (seq 0 D)))
              (seq 0 D)).
Proof.
  rewrite assemble_quadratic_form, zip_with_map_map.
  apply Rsum_map_ext_in. intros n _. rewrite zip_with_map_map. reflexivity.
Qed.

Section AttitudeNormalMatrix.
Context `{Ext : Externals}.

(** The two gradients that [compute_Naa_mn] computes at [t_L] for the
    coefficient block [n]: of the smoothness deviation ([dDL_da_n]) and of
    the residual ([dR_da_n]). *)
Definition attitude_gradients (a : Agis) (n_index : nat) (t_L : R)
    : result (Col4 * Col4) :=
  do source_index <- get_source_index a t_L;
  do calc_source <- index (calc_sources a) source_index;
  do att <- get_attitude a t_L false;
  do s <- attitude_attr a "att_knots";
  let left_index := get_left_index (att_knots s) t_L (M a) in
  do obs_time_index <- list_index t_L (all_obs_times a);
  let coeff_basis_sum :=
    compute_coeff_basis_sum (att_coeffs s) (att_bases s) left_index (M a)
                            obs_time_index in
  let dDL_da_n :=
    compute_DL_da_i coeff_basis_sum (att_bases s) obs_time_index n_index in
  let dR_dq := compute_dR_dq calc_source (sat a) att t_L in
  do basis_n <- index2 (att_bases s) n_index obs_time_index;
  Ok (dDL_da_n, dR_da_i dR_dq basis_n).

(** [lambda * dDL_da_n] and [dR_da_n], null where the code would raise. *)
Definition deviation_gradient (a : Agis) (n_index : nat) (t_L : R) : Col4 :=
  col4_scale_l (attitude_regularisation_factor a)
    (fst (from_ok (col4_zero, col4_zero) (attitude_gradients a n_index t_L))).
Definition residual_gradient (a : Agis) (n_index : nat) (t_L : R) : Col4 :=
  snd (from_ok (col4_zero, col4_zero) (attitude_gradients a n_index t_L)).

(** What one observation time adds to [u.T @ Naa_mn @ w]. *)
Definition gram_term (a : Agis) (u w : Col4) (m_index n_index : nat) (t_L : R)
    : R :=
  col4_dot u (deviation_gradient a n_index t_L)
  * col4_dot (deviation_gradient a m_index t_L) w
  + col4_dot u (residual_gradient a n_index t_L)
    * col4_dot (residual_gradient a m_index t_L) w.

Lemma Naa_mn_term_quad (a : Agis) (m n : nat) (t : R) (b : Mat4) (u w : Col4) :
  Naa_mn_term a m n t = Ok b -> quad u b w = gram_term a u w m n t.
Proof.
  unfold Naa_mn_term, gram_term, deviation_gradient, residual_gradient,
    attitude_gradients.
  destruct (get_source_index a t) as [si|]; [|discriminate]. cbn [rbind].
  destruct (index (calc_sources a) si) as [cs|]; [|discriminate]. cbn [rbind].
  destruct (get_attitude a t false) as [att|]; [|discriminate]. cbn [rbind].
  destruct (attitude_attr a "att_knots") as [s|]; [|discriminate]. cbn [rbind].
  destruct (list_index t (all_obs_times a)) as [oti|]; [|discriminate].
  cbn [rbind].
  destruct (index2 (att_bases s) m oti) as [bm|]; [|discriminate]. cbn [rbind].
  destruct (index2 (att_bases s) n oti) as [bn|]; [|discriminate]. cbn [rbind].
  intros [= <-]. rewrite quad_add, !quad_outer.
  cbn [from_ok fst snd]. unfold col4_dot, col4_scale_l, col4_map.
  cbn [c_0 c_1 c_2 c_3]. ring.
Qed.

Lemma compute_Naa_mn_quad (a : Agis) (s : Attitude_state) (m n : nat)
    (b : Mat4) (u w : Col4) :
  attitude a = Some s -> compute_Naa_mn a m n = Ok b ->
  quad u b w
  = Rsum (map (gram_term a u w m n) (time_support_spline_mn a s m n)).
Proof.
  intros Hatt. unfold compute_Naa_mn, attitude_attr. rewrite Hatt.
  cbn [rbind]. rewrite foldM_accumulate.
  destruct (mapM (Naa_mn_term a m n) _) as [terms|] eqn:Hterms; [|discriminate].
  cbn [rbind]. intros [= <-]. rewrite quad_fold_left, quad_zero.
  apply mapM_Forall2 in Hterms.
  induction Hterms as [|t b T terms Hb _ IH]; [simpl; lra|].
  cbn [map]. rewrite !Rsum_cons.
  rewrite (Naa_mn_term_quad a m n t b u w Hb). lra.
Qed.

(** The observation times in the support of span [n]. *)
Definition span_support (a : Agis) (s : Attitude_state) (n_index : nat)
    : list R :=
  get_times_in_knot_interval (all_obs_times a) (att_knots s) n_index (M a).

(** The times in the support of some span, each once. *)
Definition all_support (a : Agis) (s : Attitude_state) : list R :=
  nodup Req_dec_T
    (concat (map (span_support a s) (seq 0 (ncols (att_coeffs s))))).

Lemma compute_Naa_mn_quad_all (a : Agis) (s : Attitude_state) (m n : nat)
    (b : Mat4) (u w : Col4) :
  attitude a = Some s ->
  (m < ncols (att_coeffs s))%nat -> (n < ncols (att_coeffs s))%nat ->
  compute_Naa_mn a m n = Ok b ->
  quad u b w
  = Rsum (map (fun t => if Rmem t (span_support a s m)
                           && Rmem t (span_support a s n)
                        then gram_term a u w m n t else 0)
              (all_support a s)).
Proof.
  intros Hatt Hm Hn Hb.
  rewrite (compute_Naa_mn_quad a s m n b u w Hatt Hb).
  unfold time_support_spline_mn.
  rewrite (Rsum_Permutation _ _
             (Permutation_map _ (np_sort_Permutation _))).
  apply Rsum_support.
  - apply get_lists_intersection_NoDup.
  - apply NoDup_nodup.
  - intros t. rewrite get_lists_intersection_In.
    unfold all_support. rewrite nodup_In, andb_true_iff, !Rmem_In.
    unfold span_support. split; [|tauto].
    intros [H1 H2]. split; [|tauto].
    apply in_concat. eexists. split; [|exact H1].
    apply in_map_iff. exists m. split; [reflexivity|].
    apply in_seq. lia.
Qed.

(** The blocks of the array that [compute_attitude_LHS] assembles. *)
Lemma attitude_LHS_blocks (a : Agis) (N_aa : Matrix) :
  attitude_LHS a = Ok N_aa ->
  exists (s : Attitude_state) (Bf : nat -> nat -> Mat4),
    attitude a = Some s /\
    N_aa = assemble (map (fun n => map (fun m => Bf m n)
                                       (seq 0 (ncols (att_coeffs s))))
                         (seq 0 (ncols (att_coeffs s)))) /\
    forall m n, (m < ncols (att_coeffs s))%nat ->
                (n < ncols (att_coeffs s))%nat ->
                compute_Naa_mn a m n = Ok (Bf m n).
Proof.
  unfold attitude_LHS, attitude_attr.
  destruct (attitude a) as [s|]; [|discriminate]. cbn [rbind].
  set (D := ncols (att_coeffs s)).
  rewrite (mapM_ext _ (fun n => do blocks <- mapM (fun m => compute_Naa_mn a m n)
                                               (seq 0 D);
                                Ok (block_rows blocks)))
    by (intros n; reflexivity).
  rewrite mapM_bind_Ok.
  destruct (mapM _ (seq 0 D)) as [blockss|] eqn:Hb; [|discriminate].
  cbn [rbind]. intros [= <-].
  exists s, (fun m n => from_ok mat4_zero (compute_Naa_mn a m n)).
  destruct (mapM_Ok_map [] _ _ _ Hb) as [-> Hall].
  assert (Hin : forall n, In n (seq 0 D) ->
            mapM (fun m => compute_Naa_mn a m n) (seq 0 D)
            = Ok (map (fun m => from_ok mat4_zero (compute_Naa_mn a m n))
                      (seq 0 D)) /\
            forall m, In m (seq 0 D) ->
              compute_Naa_mn a m n
              = Ok (from_ok mat4_zero (compute_Naa_mn a m n))).
  { intros n Hn. specialize (Hall n Hn).
    destruct (mapM_Ok_map mat4_zero _ _ _ Hall) as [Hrow Hblocks].
    split; [|exact Hblocks]. rewrite Hall. f_equal. exact Hrow. }
  split; [reflexivity|]. split.
  - unfold assemble. do 2 f_equal. apply map_ext_in. intros n Hn.
    destruct (Hin n Hn) as [-> _]. reflexivity.
  - intros m n Hm Hn.
    apply (proj2 (Hin n (proj2 (in_seq _ _ _) (conj (Nat.le_0_l n) Hn)))).
    apply in_seq. lia.
Qed.

End AttitudeNormalMatrix.

Lemma nth_blocks (Bf : nat -> nat -> Mat4) (D n m : nat) :
  nth m (nth n (map (fun n => map (fun m => Bf m n) (seq 0 D)) (seq 0 D)) [])
      mat4_zero
  = if Nat.ltb n D && Nat.ltb m D then Bf m n else mat4_zero.
Proof.
  rewrite nth_map_seq. destruct (Nat.ltb n D); cbn [andb].
  - exact (nth_map_seq (fun m0 => Bf m0 n) mat4_zero D m).
  - destruct m; reflexivity.
Qed.

Lemma col4_dot_unit_l (r : nat) (g : Col4) :
  (r < 4)%nat -> col4_dot (col4_unit r) g = nth r (col4_list g) 0.
Proof.
  intros Hr. destruct r as [|[|[|[|r]]]]; [| | | |lia];
    unfold col4_dot; simpl; lra.
Qed.

Lemma col4_dot_comm (u v : Col4) : col4_dot u v = col4_dot v u.
Proof. unfold col4_dot. lra. Qed.

Section AttitudeNormalMatrixClaim.
Context `{Ext : Externals}.

Lemma Naa_mn_term_gradients_ok (a : Agis) (m n : nat) (t : R) (b : Mat4) :
  Naa_mn_term a m n t = Ok b ->
  is_ok (attitude_gradients a n t) = true /\
  is_ok (attitude_gradients a m t) = true.
Proof.
  unfold Naa_mn_term, attitude_gradients.
  destruct (get_source_index a t) as [si|]; [|discriminate]. cbn [rbind].
  destruct (index (calc_sources a) si) as [cs|]; [|discriminate]. cbn [rbind].
  destruct (get_attitude a t false) as [att|]; [|discriminate]. cbn [rbind].
  destruct (attitude_attr a "att_knots") as [s|]; [|discriminate]. cbn [rbind].
  destruct (list_index t (all_obs_times a)) as [oti|]; [|discriminate].
  cbn [rbind].
  destruct (index2 (att_bases s) m oti) as [bm|]; [|discriminate]. cbn [rbind].
  destruct (index2 (att_bases s) n oti) as [bn|]; [|discriminate]. cbn [rbind].
  intros _. split; reflexivity.
Qed.

Lemma compute_Naa_mn_gradients_ok (a : Agis) (s : Attitude_state) (m n : nat)
    (b : Mat4) :
  attitude a = Some s -> compute_Naa_mn a m n = Ok b ->
  Forall (fun t => is_ok (attitude_gradients a n t) = true /\
                   is_ok (attitude_gradients a m t) = true)
         (time_support_spline_mn a s m n).
Proof.
  intros Hatt. unfold compute_Naa_mn, attitude_attr. rewrite Hatt.
  cbn [rbind]. rewrite foldM_accumulate.
  destruct (mapM (Naa_mn_term a m n) _) as [terms|] eqn:Hterms; [|discriminate].
  intros _. apply mapM_Forall2 in Hterms.
  induction Hterms as [|t b0 T terms Hb _ IH]; constructor; [|exact IH].
  exact (Naa_mn_term_gradients_ok a m n t b0 Hb).
Qed.

(** C5. The array that [compute_attitude_LHS] assembles and stores in
    [N_aa] is symmetric and positive semi-definite: [v.T @ N_aa @ v >= 0]
    for every vector [v] of its size.  This holds for any number of sources
    and any regularisation factor.  With the regularisation factor 0, entry
    [(r, c)] of the block in block-row [n] and block-column [m] is the sum,
    over the observation times in the intersection of the supports of spans
    [m] and [n], of the product of component [r] of the residual gradient
    with respect to block [n] and component [c] of the residual gradient
    with respect to block [m] (the outer product of the two gradients), these
    gradients being computed without error at each of these times. *)
Theorem C5_attitude_LHS_symmetric_psd (a a' : Agis) (LHS : Matrix) :
  compute_attitude_LHS a = (Ok LHS, a') ->
  N_aa a' = Some LHS /\
  (forall i j, entry LHS i j = entry LHS j i) /\
  (forall v : Vec, length v = length LHS ->
     0 <= dot v (map (fun row => dot row v) LHS)) /\
  exists s : Attitude_state,
    attitude a = Some s /\
    length LHS = (4 * ncols (att_coeffs s))%nat /\
    (attitude_regularisation_factor a = 0 ->
     forall n m r c0 : nat,
       (n < ncols (att_coeffs s))%nat -> (m < ncols (att_coeffs s))%nat ->
       (r < 4)%nat -> (c0 < 4)%nat ->
       Forall (fun t => is_ok (attitude_gradients a n t) = true /\
                        is_ok (attitude_gradients a m t) = true)
              (time_support_spline_mn a s m n) /\
       entry LHS (4 * n + r) (4 * m + c0)
       = Rsum (map (fun t =>
                      nth r (col4_list (residual_gradient a n t)) 0
                      * nth c0 (col4_list (residual_gradient a m t)) 0)
                   (time_support_spline_mn a s m n))).
Proof.
  unfold compute_attitude_LHS.
  destruct (attitude_attr a "att_coeffs") as [s0|]; [|intros [= ]].
  rewrite attitude_LHS_print.
  destruct (attitude_LHS a) as [N0|] eqn:HN; [|intros [= ]].
  intros [= -> <-]. split; [reflexivity|].
  destruct (attitude_LHS_blocks a LHS HN) as (s & Bf & Hatt & -> & HB).
  set (D := ncols (att_coeffs s)) in *.
  split; [|split; [|exists s; split; [exact Hatt|split]]].
  - (* symmetry *)
    intros i j.
    pose proof (Nat.div_mod_eq i 4) as Hi.
    pose proof (Nat.mod_upper_bound i 4 ltac:(lia)) as Hr.
    pose proof (Nat.div_mod_eq j 4) as Hj.
    pose proof (Nat.mod_upper_bound j 4 ltac:(lia)) as Hc.
    revert Hi Hr Hj Hc.
    generalize (i / 4)%nat (i mod 4)%nat (j / 4)%nat (j mod 4)%nat.
    intros n r m c0 -> Hr -> Hc.
    rewrite !entry_assemble by assumption. rewrite !nth_blocks.
    rewrite (andb_comm (Nat.ltb m D)).
    destruct (Nat.ltb_spec n D) as [Hn|Hn]; cbn [andb].
    2: { unfold mat4_entry.
         destruct r as [|[|[|[|r]]]]; [| | | |lia];
           (destruct c0 as [|[|[|[|c0]]]]; [| | | |lia]); reflexivity. }
    destruct (Nat.ltb_spec m D) as [Hm|Hm].
    2: { unfold mat4_entry.
         destruct r as [|[|[|[|r]]]]; [| | | |lia];
           (destruct c0 as [|[|[|[|c0]]]]; [| | | |lia]); reflexivity. }
    rewrite !mat4_entry_quad by assumption.
    rewrite (compute_Naa_mn_quad_all a s m n _ _ _ Hatt Hm Hn (HB m n Hm Hn)).
    rewrite (compute_Naa_mn_quad_all a s n m _ _ _ Hatt Hn Hm (HB n m Hn Hm)).
    apply Rsum_map_ext_in. intros t _.
    rewrite (andb_comm (Rmem t (span_support a s n))).
    destruct (_ && _); [|reflexivity].
    unfold gram_term, col4_dot. ring.
  - (* positive semi-definiteness *)
    intros v Hv. rewrite length_assemble, length_map, length_seq in Hv.
    destruct (chunk4 D v Hv) as (vs & Hlen & ->).
    rewrite (list_as_map_seq col4_zero vs), Hlen.
    set (vf := fun i => nth i vs col4_zero).
    rewrite quadratic_form_blocks.
    set (p := fun (n : nat) (t : R) =>
                (if Rmem t (span_support a s n) then 1 else 0)
                * col4_dot (vf n) (deviation_gradient a n t)).
    set (q := fun (n : nat) (t : R) =>
                (if Rmem t (span_support a s n) then 1 else 0)
                * col4_dot (vf n) (residual_gradient a n t)).
    rewrite (Rsum_map_ext_in _
      (fun n => Rsum (map (fun m => Rsum (map (fun t =>
                   p n t * p m t + q n t * q m t) (all_support a s)))
                   (seq 0 D)))).
    + rewrite Rsum_gram. apply Rsum_map_nonneg. intros t.
      pose proof (pow2_ge_0 (Rsum (map (fun n => p n t) (seq 0 D)))).
      pose proof (pow2_ge_0 (Rsum (map (fun n => q n t) (seq 0 D)))).
      lra.
    + intros n Hn. apply Rsum_map_ext_in. intros m Hm.
      apply in_seq in Hn, Hm.
      rewrite (compute_Naa_mn_quad_all a s m n _ _ _ Hatt
                 ltac:(lia) ltac:(lia) (HB m n ltac:(lia) ltac:(lia))).
      apply Rsum_map_ext_in. intros t _. unfold p, q, gram_term.
      rewrite (col4_dot_comm _ (vf m)), (col4_dot_comm _ (vf m)).
      destruct (Rmem t (span_support a s m)),
               (Rmem t (span_support a s n)); cbn [andb]; ring.
  - rewrite length_assemble, length_map, length_seq. reflexivity.
  - (* the blocks without regularisation *)
    intros Hlam n m r c0 Hn Hm Hr Hc.
    split; [exact (compute_Naa_mn_gradients_ok a s m n _ Hatt (HB m n Hm Hn))|].
    rewrite entry_assemble by assumption. rewrite nth_blocks.
    destruct (Nat.ltb_spec n D) as [_|]; [|lia].
    destruct (Nat.ltb_spec m D) as [_|]; [|lia]. cbn [andb].
    rewrite mat4_entry_quad by assumption.
    rewrite (compute_Naa_mn_quad a s m n _ _ _ Hatt (HB m n Hm Hn)).
    apply Rsum_map_ext_in. intros t _. unfold gram_term.
    rewrite (col4_dot_comm _ (col4_unit c0)).
    rewrite (col4_dot_comm (residual_gradient a m t)).
    rewrite !col4_dot_unit_l by assumption.
    unfold deviation_gradient. rewrite Hlam.
    assert (Hz : forall (g : Col4) k, nth k (col4_list (col4_scale_l 0 g)) 0 = 0).
    { intros g [|[|[|[|[|k]]]]]; simpl; lra. }
    rewrite !Hz. lra.
Qed.

End AttitudeNormalMatrixClaim.

(** C5 at the one star of [att_star 0], observed four times: the array is
    the 4x4 identity. *)
Lemma C5_attitude_LHS_witness :
  exists (a' : Agis) (LHS : Matrix),
    compute_attitude_LHS (att_star 0) = (Ok LHS, a') /\
    N_aa a' = Some LHS /\
    (forall i j, entry LHS i j = entry LHS j i) /\
    (forall v : Vec, length v = length LHS ->
       0 <= dot v (map (fun row => dot row v) LHS)).
Proof.
  assert (H : exists a',
            compute_attitude_LHS (att_star 0)
            = (Ok [[1; 0; 0; 0]; [0; 1; 0; 0]; [0; 0; 1; 0]; [0; 0; 0; 1]], a')).
  { unfold compute_attitude_LHS.
    destruct (attitude_attr (att_star 0) "att_coeffs") as [s|e] eqn:Hs;
      [|exfalso; revert Hs; run; discriminate].
    rewrite attitude_LHS_print, (att_star_LHS 0 eq_refl).
    eexists. reflexivity. }
  destruct H as [a' H]. eexists a', _. split; [exact H|].
  destruct (C5_attitude_LHS_symmetric_psd _ _ _ H) as (Hst & Hsym & Hpsd & _).
  split; [exact Hst|]. split; [exact Hsym | exact Hpsd].
Defined.

(* ================================================================== *)
(** * Further properties of the solver *)

(** ** The driver *)

Section DriverRuns.
Context `{Ext : Externals}.

(** X1. Calling [iterate(n + m)] is calling [iterate(n)] and then, when
    that call raised nothing, [iterate(m)] on the solver it left; an exception
    in the first [n] passes ends the longer call in the same state. *)
Theorem iterate_continues (a : Agis) (n m : nat) :
  iterate a (n + m)
  = match iterate a n with
    | (Ok _, a1) => iterate a1 m
    | (Raise e, a1) => (Raise e, a1)
    end.
Proof.
  revert a. induction n as [|n IH]; intros a; cbn [Nat.add iterate].
  - reflexivity.
  - destruct (iterate_pass a) as [[[]|e] a1]; [apply IH | reflexivity].
Qed.

(** Every pass counts, also one that an exception ends. *)
Lemma iterate_pass_counter (a a' : Agis) (r : result unit) :
  iterate_pass a = (r, a') -> iter_counter a' = (iter_counter a + 1)%nat.
Proof.
  unfold iterate_pass.
  set (a2 := print (set_iter_counter a (iter_counter a + 1)) _).
  assert (Htail : forall a3 : Agis,
            iter_counter a3 = (iter_counter a + 1)%nat ->
            match
              (if String.eqb (updating a3) "source"
                  || String.eqb (updating a3) "scanned source"
               then update_S_block a3
               else if String.eqb (updating a3) "attitude"
                    then match update_A_block a3 with
                         | (Raise e, a4) => (Raise e, a4)
                         | (Ok _, a4) =>
                             match error_between_func_attitudes
                                     (all_obs_times a4) (func_attitude (sat a4))
                                     (fun t => get_attitude a4 t true) with
                             | Raise e => (Raise e, a4)
                             | Ok err => (Ok tt, print a4 (PrintAttitudeError err))
                             end
                         end
                    else (Ok tt, a3))
            with
            | (Raise e, a5) => (Raise e, a5)
            | (Ok _, a5) =>
                match error_function a5 with
                | Raise e => (Raise e, a5)
                | Ok err => (Ok tt, print a5 (PrintErrorAfter err))
                end
            end = (r, a') ->
            iter_counter a' = (iter_counter a + 1)%nat).
  { intros a3 H3.
    assert (Hend : forall a5 : Agis,
              iter_counter a5 = (iter_counter a + 1)%nat ->
              match error_function a5 with
              | Raise e => (Raise e, a5)
              | Ok err => (Ok tt, print a5 (PrintErrorAfter err))
              end = (r, a') ->
              iter_counter a' = (iter_counter a + 1)%nat).
    { intros a5 H5. destruct (error_function a5); intros [= _ <-]; exact H5. }
    destruct (String.eqb (updating a3) "source"
              || String.eqb (updating a3) "scanned source").
    - destruct (update_S_block a3) as [[[]|e] a5] eqn:Hb;
        unfold update_S_block in Hb; apply for_each_step_set in Hb;
        destruct Hb as [cs ->].
      + apply Hend. exact H3.
      + intros [= _ <-]. exact H3.
    - destruct (String.eqb (updating a3) "attitude"); [|apply Hend; exact H3].
      destruct (update_A_block a3) as [[[]|e] a4] eqn:Hb;
        apply update_A_block_view in Hb; destruct Hb as [(_ & _ & _ & Hic) _].
      + destruct (error_between_func_attitudes _ _ _).
        * apply Hend. cbn [iter_counter print]. congruence.
        * intros [= _ <-]. congruence.
      + intros [= _ <-]. congruence. }
  destruct (verbose a2).
  - destruct (error_function a2) as [err|e].
    + apply Htail. reflexivity.
    + intros [= _ <-]. reflexivity.
  - apply Htail. reflexivity.
Qed.

(** X2. A call [iterate(n)] that raises does so in its first failing
    pass: the passes before it ran to their end, the state is the one that
    pass left when it raised, and the iteration counter has counted the
    failed pass too. *)
Theorem iterate_stops_at_first_failure (a a' : Agis) (n : nat) (e : exn) :
  iterate a n = (Raise e, a') ->
  exists (j : nat) (a_j : Agis),
    (j < n)%nat /\
    iterate a j = (Ok tt, a_j) /\
    iterate_pass a_j = (Raise e, a') /\
    iter_counter a_j = (iter_counter a + j)%nat /\
    iter_counter a' = (iter_counter a + j + 1)%nat.
Proof.
  revert a. induction n as [|n IH]; intros a; cbn [iterate]; [discriminate|].
  destruct (iterate_pass a) as [[[]|e0] a1] eqn:Hp.
  - intros H. apply IH in H. destruct H as (j & a_j & Hj & Hit & Hpass & Hc & Hc').
    exists (S j), a_j. cbn [iterate]. rewrite Hp.
    pose proof (iterate_pass_counter _ _ _ Hp).
    split; [lia|]. split; [exact Hit|]. split; [exact Hpass|]. split; lia.
  - intros [= <- <-]. exists 0%nat, a.
    pose proof (iterate_pass_counter _ _ _ Hp).
    split; [lia|]. split; [reflexivity|]. split; [exact Hp|]. split; lia.
Qed.

(** X3. A solver built without attitude splines and left in the default
    mode "attitude" cannot iterate: the first pass counts and prints its
    banner, then the assembly of the attitude block finds no [att_coeffs]
    attribute; and [get_attitude] finds no [attitude_splines]. *)
Theorem attitude_mode_needs_splines
    (sat0 : Satellite) (calc_sources0 : list Calc_source)
    (real_sources0 : list Source) (spline_degree : nat) (lambda : R)
    (degree_error0 : R) (double_telescope0 : bool) (n : nat) :
  let a := Agis_init sat0 calc_sources0 real_sources0 None false spline_degree
                     lambda "attitude" degree_error0 double_telescope0 in
  iterate a (S n)
  = (Raise (AttributeError "att_coeffs"),
     print (set_iter_counter a 1) (PrintIteration 1)) /\
  N a = 0%nat /\
  forall (t : R) (unit : bool),
    get_attitude a t unit = Raise (AttributeError "attitude_splines").
Proof.
  cbv zeta. split; [reflexivity|]. split; reflexivity.
Qed.

(** X4. With [updating] set to none of the three modes, no block is
    updated, and as soon as some source has an observation the first
    evaluation of the error functional raises ValueError: [iterate] ends in
    its first pass, after the banner. *)
Theorem iterate_unknown_mode (a : Agis) (i : nat) (cs : Calc_source) (n : nat) :
  updating a <> "source"%string -> updating a <> "scanned source"%string ->
  updating a <> "attitude"%string ->
  calc_sources a !! i = Some cs -> obs_times cs <> [] ->
  iterate a (S n)
  = (Raise (ValueError "incorrect value for self.updating"),
     print (set_iter_counter a (iter_counter a + 1))
           (PrintIteration (iter_counter a + 1))).
Proof.
  intros H1 H2 H3 Hcs Hobs.
  apply String.eqb_neq in H1, H2, H3.
  set (a2 := print (set_iter_counter a (iter_counter a + 1))
                   (PrintIteration (iter_counter a + 1))).
  assert (Herr : error_function a2
                 = Raise (ValueError "incorrect value for self.updating")).
  { rewrite error_function_sum_of_squares.
    change (calc_sources a2) with (calc_sources a).
    assert (Hm : forall (l : list (nat * R)), l <> [] ->
              mapM (fun p => compute_R_L a2 (fst p) (snd p)) l
              = Raise (ValueError "incorrect value for self.updating")).
    { intros [|p l] Hl; [congruence|]. cbn [mapM].
      unfold compute_R_L, get_field_angles.
      change (updating a2) with (updating a). rewrite H1, H2, H3.
      reflexivity. }
    rewrite Hm; [reflexivity|].
    clear -Hcs Hobs. generalize 0%nat. revert i Hcs.
    induction (calc_sources a) as [|s l IH]; intros i Hcs i0;
      [discriminate|].
    destruct i as [|i]; cbn [star_time_pairs].
    - injection Hcs as ->. destruct (obs_times cs); [congruence|discriminate].
    - intros Happ. apply app_eq_nil in Happ. destruct Happ as [_ Hnil].
      exact (IH i Hcs (S i0) Hnil). }
  cbn [iterate]. unfold iterate_pass. cbv zeta.
  change (print (set_iter_counter a (iter_counter a + 1))
            (PrintIteration
               (iter_counter (set_iter_counter a (iter_counter a + 1)))))
    with a2.
  destruct (verbose a2).
  - rewrite Herr. reflexivity.
  - change (updating a2) with (updating a). rewrite H1, H2, H3. cbn [orb].
    rewrite Herr. reflexivity.
Qed.

End DriverRuns.

(** X2 at the star of [one_star_singular], whose solve fails in the first
    pass. *)
Lemma iterate_stops_at_first_failure_witness :
  exists (a' a_j : Agis) (j : nat),
    iterate one_star_singular 1 = (Raise LinAlgError, a') /\
    (j < 1)%nat /\
    iterate one_star_singular j = (Ok tt, a_j) /\
    iter_counter a' = (iter_counter one_star_singular + j + 1)%nat.
Proof.
  assert (H : exists a', iterate one_star_singular 1 = (Raise LinAlgError, a')).
  { eexists. cbn. reflexivity. }
  destruct H as [a' H].
  destruct (iterate_stops_at_first_failure one_star_singular a' 1 LinAlgError H)
    as (j & a_j & Hj & Hit & _ & _ & Hc).
  exists a', a_j, j. auto.
Defined.

(** X4 at a star observed once, in a mode named "both". *)
Lemma iterate_unknown_mode_witness :
  fst (iterate
         (@Agis_init (toy_externals solve_identity) tt
            [toy_source "a" [1] [0; 0; 0; 0; 0]] [[1; 0; 0; 0; 0; 0]]
            None false 3 0 "both" 0 false) 2)
  = Raise (ValueError "incorrect value for self.updating").
Proof.
  refine (f_equal fst
            (@iterate_unknown_mode (toy_externals solve_identity) _ 0
               (toy_source "a" [1] [0; 0; 0; 0; 0]) 1 _ _ _ _ _));
    [discriminate | discriminate | discriminate | reflexivity | discriminate].
Defined.

(** ** The error functional *)

Lemma In_star_time_pairs (sources : list Calc_source) :
  forall (i0 i : nat) (t : R),
    In (i, t) (star_time_pairs i0 sources) <->
    exists cs, (i0 <= i)%nat /\ sources !! (i - i0)%nat = Some cs /\
               In t (obs_times cs).
Proof.
  induction sources as [|s rest IH]; intros i0 i t; cbn [star_time_pairs].
  - split; [intros [] | intros (cs & _ & Hcs & _); discriminate].
  - rewrite in_app_iff, in_map_iff, IH. split.
    + intros [(t' & [= <- <-] & Ht) | (cs & Hle & Hcs & Ht)].
      * exists s. rewrite Nat.sub_diag. auto.
      * exists cs. split; [lia|]. split; [|exact Ht].
        replace (i - i0)%nat with (S (i - S i0)) by lia. exact Hcs.
    + intros (cs & Hle & Hcs & Ht).
      destruct (Nat.eq_dec i i0) as [->|Hne].
      * left. rewrite Nat.sub_diag in Hcs. injection Hcs as ->. eauto.
      * right. exists cs. split; [lia|]. split; [|exact Ht].
        replace (i - i0)%nat with (S (i - S i0)) in Hcs by lia. exact Hcs.
Qed.

Lemma Rsum_squares_zero (rs : list R) :
  Rsum (map (fun r => r ^ 2) rs) = 0 <-> Forall (fun r => r = 0) rs.
Proof.
  induction rs as [|r rs IH]; cbn [map].
  - split; [constructor | reflexivity].
  - rewrite Rsum_cons.
    pose proof (pow2_ge_0 r) as Hr.
    pose proof (Rsum_map_nonneg (fun r => r ^ 2) rs pow2_ge_0) as Hrs.
    split.
    + intros H. assert (H0 : r ^ 2 = 0) by lra.
      constructor; [|apply IH; lra].
      apply Rsqr_0_uniq. unfold Rsqr. lra.
    + intros H. inversion H as [|? ? -> Hrest]. subst.
      apply IH in Hrest. rewrite Hrest. lra.
Qed.

Section ErrorFunctional.
Context `{Ext : Externals}.

(** X5. The error functional, when it returns, is not negative, and it
    is 0 exactly when the residual of every star at every one of its
    observation times is 0. *)
Theorem error_function_nonneg (a : Agis) (err : R) :
  error_function a = Ok err ->
  0 <= err /\
  (err = 0 <->
   forall (i : nat) (cs : Calc_source) (t : R),
     calc_sources a !! i = Some cs -> In t (obs_times cs) ->
     compute_R_L a i t = Ok 0).
Proof.
  rewrite error_function_sum_of_squares.
  destruct (mapM _ _) as [rs|] eqn:Hrs; [|discriminate].
  cbn [rbind]. intros [= <-].
  split; [apply Rsum_map_nonneg; intros r; apply pow2_ge_0|].
  rewrite Rsum_squares_zero. apply mapM_Forall2 in Hrs.
  assert (Hall : Forall (fun r => r = 0) rs <->
                 forall p, In p (star_time_pairs 0 (calc_sources a)) ->
                           compute_R_L a (fst p) (snd p) = Ok 0).
  { induction Hrs as [|p r l rs' Hp _ IH].
    - split; [intros _ p [] | constructor].
    - split.
      + intros H. inversion H as [|? ? -> Hrest]. subst.
        intros p' [<-|Hin]; [exact Hp | apply IH; assumption].
      + intros H. constructor.
        * specialize (H p (or_introl eq_refl)). congruence.
        * apply IH. intros p' Hin. apply H. right. exact Hin. }
  rewrite Hall. split.
  - intros H i cs t Hcs Ht. apply (H (i, t)).
    apply In_star_time_pairs. exists cs. rewrite Nat.sub_0_r.
    split; [lia|]. auto.
  - intros H [i t] Hin. apply In_star_time_pairs in Hin.
    destruct Hin as (cs & _ & Hcs & Ht). rewrite Nat.sub_0_r in Hcs.
    exact (H i cs t Hcs Ht).
Qed.

End ErrorFunctional.

(** X5 at the two stars of [two_star]. *)
Lemma error_function_nonneg_witness :
  exists err : R, error_function two_star = Ok err /\ 0 <= err.
Proof.
  assert (H : exists err, error_function two_star = Ok err)
    by (eexists; cbn; reflexivity).
  destruct H as [err H]. exists err. split; [exact H|].
  exact (proj1 (error_function_nonneg two_star err H)).
Defined.

(** ** The source block *)

Lemma iadd_length (params dv q : Vec) :
  iadd params dv = Ok q -> length q = length params.
Proof.
  unfold iadd. destruct (Nat.eqb_spec (length dv) (length params)) as [Hl|Hl].
  - intros [= <-]. rewrite length_zip_with. lia.
  - destruct dv as [|x [|y dv]]; try discriminate.
    intros [= <-]. apply length_map.
Qed.

Lemma dot_comm (u v : Vec) : dot u v = dot v u.
Proof.
  unfold dot. revert v. induction u as [|x u IH]; intros [|y v];
    try reflexivity. cbn [zip_with]. rewrite !Rsum_cons, IH. lra.
Qed.

Lemma dot_map_map {A} (f g : A -> R) (l : list A) :
  dot (map f l) (map g l) = Rsum (map (fun x => f x * g x) l).
Proof. unfold dot. rewrite zip_with_map_map. reflexivity. Qed.

(** [A.T @ A] entry by entry. *)
Lemma gram_matrix (p : nat) (A : Matrix) :
  matmul p (transpose p A) A
  = map (fun i => map (fun j => dot (column A i) (column A j)) (seq 0 p))
        (seq 0 p).
Proof. unfold matmul, transpose. rewrite map_map. reflexivity. Qed.

Lemma gram_matrix_psd (p : nat) (A : Matrix) (v : Vec) :
  length v = p ->
  0 <= dot v (map (fun row => dot row v) (matmul p (transpose p A) A)).
Proof.
  intros Hv. rewrite gram_matrix.
  rewrite (list_as_map_seq 0 v), Hv.
  set (vf := fun i => nth i v 0).
  rewrite map_map.
  rewrite (map_ext
             (fun i => dot (map (fun j => dot (column A i) (column A j))
                                (seq 0 p))
                           (map vf (seq 0 p)))
             (fun i => Rsum (map (fun j =>
                dot (column A i) (column A j) * vf j) (seq 0 p))))
    by (intros i; apply dot_map_map).
  rewrite dot_map_map.
  set (pf := fun (i : nat) (row : Vec) => vf i * nth i row 0).
  rewrite (Rsum_map_ext_in _
    (fun i => Rsum (map (fun j => Rsum (map (fun row =>
                 pf i row * pf j row + 0 * 0) A)) (seq 0 p)))).
  - rewrite (Rsum_gram pf (fun _ _ => 0)).
    apply Rsum_map_nonneg. intros row.
    pose proof (pow2_ge_0 (Rsum (map (fun n => pf n row) (seq 0 p)))).
    pose proof (pow2_ge_0 (Rsum (map (fun _ : nat => 0) (seq 0 p)))).
    lra.
  - intros i _. rewrite <- Rsum_map_scale. apply Rsum_map_ext_in. intros j _.
    unfold column. rewrite dot_map_map.
    transitivity ((vf i * vf j)
                  * Rsum (map (fun row => nth i row 0 * nth j row 0) A));
      [ring|].
    rewrite <- Rsum_map_scale. apply Rsum_map_ext_in. intros row _.
    unfold pf. ring.
Qed.

Section SourceBlockMore.
Context `{Ext : Externals}.

(** X6. An update of one star is all or nothing, and never changes the
    number of its parameters: if [update_block_S_i] raises (an error of the
    assembly, a failed solve, or a solution that cannot be broadcast to the
    parameter array) the solver is exactly as before; otherwise only the
    parameter array of star [i] has changed, keeping its length. *)
Theorem source_update_is_all_or_nothing
    (a a' : Agis) (i : nat) (r : result unit) :
  update_block_S_i a i = (r, a') ->
  match r with
  | Raise _ => a' = a
  | Ok _ =>
      exists (cs : Calc_source) (p : Vec),
        calc_sources a !! i = Some cs /\
        length p = length (s_params cs) /\
        a' = set_calc_sources a (<[i := set_s_params cs p]> (calc_sources a))
  end.
Proof.
  destruct r as [[]|e]; intros H.
  - destruct (update_block_S_i_Ok a a' i H)
      as (LHS & RHS & d2 & cs & p & _ & _ & Hcs & Hadd & Ha').
    exists cs, p. split; [exact Hcs|]. split; [|exact Ha'].
    exact (iadd_length _ _ _ Hadd).
  - exact (update_block_S_i_Raise a a' i e H).
Qed.

(** X7. The histories of a star are extended before its update is
    attempted: when the update of star [i] raises, the star keeps its
    parameters but has one more entry in [s_old] and in [errors], and the
    other stars are as they were. *)
Theorem failed_source_update_keeps_history
    (a a' : Agis) (i : nat) (cs : Calc_source) (err : R) (e : exn) :
  calc_sources a !! i = Some cs ->
  error_function
    (set_calc_sources a
       (<[i := set_s_old cs (s_old cs ++ [ParamsCopy (s_params cs)])]>
          (calc_sources a))) = Ok err ->
  update_S_block_step a i = (Raise e, a') ->
  (exists cs', calc_sources a' !! i = Some cs' /\
               s_params cs' = s_params cs /\
               s_old cs' = s_old cs ++ [ParamsCopy (s_params cs)] /\
               errors cs' = errors cs ++ [err]) /\
  (forall j, j <> i -> calc_sources a' !! j = calc_sources a !! j).
Proof.
  intros Hcs Herr. unfold update_S_block_step.
  rewrite (proj2 (index_Ok _ _ _) Hcs). rewrite Herr.
  intros H. apply update_block_S_i_Raise in H. subst a'.
  assert (Hlt : (i < length (calc_sources a))%nat)
    by (apply lookup_lt_is_Some; eauto).
  cbn [calc_sources set_calc_sources]. split.
  - eexists. split.
    + apply list_lookup_insert_eq. rewrite length_insert. exact Hlt.
    + split; [reflexivity|]. split; reflexivity.
  - intros j Hj. rewrite !list_lookup_insert_ne by auto. reflexivity.
Qed.

(** X8. Whatever the Jacobian, the system that [update_block_S_i] hands
    to the solver has a symmetric positive semi-definite 5x5 matrix
    [A.T @ W @ A] and a 5x1 right-hand side. *)
Theorem source_normal_matrix_symmetric_psd
    (a : Agis) (i : nat) (LHS RHS : Matrix) :
  block_S_normal_equations a i = Ok (LHS, RHS) ->
  length LHS = 5%nat /\ Forall (fun row => length row = 5%nat) LHS /\
  length RHS = 5%nat /\ Forall (fun row => length row = 1%nat) RHS /\
  (forall p q : nat, entry LHS p q = entry LHS q p) /\
  (forall v : Vec, length v = 5%nat ->
     0 <= dot v (map (fun row => dot row v) LHS)).
Proof.
  unfold block_S_normal_equations.
  destruct (index (calc_sources a) i) as [cs|] eqn:Hcs; [|discriminate].
  cbn [rbind]. apply index_Ok in Hcs.
  unfold block_S_error_rate_matrix.
  destruct (dR_ds a i) as [J|] eqn:HJ; [|discriminate]. cbn [rbind].
  destruct (compute_h a i) as [h_|]; [|discriminate]. cbn [rbind].
  destruct (dR_ds_shape a i cs J Hcs HJ) as [Hlen _].
  assert (HlenA : length (mat_neg J) = length (obs_times cs))
    by (unfold mat_neg; rewrite length_map; exact Hlen).
  rewrite matmul_eye by (rewrite <- HlenA; apply transpose_rows).
  intros H.
  assert (HL : LHS = matmul 5 (transpose 5 (mat_neg J)) (mat_neg J))
    by congruence.
  assert (HR : RHS = matmul 1 (transpose 5 (mat_neg J)) h_) by congruence.
  clear H. subst LHS RHS.
  split; [unfold matmul, transpose; rewrite !length_map; reflexivity|].
  split.
  { unfold matmul. apply List.Forall_forall. intros row Hin.
    apply in_map_iff in Hin. destruct Hin as (r0 & <- & _).
    rewrite length_map. reflexivity. }
  split; [unfold matmul, transpose; rewrite !length_map; reflexivity|].
  split.
  { unfold matmul. apply List.Forall_forall. intros row Hin.
    apply in_map_iff in Hin. destruct Hin as (r0 & <- & _).
    rewrite length_map. reflexivity. }
  split.
  - intros p q. rewrite gram_matrix. unfold entry.
    rewrite !nth_map_seq.
    set (A := mat_neg J).
    pose proof (fun i0 => nth_map_seq
                  (fun j => dot (column A i0) (column A j)) 0 5) as Hrow.
    destruct (Nat.ltb p 5) eqn:Hp, (Nat.ltb q 5) eqn:Hq.
    + rewrite (Hrow p q), (Hrow q p), Hp, Hq. apply dot_comm.
    + rewrite (Hrow p q), Hq. destruct p; reflexivity.
    + rewrite (Hrow q p), Hp. destruct q; reflexivity.
    + destruct p, q; reflexivity.
  - intros v Hv. apply gram_matrix_psd. exact Hv.
Qed.

End SourceBlockMore.

(** X6 at star 0 of [two_star]. *)
Lemma source_update_is_all_or_nothing_witness :
  exists (a' : Agis) (cs : Calc_source) (p : Vec),
    update_block_S_i two_star 0 = (Ok tt, a') /\
    calc_sources two_star !! 0%nat = Some cs /\
    length p = length (s_params cs) /\
    calc_sources a' !! 0%nat = Some (set_s_params cs p).
Proof.
  assert (H : exists a', update_block_S_i two_star 0 = (Ok tt, a')).
  { eexists. unfold update_block_S_i.
    cbn -[np_linalg_solve]. run_solver.
    rewrite solve_checked_first by (cbn; repeat f_equal; lra).
    cbn. reflexivity. }
  destruct H as [a' H].
  destruct (source_update_is_all_or_nothing two_star a' 0 (Ok tt) H)
    as (cs & p & Hcs & Hlen & ->).
  eexists _, cs, p. split; [exact H|]. split; [exact Hcs|].
  split; [exact Hlen | reflexivity].
Defined.

(** X7 at the star of [one_star_singular]. *)
Lemma failed_source_update_keeps_history_witness :
  exists (a' : @Agis (toy_externals solve_singular)) (cs' : Calc_source),
    update_S_block_step one_star_singular 0 = (Raise LinAlgError, a') /\
    calc_sources a' !! 0%nat = Some cs' /\
    s_params cs' = [0; 0; 0; 0; 0] /\
    length (s_old cs') = 2%nat /\ length (errors cs') = 1%nat.
Proof.
  assert (H : exists a',
            update_S_block_step one_star_singular 0 = (Raise LinAlgError, a'))
    by (eexists; cbn; reflexivity).
  destruct H as [a' H].
  assert (Herr : exists err, error_function
            (set_calc_sources one_star_singular
               (<[0%nat := set_s_old (toy_source "a" [1] [0; 0; 0; 0; 0])
                          (s_old (toy_source "a" [1] [0; 0; 0; 0; 0])
                           ++ [ParamsCopy
                                 (s_params (toy_source "a" [1] [0; 0; 0; 0; 0]))])]>
                  (calc_sources one_star_singular))) = Ok err)
    by (eexists; cbn; reflexivity).
  destruct Herr as [err Herr].
  destruct (failed_source_update_keeps_history one_star_singular a' 0
              (toy_source "a" [1] [0; 0; 0; 0; 0]) err LinAlgError
              eq_refl Herr H) as [(cs' & Hcs' & Hp & Ho & He) _].
  exists a', cs'. split; [exact H|]. split; [exact Hcs'|].
  split; [exact Hp|]. split; [rewrite Ho | rewrite He]; reflexivity.
Defined.

(** X8 at star 0 of [two_star]. *)
Lemma source_normal_matrix_witness :
  exists LHS RHS : Matrix,
    block_S_normal_equations two_star 0 = Ok (LHS, RHS) /\
    (forall p q : nat, entry LHS p q = entry LHS q p) /\
    (forall v : Vec, length v = 5%nat ->
       0 <= dot v (map (fun row => dot row v) LHS)).
Proof.
  assert (H : exists LHS RHS,
            block_S_normal_equations two_star 0 = Ok (LHS, RHS))
    by (eexists _, _; cbn; reflexivity).
  destruct H as (LHS & RHS & H). exists LHS, RHS. split; [exact H|].
  destruct (source_normal_matrix_symmetric_psd two_star 0 LHS RHS H)
    as (_ & _ & _ & _ & Hsym & Hpsd).
  split; [exact Hsym | exact Hpsd].
Defined.

(** ** The calculated source and its histories *)

Lemma removelast_last {A} (l : list A) (x : A) :
  last l = Some x -> removelast l ++ [x] = l.
Proof.
  induction l as [|y l IH]; [discriminate|].
  destruct l as [|z l]; [intros [= ->]; reflexivity|].
  intros H. cbn [removelast app]. f_equal. apply IH. exact H.
Qed.

Lemma lookup_map {A B} (f : A -> B) (l : list A) (i : nat) :
  map f l !! i = option_map f (l !! i).
Proof.
  revert i. induction l as [|x l IH]; intros [|i]; try reflexivity.
  exact (IH i).
Qed.

Section CalculatedSource.
Context `{Ext : Externals}.

(** X9. A calculated source built from a source carries that source's
    parameters, split into all but the last ([s_params]) and the last
    ([mu_radial]), its mean colour and its name prefixed with "Calc_"; its
    error history is empty and its parameter history holds the parameter
    array itself.  The constructor raises IndexError exactly when the source
    has no parameter. *)
Theorem Calc_source_from_source
    (name0 : string) (obs_times0 : list R) (source_params : Vec)
    (mu_radial0 mean_color0 : R) (src : Source) :
  match Calc_source_init name0 obs_times0 source_params mu_radial0 mean_color0
                         (Some src) with
  | Ok cs =>
      s_params cs ++ [mu_radial cs] = get_parameters src /\
      name cs = ("Calc_" ++ source_name src)%string /\
      mean_color cs = source_mean_color src /\
      obs_times cs = obs_times0 /\
      errors cs = [] /\
      read_s_old cs = [s_params cs]
  | Raise e => e = IndexError /\ get_parameters src = []
  end.
Proof.
  unfold Calc_source_init.
  destruct (last (get_parameters src)) as [x|] eqn:Hlast; cbn [rbind].
  - unfold read_s_old. cbn.
    split; [exact (removelast_last _ _ Hlast)|]. repeat split.
  - split; [reflexivity|]. apply last_None. exact Hlast.
Qed.

(** X10. A calculated source built from the reference source of its own
    index has residual 0 at every time in the modes "source" and "scanned
    source", provided the two field-angle routines agree on equal
    parameters. *)
Theorem source_from_reference_has_zero_residual
    (a : Agis) (i : nat) (t : R) (src : Source) (cs : Calc_source)
    (name0 : string) (obs_times0 : list R) (source_params : Vec)
    (mu_radial0 mean_color0 : R) :
  real_sources a !! i = Some src ->
  Calc_source_init name0 obs_times0 source_params mu_radial0 mean_color0
                   (Some src) = Ok cs ->
  calc_sources a !! i = Some cs ->
  updating a = "source"%string \/ updating a = "scanned source"%string ->
  (forall (src' : Source) (cs' : Calc_source) (q : Quaternion),
     get_parameters src' = s_params cs' ++ [mu_radial cs'] ->
     observed_field_angles src' q (sat a) t (double_telescope a)
     = calculated_field_angles cs' q (sat a) t (double_telescope a)) ->
  compute_R_L a i t = Ok 0.
Proof.
  intros Hsrc Hinit Hcs Hmode Hagree.
  pose proof (Calc_source_from_source name0 obs_times0 source_params
                mu_radial0 mean_color0 src) as Hfrom.
  rewrite Hinit in Hfrom. destruct Hfrom as [Hpar _].
  assert (Hex : exists att : Quaternion,
            get_field_angles a i t
            = Ok (fst (observed_field_angles src att (sat a) t (double_telescope a)),
                  snd (observed_field_angles src att (sat a) t (double_telescope a)),
                  fst (calculated_field_angles cs att (sat a) t (double_telescope a)),
                  snd (calculated_field_angles cs att (sat a) t (double_telescope a)))).
  { destruct Hmode as [Hu|Hu].
    - exists (attitude_from_alpha_delta src (sat a) t 0).
      apply (get_field_angles_of_attitudes a i t src cs _ _ Hsrc Hcs). auto.
    - exists (func_attitude (sat a) t).
      apply (get_field_angles_of_attitudes a i t src cs _ _ Hsrc Hcs). auto. }
  destruct Hex as [att Hang].
  rewrite (compute_R_L_of_angles a i t src _ _ _ _ Hsrc Hang).
  rewrite (Hagree src cs att (eq_sym Hpar)). f_equal. lra.
Qed.

(** What a completed pass does to the histories of every star. *)
Lemma update_S_block_records (a a' : Agis) :
  update_S_block a = (Ok tt, a') ->
  length (calc_sources a') = length (calc_sources a) /\
  forall i cs, calc_sources a !! i = Some cs ->
    exists cs', calc_sources a' !! i = Some cs' /\
                s_old cs' = s_old cs ++ [ParamsCopy (s_params cs)] /\
                length (errors cs') = S (length (errors cs)).
Proof.
  intros H. split.
  - apply for_each_step_frame in H. tauto.
  - intros i cs Hcs.
    assert (Hlt : (i < length (calc_sources a))%nat)
      by (apply lookup_lt_is_Some; eauto).
    destruct (update_S_block_split a a' i H Hlt)
      as (a_i & a_i' & Hpre & Hstep & Hpost).
    destruct (update_S_block_step_Ok a_i a_i' i Hstep)
      as (cs0 & err & cs' & Hcs0 & _ & Hcs' & Herrs & Hold).
    pose proof (for_each_step_frame _ _ _ _ Hpre) as [_ Hfpre].
    pose proof (for_each_step_frame _ _ _ _ Hpost) as [_ Hfpost].
    rewrite Hfpre in Hcs0 by (rewrite in_seq; lia).
    rewrite Hcs in Hcs0. injection Hcs0 as <-.
    exists cs'. split.
    + rewrite Hfpost by (rewrite in_seq; lia). exact Hcs'.
    + split; [exact Hold|]. rewrite Herrs, length_app. simpl. lia.
Qed.

(** X11. A completed source-block pass appends to every star's [s_old] a
    copy of the parameters the star had when the pass began.  The entry that
    the constructor put there is the parameter array itself, not a copy: for
    a star fresh from the constructor the history reads, after the pass, as
    the updated parameters followed by the initial ones. *)
Theorem source_pass_records_start_parameters (a a' : Agis) :
  update_S_block a = (Ok tt, a') ->
  forall (i : nat) (cs : Calc_source), calc_sources a !! i = Some cs ->
    exists cs' : Calc_source,
      calc_sources a' !! i = Some cs' /\
      s_old cs' = s_old cs ++ [ParamsCopy (s_params cs)] /\
      (s_old cs = [SharedParams] ->
       read_s_old cs' = [s_params cs'; s_params cs]).
Proof.
  intros H i cs Hcs.
  destruct (proj2 (update_S_block_records a a' H) i cs Hcs)
    as (cs' & Hcs' & Hold & _).
  exists cs'. split; [exact Hcs'|]. split; [exact Hold|].
  intros Hfresh. unfold read_s_old. rewrite Hold, Hfresh. reflexivity.
Qed.

(** The source block in a pass of the driver. *)
Lemma iterate_pass_source_block (a a' : Agis) :
  iterate_pass a = (Ok tt, a') ->
  updating a = "source"%string \/ updating a = "scanned source"%string ->
  exists a3 a5 : Agis,
    calc_sources a3 = calc_sources a /\
    update_S_block a3 = (Ok tt, a5) /\
    calc_sources a' = calc_sources a5 /\
    updating a' = updating a.
Proof.
  intros H Hmode. unfold iterate_pass in H. cbv zeta in H.
  set (a2 := print (set_iter_counter a (iter_counter a + 1)) _) in H.
  assert (Htail : forall a3 : Agis,
            calc_sources a3 = calc_sources a -> updating a3 = updating a ->
            match
              (if String.eqb (updating a3) "source"
                  || String.eqb (updating a3) "scanned source"
               then update_S_block a3
               else if String.eqb (updating a3) "attitude"
                    then match update_A_block a3 with
                         | (Raise e, a4) => (Raise e, a4)
                         | (Ok _, a4) =>
                             match error_between_func_attitudes
                                     (all_obs_times a4) (func_attitude (sat a4))
                                     (fun t => get_attitude a4 t true) with
                             | Raise e => (Raise e, a4)
                             | Ok err => (Ok tt, print a4 (PrintAttitudeError err))
                             end
                         end
                    else (Ok tt, a3))
            with
            | (Raise e, a5) => (Raise e, a5)
            | (Ok _, a5) =>
                match error_function a5 with
                | Raise e => (Raise e, a5)
                | Ok err => (Ok tt, print a5 (PrintErrorAfter err))
                end
            end = (Ok tt, a') ->
            exists a3 a5 : Agis,
              calc_sources a3 = calc_sources a /\
              update_S_block a3 = (Ok tt, a5) /\
              calc_sources a' = calc_sources a5 /\
              updating a' = updating a).
  { intros a3 Hc Hu.
    assert (Hm : String.eqb (updating a3) "source"
                 || String.eqb (updating a3) "scanned source" = true).
    { rewrite Hu. destruct Hmode as [->| ->]; reflexivity. }
    rewrite Hm.
    destruct (update_S_block a3) as [[[]|e] a5] eqn:Hb; [|discriminate].
    destruct (error_function a5); [|discriminate].
    intros [= <-]. exists a3, a5. split; [exact Hc|]. split; [exact Hb|].
    split; [reflexivity|]. cbn [updating print].
    unfold update_S_block in Hb. apply for_each_step_set in Hb.
    destruct Hb as [l ->]. exact Hu. }
  destruct (verbose a2).
  - destruct (error_function a2); [|discriminate].
    apply Htail in H; [exact H | reflexivity | reflexivity].
  - apply Htail in H; [exact H | reflexivity | reflexivity].
Qed.

Lemma iterate_histories (n : nat) :
  forall a a' : Agis,
    iterate a n = (Ok tt, a') ->
    updating a = "source"%string \/ updating a = "scanned source"%string ->
    iter_counter a' = (iter_counter a + n)%nat /\
    length (calc_sources a') = length (calc_sources a) /\
    forall i cs, calc_sources a !! i = Some cs ->
      exists cs', calc_sources a' !! i = Some cs' /\
                  length (errors cs') = (length (errors cs) + n)%nat /\
                  length (s_old cs') = (length (s_old cs) + n)%nat.
Proof.
  induction n as [|n IH]; intros a a'; cbn [iterate].
  - intros [= <-] _. split; [lia|]. split; [reflexivity|].
    intros i cs Hcs. exists cs. split; [exact Hcs|]. split; lia.
  - destruct (iterate_pass a) as [[[]|e] a1] eqn:Hp; [|discriminate].
    intros Hit Hmode.
    destruct (iterate_pass_source_block a a1 Hp Hmode)
      as (a3 & a5 & Hc3 & Hb & Hc5 & Hu1).
    destruct (update_S_block_records a3 a5 Hb) as [Hlen Hrec].
    destruct (IH a1 a' Hit ltac:(rewrite Hu1; exact Hmode))
      as (Hcnt & Hlen' & Hrest).
    pose proof (iterate_pass_counter _ _ _ Hp) as Hc1.
    split; [lia|]. split; [congruence|].
    intros i cs Hcs. rewrite <- Hc3 in Hcs.
    destruct (Hrec i cs Hcs) as (cs1 & Hcs1 & Hold1 & Herr1).
    rewrite <- Hc5 in Hcs1.
    destruct (Hrest i cs1 Hcs1) as (cs' & Hcs' & Herr' & Hold').
    exists cs'. split; [exact Hcs'|].
    rewrite Herr', Hold', Herr1, Hold1, length_app. simpl. split; lia.
Qed.

(** X12. [reset_iterations] empties the two histories of every star and
    sets the iteration counter to 0, without touching the parameters (as its
    message says, it does not reset everything); after a completed call
    [iterate(n)] in a source mode on the solver it leaves, the counter is
    [n] and every star has exactly [n] entries in [errors] and in [s_old]. *)
Theorem reset_then_iterate (a a' : Agis) (n : nat) :
  updating a = "source"%string \/ updating a = "scanned source"%string ->
  iterate (reset_iterations a) n = (Ok tt, a') ->
  map s_params (calc_sources (reset_iterations a))
  = map s_params (calc_sources a) /\
  last (stdout (reset_iterations a)) = Some PrintNotResetting /\
  iter_counter a' = n /\
  length (calc_sources a') = length (calc_sources a) /\
  forall (i : nat) (cs' : Calc_source), calc_sources a' !! i = Some cs' ->
    length (errors cs') = n /\ length (s_old cs') = n.
Proof.
  intros Hmode Hit.
  destruct (iterate_histories n (reset_iterations a) a' Hit Hmode)
    as (Hcnt & Hlen & Hrec).
  split.
  { cbn [reset_iterations calc_sources set_calc_sources set_iter_counter print].
    rewrite map_map. reflexivity. }
  split; [cbn [reset_iterations stdout set_calc_sources set_iter_counter print];
          apply last_snoc|].
  split; [exact Hcnt|].
  assert (Hl : length (calc_sources (reset_iterations a))
               = length (calc_sources a)).
  { cbn [reset_iterations calc_sources set_calc_sources set_iter_counter print].
    apply length_map. }
  split; [congruence|].
  intros i cs' Hcs'.
  assert (Hlt : (i < length (calc_sources (reset_iterations a)))%nat).
  { rewrite <- Hlen. apply lookup_lt_is_Some. eauto. }
  apply lookup_lt_is_Some in Hlt. destruct Hlt as [cs0 Hcs0].
  destruct (Hrec i cs0 Hcs0) as (cs1 & Hcs1 & Herr & Hold).
  rewrite Hcs' in Hcs1. injection Hcs1 as <-.
  cbn [reset_iterations calc_sources set_calc_sources set_iter_counter print]
    in Hcs0.
  rewrite lookup_map in Hcs0.
  destruct (calc_sources a !! i) as [cs|]; [|discriminate].
  injection Hcs0 as <-. rewrite Herr, Hold. split; reflexivity.
Qed.

End CalculatedSource.

(** X10 at a star built from its reference source. *)
Lemma source_from_reference_witness :
  @compute_R_L (toy_externals solve_identity)
    (@Agis_init (toy_externals solve_identity) tt
       [mkCalc_source "Calc_star" [1] [1; 2; 0; 0; 0] 0 [SharedParams] [] 0]
       [[1; 2; 0; 0; 0; 0]] None false 3 0 "scanned source" 0 false)
    0 1 = Ok 0.
Proof.
  refine (@source_from_reference_has_zero_residual
            (toy_externals solve_identity)
            (@Agis_init (toy_externals solve_identity) tt
               [mkCalc_source "Calc_star" [1] [1; 2; 0; 0; 0] 0
                              [SharedParams] [] 0]
               [[1; 2; 0; 0; 0; 0]] None false 3 0 "scanned source" 0 false)
            0%nat 1 [1; 2; 0; 0; 0; 0]
            (mkCalc_source "Calc_star" [1] [1; 2; 0; 0; 0] 0
                           [SharedParams] [] 0)
            "x" [1] [] 0 0 eq_refl eq_refl eq_refl (or_intror eq_refl) _).
  intros src' cs' q Hp. cbn in Hp. cbn. rewrite Hp. reflexivity.
Defined.

(** X11 at the two stars of [two_star], for star 0. *)
Lemma source_pass_records_witness :
  exists (a' : Agis) (cs' : Calc_source),
    update_S_block two_star = (Ok tt, a') /\
    calc_sources a' !! 0%nat = Some cs' /\
    read_s_old cs' = [s_params cs'; [0; 0; 0; 0; 0]].
Proof.
  destruct two_star_pass as [a' [Hpass _]].
  destruct (source_pass_records_start_parameters two_star a' Hpass 0
              (toy_source "a" [1] [0; 0; 0; 0; 0]) eq_refl)
    as (cs' & Hcs' & _ & Hread).
  exists a', cs'. split; [exact Hpass|]. split; [exact Hcs'|].
  exact (Hread eq_refl).
Defined.

(** One pass of [iterate] on [two_star] after [reset_iterations]. *)
Lemma two_star_reset_iterate :
  exists a', iterate (reset_iterations two_star) 1 = (Ok tt, a').
Proof.
  eexists. cbn [iterate]. unfold iterate_pass, update_S_block.
  run. run_solver.
  rewrite solve_checked_first by (run; repeat f_equal; lra).
  run. run_solver.
  rewrite solve_checked_skip by (run; intros H; injection H as H _; lra).
  rewrite solve_checked_first by (run; repeat f_equal; lra).
  run. reflexivity.
Qed.

(** X12 at the two stars of [two_star], for one pass. *)
Lemma reset_then_iterate_witness :
  exists a' : Agis,
    iterate (reset_iterations two_star) 1 = (Ok tt, a') /\
    iter_counter a' = 1%nat /\
    forall (i : nat) (cs' : Calc_source), calc_sources a' !! i = Some cs' ->
      length (errors cs') = 1%nat /\ length (s_old cs') = 1%nat.
Proof.
  destruct two_star_reset_iterate as [a' H]. exists a'.
  destruct (reset_then_iterate two_star a' 1 (or_intror eq_refl) H)
    as (_ & _ & Hc & _ & Hh).
  split; [exact H|]. split; [exact Hc | exact Hh].
Defined.

(** ** The observation times and their index *)






(** [list(seq).index(t)] finds the first position of a member. *)
Lemma list_index_In (t : R) (l : list R) :
  In t l ->
  exists pos : nat,
    list_index t l = Ok pos /\ l !! pos = Some t /\
    forall q, (q < pos)%nat -> l !! q <> Some t.
Proof.
  induction l as [|u l IH]; [intros []|]. intros Hin. cbn [list_index].
  destruct (Req_dec_T u t) as [->|Hne].
  - exists 0%nat. split; [reflexivity|]. split; [reflexivity|]. intros q Hq. lia.
  - destruct Hin as [Hu|Hin]; [contradiction|].
    destruct (IH Hin) as (pos & Hpos & Hl & Hfirst).
    exists (S pos). rewrite Hpos. split; [reflexivity|]. split; [exact Hl|].
    intros [|q] Hq; [cbn; congruence | apply Hfirst; lia].
Qed.

Section ObservationTimes.
Context `{Ext : Externals}.

(** X13. In a solver as the constructor builds it, every member of
    [all_obs_times] has an entry in the time index: [get_source_index]
    returns the index of a source that exists and lists that time, and
    [list(all_obs_times).index] finds its first position.  The look-ups that
    open each step of the attitude assembly therefore never raise. *)
Theorem time_index_covers_all_obs_times
    (sat0 : Satellite) (calc_sources0 : list Calc_source)
    (real_sources0 : list Source) (attitude_splines0 : option (list BSpline))
    (verbose0 : bool) (spline_degree : nat) (lambda : R) (updating0 : string)
    (degree_error0 : R) (double_telescope0 : bool) (t : R) :
  let a := Agis_init sat0 calc_sources0 real_sources0 attitude_splines0
                     verbose0 spline_degree lambda updating0 degree_error0
                     double_telescope0 in
  In t (all_obs_times a) ->
  exists (i : nat) (cs : Calc_source) (pos : nat),
    get_source_index a t = Ok i /\
    calc_sources a !! i = Some cs /\ In t (obs_times cs) /\
    list_index t (all_obs_times a) = Ok pos /\
    all_obs_times a !! pos = Some t /\
    forall q, (q < pos)%nat -> all_obs_times a !! q <> Some t.
Proof.
  intros a Hin.
  assert (Hd : time_dict a = time_dict_from 0 calc_sources0 []) by reflexivity.
  assert (Hc : calc_sources a = calc_sources0) by reflexivity.
  assert (Ht : all_obs_times a = np_sort (concat (map obs_times calc_sources0)))
    by reflexivity.
  destruct (list_index_In t _ Hin) as (pos & Hpos & Hl & Hfirst).
  rewrite Ht in Hin.
  apply (Permutation_in _ (np_sort_Permutation _)) in Hin.
  apply in_concat in Hin. destruct Hin as (times & Htimes & Hmem).
  apply in_map_iff in Htimes. destruct Htimes as (cs0 & <- & Hcs0).
  destruct (owner t calc_sources0) as [j|] eqn:Hown.
  - pose proof (proj1 (owner_Some t calc_sources0 j) Hown)
      as [(cs & Hcs & Htcs) _].
    exists j, cs, pos. rewrite (get_source_index_owner a calc_sources0 t Hd).
    rewrite Hown, Hc. auto 6.
  - exfalso. exact (proj1 (owner_None t calc_sources0) Hown cs0 Hcs0 Hmem).
Qed.


End ObservationTimes.

(** X13 at the star of [att_star 0] and its observation time 2. *)
Lemma time_index_covers_witness :
  exists (i : nat) (cs : Calc_source) (pos : nat),
    get_source_index (att_star 0) 2 = Ok i /\
    calc_sources (att_star 0) !! i = Some cs /\ In 2 (obs_times cs) /\
    list_index 2 (all_obs_times (att_star 0)) = Ok pos.
Proof.
  assert (Hin : In 2 (all_obs_times (att_star 0))).
  { unfold att_star, Agis_init. cbn [all_obs_times].
    apply (Permutation_in _ (Permutation_sym (np_sort_Permutation _))).
    cbn. auto. }
  destruct (@time_index_covers_all_obs_times
              (toy_externals (solve_checked att_star_candidates)) tt
              [toy_source "a" [0; 1; 2; 3] [0; 0; 0; 0; 0]]
              [[1; 0; 0; 0; 0; 0]]
              (Some [mkBSpline [0; 0; 0; 0; 3; 3; 3; 3] [2] 3;
                     mkBSpline [0; 0; 0; 0; 3; 3; 3; 3] [0] 3;
                     mkBSpline [0; 0; 0; 0; 3; 3; 3; 3] [0] 3;
                     mkBSpline [0; 0; 0; 0; 3; 3; 3; 3] [0] 3])
              false 3 0 "attitude" 0 false 2 Hin)
    as (i & cs & pos & H1 & H2 & H3 & H4 & _).
  exists i, cs, pos. auto.
Defined.

(** ** The attitude block *)

Lemma get_lists_intersection_disjoint (l1 l2 : list R) :
  (forall t, In t l1 -> ~ In t l2) -> get_lists_intersection l1 l2 = [].
Proof.
  intros H. destruct (get_lists_intersection l1 l2) as [|t l] eqn:Hl;
    [reflexivity|].
  exfalso.
  assert (Hin : In t (get_lists_intersection l1 l2))
    by (rewrite Hl; left; reflexivity).
  apply get_lists_intersection_In in Hin. destruct Hin as [H1 H2].
  exact (H t H1 H2).
Qed.

Lemma length_block_row (r : nat) (blocks : list Mat4) :
  length (concat (map (fun b => col4_list (nth r (mat4_rows b) col4_zero))
                      blocks))
  = (4 * length blocks)%nat.
Proof.
  induction blocks as [|b blocks IH]; [reflexivity|].
  cbn [map concat]. rewrite length_app, IH. cbn [col4_list length]. lia.
Qed.




Section AttitudeBlockMore.
Context `{Ext : Externals}.

(** X15. The system that the attitude block assembles is square and its
    two sides fit: for a coefficient array of [n] columns the matrix has
    [4 n] rows of [4 n] entries and the right-hand side [4 n] rows of one
    entry. *)
Theorem attitude_system_shapes (a : Agis) (LHS RHS : Matrix) :
  attitude_LHS a = Ok LHS -> attitude_RHS a = Ok RHS ->
  exists s : Attitude_state,
    attitude a = Some s /\
    length LHS = (4 * ncols (att_coeffs s))%nat /\
    Forall (fun row => length row = (4 * ncols (att_coeffs s))%nat) LHS /\
    length RHS = (4 * ncols (att_coeffs s))%nat /\
    Forall (fun row => length row = 1%nat) RHS.
Proof.
  intros HL HR.
  destruct (attitude_LHS_blocks a LHS HL) as (s & Bf & Hatt & -> & _).
  exists s. split; [exact Hatt|].
  set (D := ncols (att_coeffs s)).
  split; [rewrite length_assemble, length_map, length_seq; reflexivity|].
  split.
  { unfold assemble. apply List.Forall_forall. intros row Hin.
    apply in_concat in Hin. destruct Hin as (rows & Hrows & Hrow).
    apply in_map_iff in Hrows. destruct Hrows as (blocks & <- & Hblocks).
    apply in_map_iff in Hblocks. destruct Hblocks as (n & <- & _).
    unfold block_rows in Hrow. apply in_map_iff in Hrow.
    destruct Hrow as (r & <- & _).
    rewrite length_block_row, length_map, length_seq. reflexivity. }
  unfold attitude_RHS, attitude_attr in HR. rewrite Hatt in HR.
  cbn [rbind] in HR. fold D in HR.
  destruct (mapM (compute_attitude_RHS_n a) (seq 0 D)) as [cols|] eqn:Hcols;
    [|discriminate].
  cbn [rbind] in HR. injection HR as <-.
  apply mapM_length in Hcols. rewrite length_seq in Hcols.
  split.
  - rewrite <- Hcols. clear. induction cols as [|c0 cols IH]; [reflexivity|].
    cbn [map concat]. rewrite length_app, IH. cbn. lia.
  - apply List.Forall_forall. intros row Hin.
    apply in_concat in Hin. destruct Hin as (rows & Hrows & Hrow).
    apply in_map_iff in Hrows. destruct Hrows as (c0 & <- & _).
    cbn in Hrow. destruct Hrow as [<-|[<-|[<-|[<-|[]]]]]; reflexivity.
Qed.

(** X16. The block of two spans whose supports share no observation
    time is the zero block, and its computation calls none of the
    collaborators that could raise: this is what makes the matrix banded. *)
Theorem disjoint_supports_give_zero_block
    (a : Agis) (s : Attitude_state) (m n : nat) :
  attitude a = Some s ->
  (forall t, In t (span_support a s m) -> ~ In t (span_support a s n)) ->
  compute_Naa_mn a m n = Ok mat4_zero.
Proof.
  intros Hatt Hdis. unfold compute_Naa_mn, attitude_attr. rewrite Hatt.
  cbn [rbind]. unfold time_support_spline_mn. unfold span_support in Hdis.
  rewrite (get_lists_intersection_disjoint _ _ Hdis). reflexivity.
Qed.

(** X17. When [np.linalg.solve] fails in [update_A_block], the error
    propagates; the coefficients, the splines and the sources are as before,
    but the assembled matrix and right-hand side have been stored in [N_aa]
    and [h], and the line of [compute_attitude_LHS] has been printed. *)
Theorem attitude_solve_failure (a : Agis) (LHS RHS : Matrix) :
  attitude_LHS a = Ok LHS -> attitude_RHS a = Ok RHS ->
  np_linalg_solve LHS RHS = None ->
  exists (a' : Agis) (s : Attitude_state),
    update_A_block a = (Raise LinAlgError, a') /\
    attitude a = Some s /\ attitude a' = Some s /\
    calc_sources a' = calc_sources a /\
    N_aa a' = Some LHS /\ h a' = Some RHS /\
    d a' = d a /\ c_update a' = c_update a /\
    stdout a' = stdout a ++ [PrintNaaDim (ncols (att_coeffs s))].
Proof.
  intros HL HR Hsolve.
  destruct (attitude_LHS_blocks a LHS HL) as (s & _ & Hatt & _).
  assert (Hup : update_A_block a
                = (Raise LinAlgError,
                   set_h (set_N_aa (print a (PrintNaaDim (ncols (att_coeffs s))))
                                   (Some LHS))
                         (Some RHS))).
  { unfold update_A_block, compute_attitude_LHS, attitude_attr.
    rewrite Hatt, attitude_LHS_print, HL.
    unfold compute_attitude_RHS. rewrite attitude_RHS_set_N_aa, HR, Hsolve.
    reflexivity. }
  eexists _, s. split; [exact Hup|]. split; [exact Hatt|].
  cbn [attitude calc_sources N_aa h d c_update stdout set_h set_N_aa print].
  auto 10.
Qed.


End AttitudeBlockMore.

(** X15 and X18 at the star of [att_star 0]. *)
Lemma attitude_system_shapes_witness :
  exists LHS RHS : Matrix,
    attitude_LHS (att_star 0) = Ok LHS /\ attitude_RHS (att_star 0) = Ok RHS /\
    length LHS = 4%nat /\ length RHS = 4%nat.
Proof.
  pose proof (att_star_LHS 0 eq_refl) as HL.
  pose proof (att_star_RHS 0 eq_refl) as HR.
  destruct (attitude_system_shapes (att_star 0) _ _ HL HR)
    as (s & _ & Hl & _ & _ & _).
  eexists _, _. split; [exact HL|]. split; [exact HR|].
  split; reflexivity.
Defined.


(** Collaborators as in [toy_externals], except that the support of span
    [n] is made of the observation times in [[n, n + 1)]. *)
Definition in_window (n : nat) (t : R) : bool :=
  if Rle_dec (IZR (Z.of_nat n)) t
  then if Rle_dec (IZR (Z.of_nat n) + 1) t then false else true
  else false.

Definition toy_externals_windows (solve : Matrix -> Matrix -> option Matrix)
    : Externals :=
  {| Source := @Source (toy_externals solve);
     Satellite := @Satellite (toy_externals solve);
     rad_per_deg := @rad_per_deg (toy_externals solve);
     t_ep := @t_ep (toy_externals solve);
     source_name := @source_name (toy_externals solve);
     get_parameters := @get_parameters (toy_externals solve);
     source_mean_color := @source_mean_color (toy_externals solve);
     func_color := @func_color (toy_externals solve);
     func_attitude := @func_attitude (toy_externals solve);
     ephemeris_bcrs := @ephemeris_bcrs (toy_externals solve);
     compute_pqr := @compute_pqr (toy_externals solve);
     lmn_to_xyz := @lmn_to_xyz (toy_externals solve);
     sec := @sec (toy_externals solve);
     observed_field_angles := @observed_field_angles (toy_externals solve);
     calculated_field_angles := @calculated_field_angles (toy_externals solve);
     attitude_from_alpha_delta := @attitude_from_alpha_delta (toy_externals solve);
     compute_du_dparallax := @compute_du_dparallax (toy_externals solve);
     compute_deviated_angles_color_aberration := @compute_deviated_angles_color_aberration (toy_externals solve);
     compute_mnu := @compute_mnu (toy_externals solve);
     error_between_func_attitudes := @error_between_func_attitudes (toy_externals solve);
     extract_coeffs_knots_from_splines := @extract_coeffs_knots_from_splines (toy_externals solve);
     get_basis_Bsplines := @get_basis_Bsplines (toy_externals solve);
     get_times_in_knot_interval :=
       fun times _ n _ => List.filter (in_window n) times;
     get_left_index := @get_left_index (toy_externals solve);
     compute_coeff_basis_sum := @compute_coeff_basis_sum (toy_externals solve);
     compute_attitude_deviation := @compute_attitude_deviation (toy_externals solve);
     compute_DL_da_i := @compute_DL_da_i (toy_externals solve);
     compute_dR_dq := @compute_dR_dq (toy_externals solve);
     dR_da_i := @dR_da_i (toy_externals solve);
     bspline_call := @bspline_call (toy_externals solve);
     np_linalg_solve := @np_linalg_solve (toy_externals solve) |}.

(** One star observed at times 0 and 1, with two knot spans. *)
Definition two_span : @Agis (toy_externals_windows solve_identity) :=
  @Agis_init (toy_externals_windows solve_identity) tt
     [toy_source "a" [0; 1] [0; 0; 0; 0; 0]]
     [[1; 0; 0; 0; 0; 0]]
     (Some [mkBSpline [0; 0; 0; 0; 1; 2; 2; 2; 2] [2; 2] 3;
            mkBSpline [0; 0; 0; 0; 1; 2; 2; 2; 2] [0; 0] 3;
            mkBSpline [0; 0; 0; 0; 1; 2; 2; 2; 2] [0; 0] 3;
            mkBSpline [0; 0; 0; 0; 1; 2; 2; 2; 2] [0; 0] 3])
     false 3 0 "attitude" 0 false.

(** X16 at the two spans of [two_span], whose supports are [[0]] and
    [[1]]. *)
Lemma disjoint_supports_witness :
  compute_Naa_mn two_span 0 1 = Ok mat4_zero.
Proof.
  refine (@disjoint_supports_give_zero_block
            (toy_externals_windows solve_identity) two_span _ 0 1 eq_refl _).
  intros t. unfold span_support. run_all.
  intros [<-|[]] [H|[]]. lra.
Defined.

(** The star of [att_star 0] with a solver that finds every matrix
    singular. *)
Definition att_star_singular : @Agis (toy_externals solve_singular) :=
  @Agis_init (toy_externals solve_singular) tt
     [toy_source "a" [0; 1; 2; 3] [0; 0; 0; 0; 0]]
     [[1; 0; 0; 0; 0; 0]]
     (Some [mkBSpline [0; 0; 0; 0; 3; 3; 3; 3] [2] 3;
            mkBSpline [0; 0; 0; 0; 3; 3; 3; 3] [0] 3;
            mkBSpline [0; 0; 0; 0; 3; 3; 3; 3] [0] 3;
            mkBSpline [0; 0; 0; 0; 3; 3; 3; 3] [0] 3])
     false 3 0 "attitude" 0 false.

Lemma att_star_singular_system :
  attitude_LHS att_star_singular
  = Ok [[1; 0; 0; 0]; [0; 1; 0; 0]; [0; 0; 1; 0]; [0; 0; 0; 1]] /\
  attitude_RHS att_star_singular = Ok [[-1]; [-1]; [-1]; [-1]].
Proof.
  split; run_all; repeat f_equal; lra.
Qed.

(** X17 at [att_star_singular]. *)
Lemma attitude_solve_failure_witness :
  exists a' : Agis,
    update_A_block att_star_singular = (Raise LinAlgError, a') /\
    attitude a' = attitude att_star_singular /\
    N_aa a' = Some [[1; 0; 0; 0]; [0; 1; 0; 0]; [0; 0; 1; 0]; [0; 0; 0; 1]].
Proof.
  destruct att_star_singular_system as [HL HR].
  destruct (attitude_solve_failure att_star_singular _ _ HL HR eq_refl)
    as (a' & s & Hup & Hs & Hs' & _ & HN & _).
  exists a'. split; [exact Hup|]. split; [congruence | exact HN].
Defined.
